(** * The serial protocol layer of lib/device.py

    A shallow embedding of [SerialProtocol] and its two listener classes,
    of the requests of [SerialDevice] and of the paged menu of main.py.
    Python objects live in stores indexed by identity (listeners, payload
    dictionaries); every coroutine is a function of the protocol state and
    of an explicit description of what the event loop did at each of its
    suspension points. *)

From Stdlib Require Import ZArith Ascii String List Bool Lia.
From Stdlib Require Import DecimalString DecimalZ DecimalPos DecimalFacts.
From Stdlib.Strings Require Byte.
From stdpp Require Import base option list strings gmap fin_maps fin_sets.

Set Warnings "-register-all,-clear-no-such-hyp".

Open Scope string_scope.
Open Scope list_scope.

(** * The model *)

(** ** Values *)

(** What [json.load] can return and [json.dumps] can print (floats are left
    out of the model). A Python [dict] keeps its insertion order. *)
Inductive json : Type :=
| JNull
| JBool (b : bool)
| JInt (n : Z)
| JStr (t : string)
| JList (xs : list json)
| JDict (kvs : list (string * json)).

Definition dict : Type := list (string * json).

(** [d[k]]; [None] stands for [KeyError]. *)
Fixpoint dict_get (k : string) (d : dict) : option json :=
  match d with
  | [] => None
  | (k', x) :: d' => if String.eqb k k' then Some x else dict_get k d'
  end.

(** [d[k] = x]: an existing key keeps its place, a new one goes last. *)
Fixpoint dict_set (k : string) (x : json) (d : dict) : dict :=
  match d with
  | [] => [(k, x)]
  | (k', y) :: d' =>
      if String.eqb k k' then (k', x) :: d' else (k', y) :: dict_set k x d'
  end.

(** ** Text and bytes *)

(** A Python [str] is a [string] whose characters are the code points
    below 256; [bytes] are lists of [Byte.byte]. *)
Abbreviation bytes := (list Byte.byte) (only parsing).

Definition dquote : ascii := "034".
Definition backslash : ascii := "092".
Definition LF : ascii := "010".
Definition CR : ascii := "013".
Definition TAB : ascii := "009".
Definition BS : ascii := "008".
Definition FF : ascii := "012".

(** Writes a quotation mark for every apostrophe, so that JSON text can be
    given as a literal. *)
Definition dq (t : string) : string :=
  string_of_list_ascii
    (map (fun c => if Ascii.eqb c "'" then dquote else c)
         (list_ascii_of_string t)).

(** [str.encode("utf8")] on code points below 256. *)
Definition utf8_char (c : ascii) : bytes :=
  let n := N_of_ascii c in
  if (n <? 128)%N then [byte_of_ascii c]
  else [byte_of_ascii (ascii_of_N (192 + n / 64));
        byte_of_ascii (ascii_of_N (128 + n mod 64))].

Definition utf8_encode (t : string) : bytes :=
  concat (map utf8_char (list_ascii_of_string t)).

(** A bytes literal. *)
Definition b (t : string) : bytes := map byte_of_ascii (list_ascii_of_string t).

(** The bytes of a text that is plain ASCII. *)
Definition ascii_bytes (t : list ascii) : bytes := map byte_of_ascii t.

#[global] Instance byte_eq_decision : EqDecision Byte.byte.
Proof.
  intros x y. destruct (Byte.eqb x y) eqn:E.
  - left. apply Byte.byte_dec_bl. exact E.
  - right. apply Byte.eqb_false. exact E.
Defined.

(** [buffer.endswith(end)] *)
Definition endswith (buffer end_ : bytes) : bool :=
  bool_decide (drop (length buffer - length end_) buffer = end_).

(** ** [json.dumps] with its default arguments *)

Fixpoint chars_of_uint (d : Decimal.uint) : list ascii :=
  match d with
  | Decimal.Nil => []
  | Decimal.D0 d => "0"%char :: chars_of_uint d
  | Decimal.D1 d => "1"%char :: chars_of_uint d
  | Decimal.D2 d => "2"%char :: chars_of_uint d
  | Decimal.D3 d => "3"%char :: chars_of_uint d
  | Decimal.D4 d => "4"%char :: chars_of_uint d
  | Decimal.D5 d => "5"%char :: chars_of_uint d
  | Decimal.D6 d => "6"%char :: chars_of_uint d
  | Decimal.D7 d => "7"%char :: chars_of_uint d
  | Decimal.D8 d => "8"%char :: chars_of_uint d
  | Decimal.D9 d => "9"%char :: chars_of_uint d
  end.

(** The decimal text of an integer, whatever its size; the limit of the
    interpreter on conversions is [int_fits] below. *)
Definition chars_of_int (n : Z) : list ascii :=
  match Z.to_int n with
  | Decimal.Pos d => chars_of_uint d
  | Decimal.Neg d => "-"%char :: chars_of_uint d
  end.

(** [sys.int_max_str_digits]: CPython (3.10.7 and later) converts between
    [int] and [str] up to 4300 digits, the sign apart, and raises
    [ValueError] beyond; [int.__repr__] in [json.dumps] and [int(...)] in
    [json.load] are such conversions. *)
Definition int_max_str_digits : nat := 4300.

Definition digits_fit (d : Decimal.uint) : bool :=
  (Decimal.nb_digits d <=? int_max_str_digits)%nat.

Definition int_fits (n : Z) : bool :=
  match Z.to_int n with
  | Decimal.Pos d | Decimal.Neg d => digits_fit d
  end.

(** Every integer in the value can be printed. *)
Fixpoint fits (x : json) : bool :=
  match x with
  | JInt n => int_fits n
  | JList xs => forallb fits xs
  | JDict kvs => forallb (fun kv => fits (snd kv)) kvs
  | _ => true
  end.

Definition hex_digit (n : N) : ascii :=
  nth (N.to_nat n) (list_ascii_of_string "0123456789abcdef") "0"%char.

(** [ESCAPE_ASCII]: a backslash, a quotation mark and everything outside
    [' '..'~'] is replaced. *)
Definition escape_char (c : ascii) : list ascii :=
  let n := N_of_ascii c in
  if Ascii.eqb c backslash then [backslash; backslash]
  else if Ascii.eqb c dquote then [backslash; dquote]
  else if Ascii.eqb c BS then [backslash; "b"%char]
  else if Ascii.eqb c FF then [backslash; "f"%char]
  else if Ascii.eqb c LF then [backslash; "n"%char]
  else if Ascii.eqb c CR then [backslash; "r"%char]
  else if Ascii.eqb c TAB then [backslash; "t"%char]
  else if ((n <? 32) || (126 <? n))%N then
    [backslash; "u"%char; "0"%char; "0"%char;
     hex_digit (n / 16); hex_digit (n mod 16)]
  else [c].

Definition encode_string (t : string) : list ascii :=
  dquote :: concat (map escape_char (list_ascii_of_string t)) ++ [dquote].

(** [', '.join(items)] *)
Fixpoint join_comma (items : list (list ascii)) : list ascii :=
  match items with
  | [] => []
  | [x] => x
  | x :: rest => x ++ ","%char :: " "%char :: join_comma rest
  end.

(** The text of a value in the layout of [json.dumps]. *)
Fixpoint encode (x : json) : list ascii :=
  match x with
  | JNull => list_ascii_of_string "null"
  | JBool true => list_ascii_of_string "true"
  | JBool false => list_ascii_of_string "false"
  | JInt n => chars_of_int n
  | JStr t => encode_string t
  | JList xs => "["%char :: join_comma (map encode xs) ++ ["]"%char]
  | JDict kvs =>
      "{"%char
      :: join_comma
           (map (fun kv => encode_string (fst kv)
                           ++ ":"%char :: " "%char :: encode (snd kv)) kvs)
      ++ ["}"%char]
  end.

(** [json.dumps(x)]; [None] is the [ValueError] of an integer that is too
    long to print. *)
Definition json_dumps (x : json) : option string :=
  if fits x then Some (string_of_list_ascii (encode x)) else None.

(** ** [json.load] *)

(** [PErr]: [json.load] raises, a [JSONDecodeError] or the [ValueError]
    of an integer that is too long to read; both are a [ValueError], and
    the read loop tells them apart only by what it prints.
    [PUnsupported]: the text leaves the part of JSON that the model covers
    (a float, [NaN], [Infinity], a code point above 255, bytes that are
    not plain ASCII); the model does not say what [json.load] makes of
    it. *)
Inductive presult (A : Type) : Type :=
| POk (a : A)
| PErr
| PUnsupported.
Arguments POk {A} a.
Arguments PErr {A}.
Arguments PUnsupported {A}.

Definition is_ws (c : ascii) : bool :=
  Ascii.eqb c " " || Ascii.eqb c TAB || Ascii.eqb c LF || Ascii.eqb c CR.

Fixpoint skip_ws (t : list ascii) : list ascii :=
  match t with
  | c :: t' => if is_ws c then skip_ws t' else t
  | [] => []
  end.

Definition digit_of (c : ascii) : option (Decimal.uint -> Decimal.uint) :=
  if Ascii.eqb c "0" then Some Decimal.D0
  else if Ascii.eqb c "1" then Some Decimal.D1
  else if Ascii.eqb c "2" then Some Decimal.D2
  else if Ascii.eqb c "3" then Some Decimal.D3
  else if Ascii.eqb c "4" then Some Decimal.D4
  else if Ascii.eqb c "5" then Some Decimal.D5
  else if Ascii.eqb c "6" then Some Decimal.D6
  else if Ascii.eqb c "7" then Some Decimal.D7
  else if Ascii.eqb c "8" then Some Decimal.D8
  else if Ascii.eqb c "9" then Some Decimal.D9
  else None.

(** The longest run of digits at the head of the text. *)
Fixpoint scan_digits (t : list ascii) : Decimal.uint * list ascii :=
  match t with
  | c :: t' =>
      match digit_of c with
      | Some d => let (u, r) := scan_digits t' in (d u, r)
      | None => (Decimal.Nil, t)
      end
  | [] => (Decimal.Nil, [])
  end.

(** [NUMBER_RE] for the integers: after the optional sign, a lone zero or
    digits that do not begin with zero. After a leading zero the number is
    over, and a digit that follows can start nothing. The digits of an
    integer go through [int(...)], which raises beyond the limit. *)
Definition scan_number (neg : bool) (t : list ascii)
  : presult (json * list ascii) :=
  match scan_digits t with
  | (Decimal.Nil, r) =>
      match r with
      | c :: _ => if neg && Ascii.eqb c "I" then PUnsupported else PErr
      | [] => PErr
      end
  | (d, r) =>
      let float_follows :=
        match r with
        | c :: _ => Ascii.eqb c "." || Ascii.eqb c "e" || Ascii.eqb c "E"
        | [] => false
        end in
      match d with
      | Decimal.D0 (Decimal.D0 _ | Decimal.D1 _ | Decimal.D2 _ | Decimal.D3 _
                   | Decimal.D4 _ | Decimal.D5 _ | Decimal.D6 _ | Decimal.D7 _
                   | Decimal.D8 _ | Decimal.D9 _) => PErr
      | _ =>
          if float_follows then PUnsupported
          else if digits_fit d then
            POk (JInt (Z.of_int (if neg then Decimal.Neg d else Decimal.Pos d)), r)
          else PErr
      end
  end.

Definition hex_value (c : ascii) : option N :=
  let n := N_of_ascii c in
  if ((48 <=? n) && (n <=? 57))%N then Some (n - 48)%N
  else if ((97 <=? n) && (n <=? 102))%N then Some (n - 87)%N
  else if ((65 <=? n) && (n <=? 70))%N then Some (n - 55)%N
  else None.

(** [scanstring] in strict mode, after the opening quotation mark. *)
Fixpoint scan_string (t : list ascii) (acc : list ascii)
  : presult (string * list ascii) :=
  match t with
  | [] => PErr
  | c :: t' =>
      if Ascii.eqb c dquote then POk (string_of_list_ascii (rev acc), t')
      else if Ascii.eqb c backslash then
        match t' with
        | [] => PErr
        | e :: t'' =>
            if Ascii.eqb e "u" then
              match t'' with
              | h1 :: h2 :: h3 :: h4 :: t3 =>
                  match hex_value h1, hex_value h2, hex_value h3, hex_value h4 with
                  | Some a1, Some a2, Some a3, Some a4 =>
                      if ((a1 =? 0) && (a2 =? 0))%N
                      then scan_string t3 (ascii_of_N (16 * a3 + a4) :: acc)
                      else PUnsupported
                  | _, _, _, _ => PErr
                  end
              | _ => PErr
              end
            else if Ascii.eqb e dquote then scan_string t'' (dquote :: acc)
            else if Ascii.eqb e backslash then scan_string t'' (backslash :: acc)
            else if Ascii.eqb e "/" then scan_string t'' ("/"%char :: acc)
            else if Ascii.eqb e "b" then scan_string t'' (BS :: acc)
            else if Ascii.eqb e "f" then scan_string t'' (FF :: acc)
            else if Ascii.eqb e "n" then scan_string t'' (LF :: acc)
            else if Ascii.eqb e "r" then scan_string t'' (CR :: acc)
            else if Ascii.eqb e "t" then scan_string t'' (TAB :: acc)
            else PErr
        end
      else if (N_of_ascii c <? 32)%N then PErr
      else scan_string t' (c :: acc)
  end.

(** [prefix.startswith] on what is left of the text. *)
Fixpoint strip_prefix (p t : list ascii) : option (list ascii) :=
  match p, t with
  | [], _ => Some t
  | a :: p', c :: t' => if Ascii.eqb a c then strip_prefix p' t' else None
  | _ :: _, [] => None
  end.

Definition starts_with (p : string) (t : list ascii) : bool :=
  match strip_prefix (list_ascii_of_string p) t with Some _ => true | None => false end.

(** [dict(pairs)]: a repeated key keeps its first place and its last
    value. *)
Definition dict_of_pairs (pairs : list (string * json)) : dict :=
  fold_left (fun d kv => dict_set (fst kv) (snd kv) d) pairs [].

(** [scan_once], [JSONArray] and [JSONObject]; [fuel] bounds the depth of
    the calls and the number of items. *)
Fixpoint parse_value (fuel : nat) (t : list ascii) {struct fuel}
  : presult (json * list ascii) :=
  match fuel with
  | O => PUnsupported
  | S fuel' =>
      match t with
      | [] => PErr
      | c :: t' =>
          if Ascii.eqb c dquote then
            match scan_string t' [] with
            | POk (x, r) => POk (JStr x, r)
            | PErr => PErr
            | PUnsupported => PUnsupported
            end
          else if Ascii.eqb c "{" then
            match skip_ws t' with
            | c1 :: r =>
                if Ascii.eqb c1 "}" then POk (JDict [], r)
                else if Ascii.eqb c1 dquote then parse_members fuel' r []
                else PErr
            | [] => PErr
            end
          else if Ascii.eqb c "[" then
            match skip_ws t' with
            | c1 :: r =>
                if Ascii.eqb c1 "]" then POk (JList [], r)
                else parse_elements fuel' (c1 :: r) []
            | [] => PErr
            end
          else if Ascii.eqb c "n" then
            match strip_prefix (list_ascii_of_string "ull") t' with
            | Some r => POk (JNull, r)
            | None => PErr
            end
          else if Ascii.eqb c "t" then
            match strip_prefix (list_ascii_of_string "rue") t' with
            | Some r => POk (JBool true, r)
            | None => PErr
            end
          else if Ascii.eqb c "f" then
            match strip_prefix (list_ascii_of_string "alse") t' with
            | Some r => POk (JBool false, r)
            | None => PErr
            end
          else if Ascii.eqb c "-" then scan_number true t'
          else if starts_with "NaN" t || starts_with "Infinity" t
          then PUnsupported
          else scan_number false t
      end
  end

(** the items of an array, from the first character of an item on *)
with parse_elements (fuel : nat) (t : list ascii) (acc : list json)
    {struct fuel} : presult (json * list ascii) :=
  match fuel with
  | O => PUnsupported
  | S fuel' =>
      match parse_value fuel' t with
      | POk (x, r) =>
          match skip_ws r with
          | c :: r' =>
              if Ascii.eqb c "]" then POk (JList (rev (x :: acc)), r')
              else if Ascii.eqb c "," then
                parse_elements fuel' (skip_ws r') (x :: acc)
              else PErr
          | [] => PErr
          end
      | PErr => PErr
      | PUnsupported => PUnsupported
      end
  end

(** the members of an object, after the quotation mark that opens a key *)
with parse_members (fuel : nat) (t : list ascii) (acc : list (string * json))
    {struct fuel} : presult (json * list ascii) :=
  match fuel with
  | O => PUnsupported
  | S fuel' =>
      match scan_string t [] with
      | POk (k, r) =>
          match skip_ws r with
          | c :: r1 =>
              if Ascii.eqb c ":" then
                match parse_value fuel' (skip_ws r1) with
                | POk (x, r2) =>
                    match skip_ws r2 with
                    | c2 :: r3 =>
                        if Ascii.eqb c2 "}" then
                          POk (JDict (dict_of_pairs (rev ((k, x) :: acc))), r3)
                        else if Ascii.eqb c2 "," then
                          match skip_ws r3 with
                          | c3 :: r4 =>
                              if Ascii.eqb c3 dquote
                              then parse_members fuel' r4 ((k, x) :: acc)
                              else PErr
                          | [] => PErr
                          end
                        else PErr
                    | [] => PErr
                    end
                | PErr => PErr
                | PUnsupported => PUnsupported
                end
              else PErr
          | [] => PErr
          end
      | PErr => PErr
      | PUnsupported => PUnsupported
      end
  end.

(** [json.loads] of a [str]: optional white space, one value, optional
    white space, and nothing else. *)
Definition json_loads (t : list ascii) : presult json :=
  let t0 := skip_ws t in
  match parse_value (S (length t0)) t0 with
  | POk (x, r) =>
      match skip_ws r with
      | [] => POk x
      | _ :: _ => PErr
      end
  | PErr => PErr
  | PUnsupported => PUnsupported
  end.

(** The text of received bytes, for plain ASCII bytes; [json.loads] guesses
    another encoding from zero bytes, and bytes above 127 form multi-byte
    sequences. *)
Definition decode_ascii (data : bytes) : option (list ascii) :=
  if forallb (fun x => let n := Byte.to_N x in (0 <? n)%N && (n <? 128)%N) data
  then Some (map ascii_of_byte data)
  else None.

(** [json.load(io.BytesIO(data))] *)
Definition json_load (data : bytes) : presult json :=
  match decode_ascii data with
  | Some t => json_loads t
  | None => PUnsupported
  end.

(** ** Exceptions and coroutine results *)

(** The exceptions that leave a call in the model; [ListenerError] is
    whatever the code of a listener raises. *)
Inductive exn : Type :=
| RuntimeError | SerialException | CancelledError | TimeoutError
| TypeError | AttributeError | ValueError | ListenerError.

(** [Pending]: the run is not followed further, because the coroutine is
    still suspended when the description of the event loop ends, or because
    a received line gives a value that the model does not cover. *)
Inductive res (A : Type) : Type :=
| Ret (a : A)
| Raise (e : exn)
| Pending.
Arguments Ret {A} a.
Arguments Raise {A} e.
Arguments Pending {A}.

(** What the event loop did while a coroutine was suspended in
    [asyncio.sleep(0.0)]: it resumed the coroutine, possibly after another
    task had cleared the transport handle, or it cancelled the task. *)
Inductive sleep_ev : Type := Resumed | ResumedHandleCleared | SleepCancelled.

(** ** Listeners *)

(** Listener objects are named by their position in the object store. *)
Abbreviation lid := nat (only parsing).

Inductive outcome : Type := Completes | Fails.

(** The two calls by which any task changes the registry. *)
Inductive reg_op : Type :=
| OpAdd (event : string) (x : lid)
| OpRemove (event : string) (x : lid).

Definition op_event (o : reg_op) : string :=
  match o with OpAdd e _ | OpRemove e _ => e end.

Definition op_lid (o : reg_op) : lid :=
  match o with OpAdd _ x | OpRemove _ x => x end.

(** [add_listener] accepts any object with callable [callback] and [cancel].
    A method of such an object is either a plain function, which may call
    back into the registry before it returns [None] or raises, or an
    [async def], whose call only builds a coroutine; the body runs when the
    coroutine is awaited. *)
Inductive method : Type :=
| Plain (ops : list reg_op) (r : outcome)
| Coroutine (r : outcome).

(** The [__bgt] set of a listener: empty, or holding the task on which a
    consumer waits. A task that is over has left the set, through its
    done callback, before anything else runs. *)
Inductive wait_task : Type := NoTask | TaskPending.

(** The objects that [add_listener] accepts: the two classes of the module
    with their fields, and any other object with the two methods, which
    records the messages and the cancellations it gets. *)
Inductive listener : Type :=
| ResultEventListener (ev : bool) (ret : option json) (bgt : wait_task)
| ResultQueueListener (ev : bool) (res_ : list json) (bgt : wait_task)
    (canceled : bool)
| Duck (callback cancel : method) (got : list json) (cancelled : nat).

(** ** The transport and the protocol object *)

(** The calls made on the serial port. *)
Inductive io_event : Type :=
| IoOpen (port : string) (baudrate : Z)
| IoWrite (data : list Byte.byte)
| IoClose.

(** A [serial.Serial] object and its [closed] attribute. *)
Record Serial : Type := { ser_port : string; ser_closed : bool }.

(** Where the task of the read loop can be suspended. *)
Inductive cancel_point : Type :=
| InFlushInput                  (* in the sleep of [flush_input] *)
| InReadUntil (buffer : bytes)  (* in the sleep of [read_until] *)
| AtLoopSleep.                  (* in the sleep that ends a turn of the loop *)

(** State of the task stored in [__lt]: created, suspended somewhere in
    [_listen], or over, with the exception that ended it if any. *)
Inductive task : Type :=
| TaskCreated
| TaskSuspended (p : cancel_point)
| TaskDone (e : option exn).

Record SerialProtocol : Type := {
  __s : option Serial;
  __v : json;
  __l : gmap string (gset lid);
  __lt : option task;
  objs : list listener;   (* listener objects, by identity *)
  dicts : list dict;      (* payload dictionaries, by identity *)
  wire : list io_event    (* calls made on the transport so far *)
}.

Definition set_s (x : option Serial) (st : SerialProtocol) :=
  {| __s := x; __v := __v st; __l := __l st; __lt := __lt st;
     objs := objs st; dicts := dicts st; wire := wire st |}.
Definition set_v (x : json) (st : SerialProtocol) :=
  {| __s := __s st; __v := x; __l := __l st; __lt := __lt st;
     objs := objs st; dicts := dicts st; wire := wire st |}.
Definition set_l (x : gmap string (gset lid)) (st : SerialProtocol) :=
  {| __s := __s st; __v := __v st; __l := x; __lt := __lt st;
     objs := objs st; dicts := dicts st; wire := wire st |}.
Definition set_lt (x : option task) (st : SerialProtocol) :=
  {| __s := __s st; __v := __v st; __l := __l st; __lt := x;
     objs := objs st; dicts := dicts st; wire := wire st |}.
Definition set_objs (x : list listener) (st : SerialProtocol) :=
  {| __s := __s st; __v := __v st; __l := __l st; __lt := __lt st;
     objs := x; dicts := dicts st; wire := wire st |}.
Definition set_dicts (x : list dict) (st : SerialProtocol) :=
  {| __s := __s st; __v := __v st; __l := __l st; __lt := __lt st;
     objs := objs st; dicts := x; wire := wire st |}.
Definition log_io (e : io_event) (st : SerialProtocol) :=
  {| __s := __s st; __v := __v st; __l := __l st; __lt := __lt st;
     objs := objs st; dicts := dicts st; wire := wire st ++ [e] |}.

(** [SerialProtocol.__init__]; the two empty dictionaries are the default
    values of the [data] parameters of [request] and [request_with_result],
    built once when the class body is executed. *)
Definition request_default : nat := 0.
Definition request_with_result_default : nat := 1.

Definition init_state : SerialProtocol :=
  {| __s := None; __v := JInt 0; __l := ∅; __lt := None;
     objs := []; dicts := [[]; []]; wire := [] |}.

Definition version (st : SerialProtocol) : json := __v st.

(** ** The listener registry *)

(** The listeners registered for [event]; none when the key is absent. *)
Definition listeners_of (event : string) (st : SerialProtocol) : gset lid :=
  default ∅ (__l st !! event).

Definition add_listener (event : string) (x : lid) (st : SerialProtocol)
  : SerialProtocol :=
  let reg :=
    match __l st !! event with
    | None => <[event := ∅]> (__l st)
    | Some _ => __l st
    end in
  set_l (<[event := {[x]} ∪ default ∅ (reg !! event)]> reg) st.

Definition remove_listener (event : string) (x : lid) (st : SerialProtocol)
  : SerialProtocol :=
  match __l st !! event with
  | Some set_ => set_l (<[event := set_ ∖ {[x]}]> (__l st)) st
  | None => st
  end.

Definition run_op (o : reg_op) (st : SerialProtocol) : SerialProtocol :=
  match o with
  | OpAdd e x => add_listener e x st
  | OpRemove e x => remove_listener e x st
  end.

Definition run_ops (ops : list reg_op) (st : SerialProtocol) : SerialProtocol :=
  fold_left (fun acc o => run_op o acc) ops st.

(** ** Calling a listener *)

(** The effect on the listener object of its callback being run with
    [data], whichever way it is run. *)
Definition deliver (data : json) (o : listener) : listener :=
  match o with
  | ResultEventListener _ _ bgt => ResultEventListener true (Some data) bgt
  | ResultQueueListener _ q bgt c => ResultQueueListener true (q ++ [data]) bgt c
  | Duck cb cn got k => Duck cb cn (got ++ [data]) k
  end.

Definition update_obj (x : lid) (f : listener -> listener)
    (st : SerialProtocol) : SerialProtocol :=
  match objs st !! x with
  | Some o => set_objs (<[x := f o]> (objs st)) st
  | None => st
  end.

(** [result = listener.callback(data)]: [Ret true] when the result is
    awaitable. *)
Definition call_callback (x : lid) (data : json) (st : SerialProtocol)
  : res bool * SerialProtocol :=
  match objs st !! x with
  | Some (Duck (Plain ops r) _ _ _) =>
      let st' := run_ops ops (update_obj x (deliver data) st) in
      match r with
      | Completes => (Ret false, st')
      | Fails => (Raise ListenerError, st')
      end
  | Some (Duck (Coroutine _) _ _ _) => (Ret true, st)
  | Some _ => (Ret false, update_obj x (deliver data) st)
  | None => (Raise AttributeError, st)
  end.

(** What the event loop did while a coroutine was suspended in
    [asyncio.gather]: the children ran and other tasks changed the
    registry, or the waiting task was cancelled, before or after the
    children had run. *)
Inductive gather_ev : Type :=
| Gathered (others : list reg_op)
| GatherCancelled (children_ran : bool).

(** [for listener in listeners: ...] over the live set object, [call]
    being the method called on each listener. A set iterator compares the
    size of the set with the size it saw when it was created each time the
    next element is asked for, the last time included, and raises
    [RuntimeError] when they differ. The order of visit is that of
    [elements]; Python leaves it unspecified. After changes that leave the
    size as it was the loop goes on here with the elements it started
    with; no statement below rests on that case. *)
Fixpoint for_listeners
    (call : lid -> SerialProtocol -> res bool * SerialProtocol)
    (event : string) (used : nat)
    (todo : list lid) (tasks : list lid) (st : SerialProtocol)
  : res (list lid) * SerialProtocol :=
  if decide (size (listeners_of event st) = used) then
    match todo with
    | [] => (Ret tasks, st)
    | x :: todo' =>
        match call x st with
        | (Ret true, st') =>
            for_listeners call event used todo' (tasks ++ [x]) st'
        | (Ret false, st') => for_listeners call event used todo' tasks st'
        | (Raise e, st') => (Raise e, st')
        | (Pending, st') => (Pending, st')
        end
    end
  else (Raise RuntimeError, st).

(** The bodies of the collected coroutines; [return_exceptions=True] keeps
    their failures inside the result list. *)
Definition run_callbacks (tasks : list lid) (data : json)
    (st : SerialProtocol) : SerialProtocol :=
  fold_left (fun acc x => update_obj x (deliver data) acc) tasks st.

Definition trigger_listener (event : string) (data : json) (g : gather_ev)
    (st : SerialProtocol) : res unit * SerialProtocol :=
  let collected :=
    match __l st !! event with
    | Some listeners =>
        for_listeners (fun x => call_callback x data) event
          (size listeners) (elements listeners) [] st
    | None => (Ret [], st)
    end in
  match collected with
  | (Ret [], st') => (Ret tt, st')   (* gather() of nothing is already done *)
  | (Ret tasks, st') =>
      match g with
      | Gathered others =>
          (Ret tt, run_ops others (run_callbacks tasks data st'))
      | GatherCancelled true =>
          (Raise CancelledError, run_callbacks tasks data st')
      | GatherCancelled false => (Raise CancelledError, st')
      end
  | (Raise e, st') => (Raise e, st')
  | (Pending, st') => (Pending, st')
  end.

(** ** Writing and reading on the transport *)

(** One call of [self.__s.write(chunk)] and the [asyncio.sleep(0.0)] after
    it: the driver took the first [n] bytes of the chunk (all of it when
    the chunk is shorter) and returned their number, or it raised, or it
    took them and the task was cancelled while it slept. *)
Inductive write_ev : Type :=
| Wrote (n : nat)
| WriteFails
| WroteCancelled (n : nat).

(** The loop of [write]; chunks are at most 128 bytes long. *)
Fixpoint write_loop (view : bytes) (pointer : nat) (ws : list write_ev)
    (st : SerialProtocol) : res unit * SerialProtocol :=
  if (pointer <? length view)%nat then
    match __s st with
    | None => (Raise AttributeError, st)
    | Some _ =>
        let chunk := take 128 (drop pointer view) in
        match ws with
        | [] => (Pending, st)
        | Wrote n :: ws' =>
            let taken := take n chunk in
            write_loop view (pointer + length taken) ws'
              (log_io (IoWrite taken) st)
        | WriteFails :: _ => (Raise SerialException, st)
        | WroteCancelled n :: _ =>
            (Raise CancelledError, log_io (IoWrite (take n chunk)) st)
        end
    end
  else (Ret tt, st).

(** [write(data)] for [bytes]; the lock only keeps the chunks of two
    writers apart and is left out. *)
Definition write (data : bytes) (ws : list write_ev) (st : SerialProtocol)
  : res unit * SerialProtocol :=
  write_loop data 0 ws st.

(** [write(data)] for a [str]. *)
Definition write_str (data : string) (ws : list write_ev)
    (st : SerialProtocol) : res unit * SerialProtocol :=
  write (utf8_encode data) ws st.

(** One turn of the loop of [read_until]: what [self.__s.read(1)] gave,
    what [time.time()] then showed, and what happened in the sleep that
    follows when the loop goes on. Times are in milliseconds. *)
Inductive read_ev : Type := ReadBytes (data : bytes) | ReadFails.

Record poll : Type := { p_read : read_ev; p_now : Z; p_sleep : sleep_ev }.

(** [isinstance(timeout, (int, float)) and (now_sec - before_sec > timeout)] *)
Definition timed_out (timeout : option Z) (before_sec now_sec : Z) : bool :=
  match timeout with
  | Some t => (t <? now_sec - before_sec)%Z
  | None => false
  end.

Fixpoint read_until_loop (end_ : bytes) (timeout : option Z) (before_sec : Z)
    (buffer : bytes) (polls : list poll) (st : SerialProtocol)
  : res (option bytes) * SerialProtocol :=
  match __s st with
  | None => (Ret None, st)   (* the loop ends and the function returns None *)
  | Some _ =>
      match polls with
      | [] => (Pending, st)
      | p :: polls' =>
          match p_read p with
          | ReadFails => (Raise SerialException, st)
          | ReadBytes data =>
              let buffer := buffer ++ data in
              if endswith buffer end_ || timed_out timeout before_sec (p_now p)
              then (Ret (Some buffer), st)
              else
                match p_sleep p with
                | Resumed =>
                    read_until_loop end_ timeout before_sec buffer polls' st
                | ResumedHandleCleared =>
                    read_until_loop end_ timeout before_sec buffer polls'
                      (set_s None st)
                | SleepCancelled => (Raise CancelledError, st)
                end
          end
      end
  end.

(** [read_until(end, timeout)]; [before_sec] is what [time.time()] shows
    when the call starts. *)
Definition read_until (end_ : bytes) (timeout : option Z) (before_sec : Z)
    (polls : list poll) (st : SerialProtocol)
  : res (option bytes) * SerialProtocol :=
  read_until_loop end_ timeout before_sec [] polls st.

(** The default delimiter [b"\n"]. *)
Definition newline : bytes := [byte_of_ascii LF].

(** [flush_input]: [first] is the first value of [in_waiting], and each
    further turn gives the next value and the outcome of the sleep;
    [None] is a transport error. *)
Fixpoint flush_loop (n : option nat) (turns : list (option nat * sleep_ev))
    (st : SerialProtocol) : res unit * SerialProtocol :=
  match n with
  | None => (Raise SerialException, st)
  | Some O => (Ret tt, st)
  | Some (S _) =>
      match __s st with
      | None => (Raise AttributeError, st)
      | Some _ =>
          match turns with
          | [] => (Pending, st)
          | (n', sl) :: turns' =>
              match n', sl with
              | None, _ => (Raise SerialException, st)
              | Some _, SleepCancelled => (Raise CancelledError, st)
              | Some _, ResumedHandleCleared =>
                  flush_loop n' turns' (set_s None st)
              | Some _, Resumed => flush_loop n' turns' st
              end
          end
      end
  end.

Definition flush_input (first : option nat)
    (turns : list (option nat * sleep_ev)) (st : SerialProtocol)
  : res unit * SerialProtocol :=
  match __s st with
  | None => (Raise AttributeError, st)   (* [self.__s.in_waiting] *)
  | Some _ => flush_loop first turns st
  end.

(** ** Cancelling the listeners *)

(** The effect of the body of [cancel] on the listener object. The task
    of a consumer that waits is cancelled and awaited: when [cancel]
    returns the task is over and [__bgt] is empty, and the consumer has
    been made runnable with [CancelledError]; a consumer that the model
    follows finds its task gone when it is resumed, what another consumer
    then does to the registry is among the calls of the other tasks during
    the [gather]. A queueing listener is marked as well, a duck-typed one
    counts the call. *)
Definition cancel_task (t : wait_task) : wait_task :=
  match t with
  | TaskPending => NoTask
  | NoTask => NoTask
  end.

Definition cancel_body (o : listener) : listener :=
  match o with
  | ResultEventListener ev ret bgt => ResultEventListener ev ret (cancel_task bgt)
  | ResultQueueListener ev q bgt _ => ResultQueueListener ev q (cancel_task bgt) true
  | Duck cb cn got k => Duck cb cn got (S k)
  end.

(** [result = listener.cancel()]; both listener classes of the module
    declare [cancel] with [async def]. *)
Definition call_cancel (x : lid) (st : SerialProtocol)
  : res bool * SerialProtocol :=
  match objs st !! x with
  | Some (Duck _ (Plain ops r) _ _) =>
      let st' := run_ops ops (update_obj x cancel_body st) in
      match r with
      | Completes => (Ret false, st')
      | Fails => (Raise ListenerError, st')
      end
  | Some _ => (Ret true, st)
  | None => (Raise AttributeError, st)
  end.

(** [for event in self.__l: ...]: a dictionary iterator checks the size of
    the dictionary in the same way as a set iterator does. *)
Fixpoint for_events (used : nat) (todo : list (string * gset lid))
    (tasks : list lid) (st : SerialProtocol)
  : res (list lid) * SerialProtocol :=
  if decide (size (__l st) = used) then
    match todo with
    | [] => (Ret tasks, st)
    | (event, _) :: todo' =>
        let listeners := listeners_of event st in
        match for_listeners call_cancel event
                (size listeners) (elements listeners) tasks st with
        | (Ret tasks', st') => for_events used todo' tasks' st'
        | (Raise e, st') => (Raise e, st')
        | (Pending, st') => (Pending, st')
        end
    end
  else (Raise RuntimeError, st).

Definition run_cancels (tasks : list lid) (st : SerialProtocol)
  : SerialProtocol :=
  fold_left (fun acc x => update_obj x cancel_body acc) tasks st.

Definition cancel_all_listener (g : gather_ev) (st : SerialProtocol)
  : res unit * SerialProtocol :=
  match for_events (size (__l st)) (map_to_list (__l st)) [] st with
  | (Ret [], st') => (Ret tt, st')
  | (Ret tasks, st') =>
      match g with
      | Gathered others => (Ret tt, run_ops others (run_cancels tasks st'))
      | GatherCancelled true => (Raise CancelledError, run_cancels tasks st')
      | GatherCancelled false => (Raise CancelledError, st')
      end
  | (Raise e, st') => (Raise e, st')
  | (Pending, st') => (Pending, st')
  end.

(** ** The read loop *)

Definition closed_message : json := JDict [("event", JStr "closed")].

(** What the two [gather] calls of [_clean_up] meet. *)
Record cleanup_ev : Type := { c_trigger : gather_ev; c_cancel : gather_ev }.

Definition _clean_up (c : cleanup_ev) (st : SerialProtocol)
  : res unit * SerialProtocol :=
  match trigger_listener "closed" closed_message (c_trigger c) st with
  | (Ret _, st1) =>
      match cancel_all_listener (c_cancel c) st1 with
      | (Ret _, st2) =>
          let st3 :=
            match __s st2 with
            | Some ser =>
                if negb (ser_closed ser) then set_s None (log_io IoClose st2)
                else st2
            | None => st2
            end in
          (Ret tt, set_v (JInt 0) (set_lt None st3))
      | (Raise e, st2) => (Raise e, st2)
      | (Pending, st2) => (Pending, st2)
      end
  | (Raise e, st1) => (Raise e, st1)
  | (Pending, st1) => (Pending, st1)
  end.

(** What [json.load] makes of a line that is outside the part of JSON
    that the model covers: it raises ([UnicodeDecodeError] for bytes that
    are no text, [JSONDecodeError] for what is no JSON; both are a
    [ValueError]), or it returns a value that has no counterpart here. *)
Inductive load_ev : Type := LoadRaises | LoadReturns.

(** One turn of the loop of [_listen]: the polls of its [read_until], the
    time at which that call starts, what [json.load] does where the model
    cannot tell, what the [gather] of the dispatch meets, and the outcome
    of the sleep at the end of the turn. *)
Record iteration : Type := {
  it_before : Z;
  it_polls : list poll;
  it_load : load_ev;
  it_dispatch : gather_ev;
  it_sleep : sleep_ev
}.

(** How the [try] statement in the loop ends. [Unmodelled]: the line
    gives a value that the model does not cover. *)
Inductive body_end : Type :=
| Continue      (* falls through to the sleep, after a handler or not *)
| Break
| Suspended     (* the description ends inside [read_until] *)
| Unmodelled.

(** [resp["event"]] and the dispatch; a value that is no dictionary, a
    missing key, an event that is no string: the handler of the bare
    [except] or an empty dispatch, and the loop goes on. *)
Definition dispatch_frame (resp : json) (g : gather_ev) (st : SerialProtocol)
  : body_end * SerialProtocol :=
  match resp with
  | JDict d =>
      match dict_get "event" d with
      | Some (JStr event) =>
          match trigger_listener event resp g st with
          | (Ret _, st') => (Continue, st')
          | (Raise CancelledError, st') => (Break, st')
          | (Raise SerialException, st') => (Break, st')
          | (Raise _, st') => (Continue, st')
          | (Pending, st') => (Suspended, st')
          end
      | _ => (Continue, st)
      end
  | _ => (Continue, st)
  end.

Definition listen_body (buffer : bytes) (it : iteration) (st : SerialProtocol)
  : body_end * SerialProtocol :=
  match read_until_loop newline None (it_before it) buffer (it_polls it) st with
  | (Ret (Some data), st1) =>
      match json_load data with
      | POk resp => dispatch_frame resp (it_dispatch it) st1
      | PErr => (Continue, st1)   (* a handler prints, the loop goes on *)
      | PUnsupported =>
          match it_load it with
          | LoadRaises => (Continue, st1)
          | LoadReturns => (Unmodelled, st1)
          end
      end
  | (Ret None, st1) => (Continue, st1)   (* json.load of no bytes fails *)
  | (Raise CancelledError, st1) => (Break, st1)
  | (Raise SerialException, st1) => (Break, st1)
  | (Raise _, st1) => (Continue, st1)
  | (Pending, st1) => (Suspended, st1)
  end.

(** State of the task object behind [__lt]. *)
Definition task_done (e : option exn) (st : SerialProtocol) : SerialProtocol :=
  match __lt st with
  | Some _ => set_lt (Some (TaskDone e)) st
  | None => st
  end.

(** How a turn of the loop leaves the coroutine. *)
Inductive turn : Type :=
| Again                      (* suspended no more, the next turn can start *)
| Finished (r : res unit).   (* the coroutine is over, or cannot go on *)

Definition finish (r : res unit * SerialProtocol) : res unit * SerialProtocol :=
  match r with
  | (Raise e, st) => (Raise e, task_done (Some e) st)
  | _ => r
  end.

Definition listen_turn (it : iteration) (c : cleanup_ev) (st : SerialProtocol)
  : turn * SerialProtocol :=
  match __s st with
  | None => let (r, st') := finish (_clean_up c st) in (Finished r, st')
  | Some _ =>
      match listen_body [] it st with
      | (Continue, st1) =>
          match it_sleep it with
          | Resumed => (Again, st1)
          | ResumedHandleCleared => (Again, set_s None st1)
          | SleepCancelled =>
              (Finished (Raise CancelledError),
               task_done (Some CancelledError) st1)
          end
      | (Break, st1) =>
          let (r, st') := finish (_clean_up c st1) in (Finished r, st')
      | (Suspended, st1) => (Finished Pending, st1)
      | (Unmodelled, st1) => (Finished Pending, st1)
      end
  end.

(** The [while] loop of [_listen] and the clean-up after it. *)
Fixpoint listen_loop (its : list iteration) (c : cleanup_ev)
    (st : SerialProtocol) : res unit * SerialProtocol :=
  match __s st with
  | None => finish (_clean_up c st)
  | Some _ =>
      match its with
      | [] => (Pending, st)
      | it :: its' =>
          match listen_turn it c st with
          | (Again, st') => listen_loop its' c st'
          | (Finished r, st') => (r, st')
          end
      end
  end.

(** What the whole task meets: the values of [in_waiting] while the input
    is flushed, the turns of the loop, the [gather] calls of the
    clean-up. *)
Record listen_ev : Type := {
  le_first : option nat;
  le_flush : list (option nat * sleep_ev);
  le_turns : list iteration;
  le_cleanup : cleanup_ev
}.

Definition _listen (w : listen_ev) (st : SerialProtocol)
  : res unit * SerialProtocol :=
  match flush_input (le_first w) (le_flush w) st with
  | (Ret _, st1) => listen_loop (le_turns w) (le_cleanup w) st1
  | (Raise e, st1) => (Raise e, task_done (Some e) st1)
  | (Pending, st1) => (Pending, st1)
  end.

(** ** Requests *)

(** [request(event, data)]: [data] is the identity of the dictionary that
    the caller passes, [None] when the argument is omitted; the two
    [write] calls have their own write events. *)
Definition request (event : string) (data : option nat)
    (w1 w2 : list write_ev) (st : SerialProtocol)
  : res unit * SerialProtocol :=
  let a := default request_default data in
  match dicts st !! a with
  | None => (Raise TypeError, st)
  | Some d =>
      let d' := dict_set "event" (JStr event) d in
      let st1 := set_dicts (<[a := d']> (dicts st)) st in
      match json_dumps (JDict d') with
      | None => (Raise ValueError, st1)
      | Some text =>
          match write_str text w1 st1 with
          | (Ret _, st2) => write_str (String CR (String LF "")) w2 st2
          | (r, st2) => (r, st2)
          end
      end
  end.

(** What the event loop does while [ResultEventListener.wait] is
    suspended: the task of the read loop starts or makes one turn, other
    tasks change the registry, the deadline of [wait_for] passes, or the
    waiting task is cancelled. *)
Inductive wait_ev : Type :=
| ListenStarts (first : option nat) (flush : list (option nat * sleep_ev))
| ListenTurn (it : iteration) (c : cleanup_ev)
| Others (ops : list reg_op)
| TimerFires   (* the waiting task is resumed with [TimeoutError] *)
| Cancel.

(** The bytes that the polls of a turn bring. *)
Definition polled (polls : list poll) : bytes :=
  concat (map (fun p => match p_read p with
                        | ReadBytes data => data
                        | ReadFails => []
                        end) polls).

(** The read-loop task runs from one suspension to a later one. Started,
    it flushes the input and enters [read_until]. *)
Definition listen_starts (first : option nat)
    (flush : list (option nat * sleep_ev)) (st : SerialProtocol)
  : SerialProtocol :=
  match __lt st with
  | Some TaskCreated =>
      match flush_input first flush st with
      | (Ret _, st1) => set_lt (Some (TaskSuspended (InReadUntil []))) st1
      | (Raise e, st1) => task_done (Some e) st1
      | (Pending, st1) => set_lt (Some (TaskSuspended InFlushInput)) st1
      end
  | _ => st
  end.

(** Resumed from the sleep at the end of a turn, or inside [read_until],
    the task goes on to the sleep that ends the turn, unless the polls end
    first or the loop is left. *)
Definition listen_reads (buffer : bytes) (it : iteration) (c : cleanup_ev)
    (st : SerialProtocol) : SerialProtocol :=
  match listen_body buffer it st with
  | (Continue, st1) => set_lt (Some (TaskSuspended AtLoopSleep)) st1
  | (Break, st1) => snd (finish (_clean_up c st1))
  | (Suspended, st1) =>
      set_lt (Some (TaskSuspended (InReadUntil (buffer ++ polled (it_polls it)))))
             st1
  | (Unmodelled, st1) => st1
  end.

Definition listen_runs (it : iteration) (c : cleanup_ev) (st : SerialProtocol)
  : SerialProtocol :=
  match __lt st with
  | Some (TaskSuspended AtLoopSleep) =>
      match __s st with
      | None => snd (finish (_clean_up c st))
      | Some _ => listen_reads [] it c st
      end
  | Some (TaskSuspended (InReadUntil buffer)) => listen_reads buffer it c st
  | _ => st
  end.

Definition set_bgt (t : wait_task) (o : listener) : listener :=
  match o with
  | ResultEventListener ev ret _ => ResultEventListener ev ret t
  | ResultQueueListener ev q _ c => ResultQueueListener ev q t c
  | Duck _ _ _ _ => o
  end.

(** [self.__ev.clear()], the task being over and out of [__bgt]. *)
Definition end_wait (o : listener) : listener :=
  match o with
  | ResultEventListener _ ret _ => ResultEventListener false ret NoTask
  | _ => o
  end.

(** [wait_for] does not look at the event when the timeout it is given
    is not positive: it cancels the wait and raises [TimeoutError]. *)
Definition expired (timeout : option Z) : bool :=
  match timeout with
  | Some t => (t <=? 0)%Z
  | None => false
  end.

(** A task woken by a dispatch of the read loop runs some iterations of
    the event loop later, and the read loop, which sleeps once at the end
    of its turn, is resumed before it: when the woken task runs, the read
    loop is in [read_until] again, its first polls having brought nothing.
    (A loop that finds its handle cleared is left where it is; its next
    step tells its clean-up.) *)
Definition loop_goes_on (st : SerialProtocol) : SerialProtocol :=
  match __lt st, __s st with
  | Some (TaskSuspended AtLoopSleep), Some _ =>
      set_lt (Some (TaskSuspended (InReadUntil []))) st
  | _, _ => st
  end.

(** [await task; self.__ev.clear(); return self.__ret], the task being
    [wait_for(self.__ev.wait(), timeout)]. The consumer finds the task
    gone when [cancel] has cancelled it; it is resumed with the message
    once the event is set, unless the timeout was not positive; until
    then the other tasks run. *)
Fixpoint wait_loop (x : lid) (timeout : option Z) (script : list wait_ev)
    (st : SerialProtocol) : res (option json) * SerialProtocol :=
  match objs st !! x with
  | Some (ResultEventListener _ _ NoTask) => (Raise CancelledError, st)
  | Some (ResultEventListener ev ret TaskPending) =>
      if ev && negb (expired timeout) then
        (Ret ret, update_obj x end_wait (loop_goes_on st))
      else
        match script with
        | [] => (Pending, st)
        | ListenStarts first flush :: script' =>
            wait_loop x timeout script' (listen_starts first flush st)
        | ListenTurn it c :: script' =>
            wait_loop x timeout script' (listen_runs it c st)
        | Others ops :: script' => wait_loop x timeout script' (run_ops ops st)
        | TimerFires :: script' =>
            match timeout with
            | Some _ => (Raise TimeoutError, update_obj x (set_bgt NoTask) st)
            | None => wait_loop x timeout script' st
            end
        | Cancel :: _ => (Raise CancelledError, update_obj x (set_bgt NoTask) st)
        end
  | _ => (Raise AttributeError, st)
  end.

(** [ResultEventListener.wait(timeout)] *)
Definition wait (x : lid) (timeout : option Z) (script : list wait_ev)
    (st : SerialProtocol) : res (option json) * SerialProtocol :=
  wait_loop x timeout script (update_obj x (set_bgt TaskPending) st).

(** The [try] block of [request_with_result]. *)
Definition send_and_wait (event : string) (data : nat) (listener_ : lid)
    (timeout : option Z) (w1 w2 : list write_ev) (script : list wait_ev)
    (st : SerialProtocol) : res (option json) * SerialProtocol :=
  match request event (Some data) w1 w2 st with
  | (Ret _, st') => wait listener_ timeout script st'
  | (Raise e, st') => (Raise e, st')
  | (Pending, st') => (Pending, st')
  end.

(** Where [request_with_result] stands when its [try] block starts: the
    new listener is the next object of the store, registered under the
    name of the reply. *)
Definition with_listener (event : string) (st : SerialProtocol)
  : SerialProtocol :=
  add_listener (String.append event "_return") (length (objs st))
    (set_objs (objs st ++ [ResultEventListener false None NoTask]) st).

(** [request_with_result(event, data, timeout)]; the [finally] clause runs
    when the [try] block is left. *)
Definition request_with_result (event : string) (data : option nat)
    (timeout : option Z) (w1 w2 : list write_ev) (script : list wait_ev)
    (st : SerialProtocol) : res (option json) * SerialProtocol :=
  let listener_ := length (objs st) in
  let return_event_name := String.append event "_return" in
  match send_and_wait event (default request_with_result_default data)
          listener_ timeout w1 w2 script (with_listener event st) with
  | (Pending, st') => (Pending, st')
  | (r, st') => (r, remove_listener return_event_name listener_ st')
  end.

(** ** Opening and closing *)

(** The [try] statement of the loop covers [read_until] and the dispatch
    only. *)
Definition inside_try (p : cancel_point) : bool :=
  match p with
  | InReadUntil _ => true
  | InFlushInput | AtLoopSleep => false
  end.

(** [close()]: the task gets [CancelledError] where it is suspended; a
    task that is over hands back the exception that ended it. *)
Definition close (c : cleanup_ev) (st : SerialProtocol)
  : res unit * SerialProtocol :=
  match __lt st with
  | None => (Ret tt, st)
  | Some TaskCreated => (Ret tt, task_done (Some CancelledError) st)
  | Some (TaskSuspended p) =>
      if inside_try p then
        match finish (_clean_up c st) with
        | (Raise CancelledError, st') => (Ret tt, st')
        | r => r
        end
      else (Ret tt, task_done (Some CancelledError) st)
  | Some (TaskDone (Some CancelledError)) => (Ret tt, st)
  | Some (TaskDone (Some e)) => (Raise e, st)
  | Some (TaskDone None) => (Ret tt, st)
  end.

(** The timeout of the handshake, 0.25 s. *)
Definition handshake_timeout : Z := 250.

(** What an attempt on one port meets. *)
Inductive open_ev : Type := Opened (ser : Serial) | OpenFails.

Record init_ev : Type := {
  i_open : open_ev;
  i_hello : list write_ev;          (* the write of the first line end *)
  i_w1 : list write_ev;             (* the two writes of the request *)
  i_w2 : list write_ev;
  i_wait : list wait_ev;            (* while the reply is awaited *)
  i_cleanup : cleanup_ev            (* for [close] *)
}.

Definition _init (port : string) (baudrate : Z) (w : init_ev)
    (st : SerialProtocol) : res bool * SerialProtocol :=
  match i_open w with
  | OpenFails => (Ret false, st)
  | Opened ser =>
      let st1 := log_io (IoOpen port baudrate) (set_s (Some ser) st) in
      match write_str (String CR (String LF "")) (i_hello w) st1 with
      | (Ret _, st2) =>
          let st3 := set_lt (Some TaskCreated) st2 in
          let fresh := length (dicts st3) in
          let st4 := set_dicts (dicts st3 ++ [[]]) st3 in
          let on_failure st' :=
            match close (i_cleanup w) st' with
            | (Ret _, st'') => (Ret false, st'')
            | (Raise e, st'') => (Raise e, st'')
            | (Pending, st'') => (Pending, st'')
            end in
          match request_with_result "protocol_version" (Some fresh)
                  (Some handshake_timeout) (i_w1 w) (i_w2 w) (i_wait w) st4 with
          | (Ret (Some (JDict d)), st5) =>
              match dict_get "version" d with
              | Some ver => (Ret true, set_v ver st5)
              | None => on_failure st5
              end
          | (Ret _, st5) => on_failure st5
          | (Raise _, st5) => on_failure st5
          | (Pending, st5) => (Pending, st5)
          end
      | (Raise e, st2) => (Raise e, st2)
      | (Pending, st2) => (Pending, st2)
      end
  end.

(** [init(port, baudrate)]: [ports] is what [comports(False)] lists, each
    with what the attempt on it meets. *)
Fixpoint try_ports (ports : list (string * init_ev)) (baudrate : Z)
    (st : SerialProtocol) : res bool * SerialProtocol :=
  match ports with
  | [] => (Ret false, st)
  | (device, w) :: ports' =>
      match _init device baudrate w st with
      | (Ret true, st') => (Ret true, st')
      | (Ret false, st') => try_ports ports' baudrate st'
      | r => r
      end
  end.

Definition init (port : string) (baudrate : Z)
    (ports : list (string * init_ev)) (w : init_ev) (st : SerialProtocol)
  : res bool * SerialProtocol :=
  if String.eqb port "" then try_ports ports baudrate st
  else _init port baudrate w st.

(** ** The layers above the protocol *)

(** What [event_iter], the methods of [SerialDevice] and the menu of
    main.py can raise: the exceptions of the protocol layer and four
    more. *)
Inductive error : Type :=
| Exn (e : exn)
| StopAsyncIteration | IndexError | KeyError | AssertionError.

(** As [res], with these exceptions; [Suspends] as [Pending]. *)
Inductive result (A : Type) : Type :=
| Returns (a : A)
| Raises (e : error)
| Suspends.
Arguments Returns {A} a.
Arguments Raises {A} e.
Arguments Suspends {A}.

(** ** The queueing listener *)

(** [self.__res.popleft()] *)
Definition pop (o : listener) : listener :=
  match o with
  | ResultQueueListener ev (_ :: q) bgt c => ResultQueueListener ev q bgt c
  | _ => o
  end.

Definition popleft (x : lid) (st : SerialProtocol)
  : result json * SerialProtocol :=
  match objs st !! x with
  | Some (ResultQueueListener _ (data :: _) _ _) =>
      (Returns data, update_obj x pop st)
  | Some (ResultQueueListener _ [] _ _) => (Raises IndexError, st)
  | _ => (Raises (Exn AttributeError), st)
  end.

(** [self.__ev.clear()], the task being over and out of [__bgt]. *)
Definition end_wait_queue (o : listener) : listener :=
  match o with
  | ResultQueueListener _ q _ c => ResultQueueListener false q NoTask c
  | _ => o
  end.

(** [await task] in [__anext__], the task being [self.__ev.wait()], and
    what follows it. Everything that [script] describes happens while the
    consumer is suspended; it is then resumed if the event is set. A
    cancellation of the task, by [cancel] or with the consumer, ends the
    iteration. *)
Fixpoint anext_wait (x : lid) (script : list wait_ev) (st : SerialProtocol)
  : result json * SerialProtocol :=
  match objs st !! x with
  | Some (ResultQueueListener _ _ NoTask _) => (Raises StopAsyncIteration, st)
  | Some (ResultQueueListener ev _ TaskPending _) =>
      match script with
      | [] =>
          if ev then popleft x (update_obj x end_wait_queue st)
          else (Suspends, st)
      | ListenStarts first flush :: script' =>
          anext_wait x script' (listen_starts first flush st)
      | ListenTurn it c :: script' =>
          anext_wait x script' (listen_runs it c st)
      | Others ops :: script' => anext_wait x script' (run_ops ops st)
      | TimerFires :: script' => anext_wait x script' st
      | Cancel :: _ =>
          (Raises StopAsyncIteration, update_obj x (set_bgt NoTask) st)
      end
  | _ => (Raises (Exn AttributeError), st)
  end.

(** [ResultQueueListener.__anext__], for one consumer; the lock keeps
    several consumers apart and is left out. *)
Definition anext (x : lid) (script : list wait_ev) (st : SerialProtocol)
  : result json * SerialProtocol :=
  match objs st !! x with
  | Some (ResultQueueListener _ q _ canceled) =>
      if canceled then (Raises StopAsyncIteration, st)
      else
        match q with
        | [] => anext_wait x script (update_obj x (set_bgt TaskPending) st)
        | _ :: _ => popleft x st
        end
  | _ => (Raises (Exn AttributeError), st)
  end.

(** Successive calls of [__anext__], one script for each. *)
Fixpoint anext_many (x : lid) (scripts : list (list wait_ev))
    (st : SerialProtocol) : list (result json) * SerialProtocol :=
  match scripts with
  | [] => ([], st)
  | script :: scripts' =>
      let (r, st1) := anext x script st in
      let (rs, st2) := anext_many x scripts' st1 in
      (r :: rs, st2)
  end.

(** The asynchronous generator that [event_iter(event)] returns. Calling
    the function runs nothing of its body: the listener is created and
    registered when the first item is asked for. *)
Inductive generator : Type :=
| GenCreated (event : string)
| GenSuspended (event : string) (x : lid)   (* the listener exists *)
| GenClosed.

Definition event_iter (event : string) : generator := GenCreated event.

(** One turn of [async for data in listener: yield data], with the
    [finally] clause when the loop is left. *)
Definition iterate (event : string) (x : lid) (script : list wait_ev)
    (st : SerialProtocol) : result json * generator * SerialProtocol :=
  match anext x script st with
  | (Returns data, st') => (Returns data, GenSuspended event x, st')
  | (Suspends, st') => (Suspends, GenSuspended event x, st')
  | (Raises e, st') => (Raises e, GenClosed, remove_listener event x st')
  end.

(** Where [event_iter] stands when its [try] block starts. *)
Definition with_queue (event : string) (st : SerialProtocol) : SerialProtocol :=
  add_listener event (length (objs st))
    (set_objs (objs st ++ [ResultQueueListener false [] NoTask false]) st).

(** [await gen.__anext__()] *)
Definition event_iter_next (g : generator) (script : list wait_ev)
    (st : SerialProtocol) : result json * generator * SerialProtocol :=
  match g with
  | GenCreated event =>
      iterate event (length (objs st)) script (with_queue event st)
  | GenSuspended event x => iterate event x script st
  | GenClosed => (Raises StopAsyncIteration, GenClosed, st)
  end.

(** [await gen.aclose()]: [GeneratorExit] is thrown at the [yield]. *)
Definition event_iter_aclose (g : generator) (st : SerialProtocol)
  : generator * SerialProtocol :=
  match g with
  | GenSuspended event x => (GenClosed, remove_listener event x st)
  | _ => (GenClosed, st)
  end.

(** ** [SerialDevice] *)

(** What one request of [SerialDevice] meets: the write events of its two
    [write] calls and what happens while the reply is awaited. *)
Record ask_ev : Type := {
  a_w1 : list write_ev;
  a_w2 : list write_ev;
  a_wait : list wait_ev
}.

Definition no_ask : ask_ev := {| a_w1 := []; a_w2 := []; a_wait := [] |}.

(** [data = await self.request_with_result(event, req)] and
    [return data["value"]], [req] being a new dictionary. *)
Definition ask (event : string) (req : dict) (a : ask_ev)
    (st : SerialProtocol) : result json * SerialProtocol :=
  let fresh := length (dicts st) in
  let st1 := set_dicts (dicts st ++ [req]) st in
  match request_with_result event (Some fresh) None
          (a_w1 a) (a_w2 a) (a_wait a) st1 with
  | (Ret (Some (JDict d)), st2) =>
      match dict_get "value" d with
      | Some value => (Returns value, st2)
      | None => (Raises KeyError, st2)
      end
  | (Ret _, st2) => (Raises (Exn TypeError), st2)
  | (Raise e, st2) => (Raises (Exn e), st2)
  | (Pending, st2) => (Suspends, st2)
  end.

Definition dialog (text title text_yes text_no : string) (a : ask_ev)
    (st : SerialProtocol) : result json * SerialProtocol :=
  ask "dialog"
    [("text", JStr text); ("title", JStr title);
     ("text_yes", JStr text_yes); ("text_no", JStr text_no)] a st.

Definition select_menu (text title : string) (options : list json)
    (text_yes text_no : string) (a : ask_ev) (st : SerialProtocol)
  : result json * SerialProtocol :=
  if (0 <? length options)%nat then
    ask "select_menu"
      [("text", JStr text); ("title", JStr title);
       ("options", JList options);
       ("text_yes", JStr text_yes); ("text_no", JStr text_no)] a st
  else (Raises AssertionError, st).

Definition select_list (title : string) (options : list json)
    (text_yes text_no : string) (a : ask_ev) (st : SerialProtocol)
  : result json * SerialProtocol :=
  if (0 <? length options)%nat then
    ask "select_list"
      [("title", JStr title); ("options", JList options);
       ("text_yes", JStr text_yes); ("text_no", JStr text_no)] a st
  else (Raises AssertionError, st).

Definition input_text (text title : string) (a : ask_ev)
    (st : SerialProtocol) : result json * SerialProtocol :=
  ask "input_text" [("text", JStr text); ("title", JStr title)] a st.

(** ** The paged menu of main.py *)

Definition PAGESIZE : nat := 5.

Definition more : json := JStr "= More =".

(** The integer that a comparison with [0] sees in a reply that is an
    [int] or a [bool]; [None] where Python raises [TypeError]. A [float]
    is compared as well, and [select] hands it back as it is, but it is no
    value of the model: the run on a reply that carries one is not
    followed ([LoadReturns]). *)
Definition as_int (x : json) : option Z :=
  match x with
  | JInt n => Some n
  | JBool true => Some 1%Z
  | JBool false => Some 0%Z
  | _ => None
  end.

(** The [while True] loop of [select]; each turn asks the device once. *)
Fixpoint select_loop (title : string) (options : list json) (offset : nat)
    (asks : list ask_ev) (st : SerialProtocol)
  : result json * SerialProtocol :=
  match asks with
  | [] => (Suspends, st)
  | a :: asks' =>
      let offset := if (length options <=? offset)%nat then 0 else offset in
      let opt := take PAGESIZE (drop offset options) ++ [more] in
      match select_list title opt "OK" "CANCEL" a st with
      | (Returns sel, st') =>
          match as_int sel with
          | None => (Raises (Exn TypeError), st')
          | Some n =>
              if (n <? 0)%Z then
                (Returns (JInt (if (- Z.of_nat PAGESIZE <? n)%Z
                                then n - Z.of_nat offset
                                else - Z.of_nat offset - 1)), st')
              else if (Z.of_nat (length opt) - 1 <=? n)%Z then
                select_loop title options (offset + PAGESIZE) asks' st'
              else (Returns (JInt (n + Z.of_nat offset)), st')
          end
      | (r, st') => (r, st')
      end
  end.

(** [select(device, title, options)], [device] being a [SerialDevice]. *)
Definition select (title : string) (options : list json)
    (asks : list ask_ev) (st : SerialProtocol)
  : result json * SerialProtocol :=
  if (length options <=? PAGESIZE + 1)%nat then
    select_list title options "OK" "CANCEL" (hd no_ask asks) st
  else select_loop title options 0 asks st.

(** * Conditions used in the statements *)

(** ** Callbacks *)

Definition is_coroutine (o : listener) : bool :=
  match o with
  | Duck (Coroutine _) _ _ _ => true
  | _ => false
  end.

(** A callback that neither raises nor calls [add_listener] or
    [remove_listener] for [event]. Those of the two listener classes of the
    module are of this kind for every event. *)
Definition quiet (event : string) (o : listener) : Prop :=
  match o with
  | Duck (Plain ops r) _ _ _ =>
      r = Completes /\ Forall (fun op => op_event op ≠ event) ops
  | _ => True
  end.

(** ** Who can change the registry *)

(** The registry calls written in the methods of a listener. *)
Definition method_ops (m : method) : list reg_op :=
  match m with
  | Plain ops _ => ops
  | Coroutine _ => []
  end.

Definition obj_ops (o : listener) : list reg_op :=
  match o with
  | Duck cb cn _ _ => method_ops cb ++ method_ops cn
  | _ => []
  end.

(** The registry calls that the other tasks make, in each description of
    the event loop. *)
Definition gather_ops (g : gather_ev) : list reg_op :=
  match g with
  | Gathered others => others
  | GatherCancelled _ => []
  end.

Definition cleanup_ops (c : cleanup_ev) : list reg_op :=
  gather_ops (c_trigger c) ++ gather_ops (c_cancel c).

Definition wait_ev_ops (e : wait_ev) : list reg_op :=
  match e with
  | ListenTurn it c => gather_ops (it_dispatch it) ++ cleanup_ops c
  | Others ops => ops
  | _ => []
  end.

Definition script_ops (script : list wait_ev) : list reg_op :=
  concat (map wait_ev_ops script).

(** ** A new listener *)

(** No set of the registry holds [x], and neither the methods of the
    objects that exist nor the other tasks, as [script] describes them,
    name it: the condition of an object that was just created. *)
Definition unknown (x : lid) (script : list wait_ev) (st : SerialProtocol)
  : Prop :=
  (forall e, x ∉ listeners_of e st)
  /\ (forall y o, objs st !! y = Some o ->
        Forall (fun op => op_lid op ≠ x) (obj_ops o))
  /\ Forall (fun op => op_lid op ≠ x) (script_ops script).

(** The property that [request_with_result] relies on: apart from the set
    of [ret], the name of the reply, no set holds the listener [x] and
    nothing that runs names it. *)
Definition apart (x : lid) (ret : string) (st : SerialProtocol) : Prop :=
  (forall e, e ≠ ret -> x ∉ listeners_of e st)
  /\ (forall y o, objs st !! y = Some o ->
        Forall (fun op => op_lid op ≠ x) (obj_ops o)).

(** ** The polls of [read_until] *)

(** After poll [p] the loop of [read_until] goes on: the read gives
    [data], the buffer then does not end with the delimiter, and the
    timeout, if there is one, has not elapsed since the call started. *)
Definition goes_on (end_ : bytes) (timeout : option Z) (before_sec : Z)
    (buffer : bytes) (p : poll) : bool :=
  match p_read p with
  | ReadBytes data =>
      negb (endswith (buffer ++ data) end_
            || timed_out timeout before_sec (p_now p))
  | ReadFails => false
  end.

(** The loop goes on after each of these polls, and each sleep ends with
    the coroutine resumed and the handle in place. *)
Fixpoint polls_on (end_ : bytes) (timeout : option Z) (before_sec : Z)
    (buffer : bytes) (polls : list poll) : bool :=
  match polls with
  | [] => true
  | p :: polls' =>
      goes_on end_ timeout before_sec buffer p
      && match p_sleep p with Resumed => true | _ => false end
      && polls_on end_ timeout before_sec (buffer ++ polled [p]) polls'
  end.

(** ** The clean-up *)

(** A listener whose callback makes no registry call and does not raise in
    the call itself, and whose [cancel] is declared with [async def]. The
    two listener classes of the module are of this kind. *)
Definition calm (o : listener) : Prop :=
  match o with
  | Duck cb cn _ _ =>
      match cb with
      | Plain ops r => ops = [] /\ r = Completes
      | Coroutine _ => True
      end
      /\ match cn with
         | Plain _ _ => False
         | Coroutine _ => True
         end
  | _ => True
  end.

(** Every object of the store is calm and every registered listener is an
    object of the store. *)
Definition all_calm (st : SerialProtocol) : Prop :=
  (forall x o, objs st !! x = Some o -> calm o)
  /\ (forall e x, x ∈ listeners_of e st -> is_Some (objs st !! x)).

(** The registry is [L] and no method of an object calls the registry. *)
Definition registry_is (L : gmap string (gset lid)) (st : SerialProtocol)
  : Prop :=
  __l st = L /\ forall x o, objs st !! x = Some o -> obj_ops o = [].

(** The fields that no listener and no registry call can reach. *)
Definition link_is (st0 st : SerialProtocol) : Prop :=
  __s st = __s st0 /\ __v st = __v st0 /\ __lt st = __lt st0
  /\ wire st = wire st0 /\ dicts st = dicts st0.

(** The registrations, one entry for each listener of each event. *)
Definition registered (st : SerialProtocol) : list lid :=
  concat (map (fun es => elements (snd es)) (map_to_list (__l st))).

(** The number of events under which [x] is registered. *)
Definition registrations (x : lid) (st : SerialProtocol) : nat :=
  length (filter (fun y => y = x) (registered st)).

(** The listeners of [event] whose [callback] is an [async def]: calling
    them gives the coroutines that the dispatch awaits. *)
Definition awaited (event : string) (st : SerialProtocol) : list lid :=
  List.filter
    (fun x => match objs st !! x with
              | Some o => is_coroutine o
              | None => false
              end)
    (elements (listeners_of event st)).

(** The registry calls that the other tasks make during a [gather]: the
    calls [others] of its description when something was collected to
    wait for, none otherwise, a [gather()] of nothing being over at
    once. Among them are the calls of the consumers that a [cancel] has
    resumed. *)
Definition during (tasks : list lid) (others : list reg_op) : list reg_op :=
  match tasks with
  | [] => []
  | _ :: _ => others
  end.

(** A registry call that names an object of the store. *)
Definition known (st : SerialProtocol) (op : reg_op) : Prop :=
  is_Some (objs st !! op_lid op).

(** A [callback], a [cancel] that neither raises nor calls the registry:
    an [async def], whatever becomes of its coroutine, or a plain function
    that returns. Those of the two listener classes of the module are of
    this kind. *)
Definition callback_calm (o : listener) : Prop :=
  match o with
  | Duck (Plain ops r) _ _ _ => ops = [] /\ r = Completes
  | _ => True
  end.

Definition cancel_calm (o : listener) : Prop :=
  match o with
  | Duck _ (Plain ops r) _ _ => ops = [] /\ r = Completes
  | _ => True
  end.

(** What the clean-up needs: the callbacks of the listeners of "closed"
    and the [cancel] of every object neither raise nor call the registry,
    and every registered listener is an object of the store. *)
Definition tidy (st : SerialProtocol) : Prop :=
  (forall x, x ∈ listeners_of "closed" st ->
     exists o, objs st !! x = Some o /\ callback_calm o)
  /\ (forall x o, objs st !! x = Some o -> cancel_calm o)
  /\ (forall e x, x ∈ listeners_of e st -> is_Some (objs st !! x)).

(** Whether the [cancel] of [x] is an [async def]. *)
Definition async_cancel (st : SerialProtocol) (x : lid) : bool :=
  match objs st !! x with
  | Some (Duck _ (Plain _ _) _ _) => false
  | Some _ => true
  | None => false
  end.

(** A plain [cancel] runs when it is called. *)
Definition cancel_plain (st : SerialProtocol) (x : lid) : SerialProtocol :=
  if async_cancel st x then st else update_obj x cancel_body st.

(** The registrations whose [cancel] gives a coroutine: the round of
    cancellations awaits these. *)
Definition cancels_awaited (st : SerialProtocol) : list lid :=
  List.filter (async_cancel st) (registered st).

(** The transport after the clean-up: closed and forgotten, unless it was
    absent or closed already. *)
Definition closed_transport (st : SerialProtocol)
  : option Serial * list io_event :=
  match __s st with
  | Some ser =>
      if ser_closed ser then (Some ser, wire st)
      else (None, wire st ++ [IoClose])
  | None => (None, wire st)
  end.

(** Whether [close()] was called on the transport. *)
Definition transport_closed (st : SerialProtocol) : bool :=
  existsb (fun e => match e with IoClose => true | _ => false end) (wire st).

(** ** The wire *)

(** The bytes that the calls of [write] handed to the transport. *)
Definition sent (st : SerialProtocol) : bytes :=
  concat (map (fun e => match e with IoWrite data => data | _ => [] end)
              (wire st)).

(** The line that [request] writes for the message [x]. *)
Definition frame_of (x : json) : bytes :=
  ascii_bytes (encode x) ++ [byte_of_ascii CR; byte_of_ascii LF].

(** A dictionary as Python builds it: no key twice, at any depth. *)
Fixpoint unique_keys (x : json) : bool :=
  match x with
  | JList xs => forallb unique_keys xs
  | JDict kvs =>
      bool_decide (NoDup (map fst kvs))
      && forallb (fun kv => unique_keys (snd kv)) kvs
  | _ => true
  end.

(** The fuel that [parse_value] needs for the text of [x]. *)
Fixpoint json_size (x : json) : nat :=
  match x with
  | JList xs => S (list_sum (map (fun y => S (json_size y)) xs))
  | JDict kvs => S (list_sum (map (fun kv => S (json_size (snd kv))) kvs))
  | _ => 1
  end.

(** The characters that can follow a number: no digit and nothing that
    would make the number a float. *)
Definition ends_number (t : list ascii) : bool :=
  match t with
  | [] => true
  | c :: _ =>
      match digit_of c with
      | Some _ => false
      | None => negb (Ascii.eqb c "." || Ascii.eqb c "e" || Ascii.eqb c "E")
      end
  end.

(** [' '..'~'] *)
Definition printable (c : ascii) : bool :=
  let n := N_of_ascii c in ((32 <=? n) && (n <=? 126))%N.

(** The first character of a JSON value in the output of [json.dumps]. *)
Definition value_start (c : ascii) : bool :=
  Ascii.eqb c dquote || Ascii.eqb c "{" || Ascii.eqb c "[" || Ascii.eqb c "n"
  || Ascii.eqb c "t" || Ascii.eqb c "f" || Ascii.eqb c "-"
  || match digit_of c with Some _ => true | None => false end.

(** A text that begins as [json.dumps] continues after a value inside a
    list or a dictionary, or as [request] ends the line. *)
Definition closes_value (t : list ascii) : Prop :=
  exists c t', t = c :: t'
    /\ (c = ","%char \/ c = "]"%char \/ c = "}"%char \/ c = CR).

(** The text of [x] is read back as [x], whatever closes it, unless one
    of its integers is too long, at which the reading fails. *)
Definition parses (x : json) : Prop :=
  forall fuel t,
    json_size x <= fuel -> closes_value t ->
    parse_value fuel (encode x ++ t) = if fits x then POk (x, t) else PErr.

(** The text of one member of a dictionary. *)
Definition encode_member (kv : string * json) : list ascii :=
  encode_string (fst kv) ++ ":"%char :: " "%char :: encode (snd kv).

(** ** Lines that are not decoded *)

(** [json.load] raises on the line received in the turn [it]: the reader
    of the model says so, or the line is out of its reach and the
    description of the turn says so. *)
Definition load_fails (data : bytes) (it : iteration) : Prop :=
  json_load data = PErr
  \/ (json_load data = PUnsupported /\ it_load it = LoadRaises).

(** ** Steps of the other tasks *)

(** The fields that [write] leaves alone. *)
Definition same_but_wire (st st' : SerialProtocol) : Prop :=
  objs st' = objs st /\ __l st' = __l st /\ __s st' = __s st
  /\ __lt st' = __lt st /\ __v st' = __v st /\ dicts st' = dicts st.

(** The messages of [ms] are dispatched to [event] one after the other,
    no other task running meanwhile. *)
Definition dispatch_all (event : string) (ms : list json)
    (st : SerialProtocol) : SerialProtocol :=
  fold_left (fun acc m => snd (trigger_listener event m (Gathered []) acc))
    ms st.

(** What happens while the device sends nothing: the read loop polls and
    its reads bring no byte. *)
Definition silent (e : wait_ev) : Prop :=
  match e with
  | ListenTurn it _ =>
      Forall (fun p => p_read p = ReadBytes [] /\ p_sleep p = Resumed)
        (it_polls it)
  | _ => False
  end.

(** ** Lines and frames *)

(** Every read brings one byte at most, as [self.__s.read(1)] does. *)
Definition single_reads (polls : list poll) : Prop :=
  Forall (fun p => match p_read p with
                   | ReadBytes data => length data <= 1
                   | ReadFails => True
                   end) polls.

(** The event that the read loop dispatches a received value to: the value
    is a dictionary and its "event" is a string. *)
Definition frame_event (x : json) : option string :=
  match x with
  | JDict d =>
      match dict_get "event" d with
      | Some (JStr event) => Some event
      | _ => None
      end
  | _ => None
  end.

(** ** The driver *)

(** Every call of the driver takes one byte at least; the calls described
    beyond those that [write] makes are not used. *)
Definition accepts (ws : list write_ev) : Prop :=
  Forall (fun w => exists n, w = Wrote (S n)) ws.

(** * Scenarios *)

(** The bytes arrive one at a time, each at the next poll. *)
Definition feed (data : bytes) : list poll :=
  map (fun x => {| p_read := ReadBytes [x]; p_now := 0; p_sleep := Resumed |})
      data.

(** A poll that brings one byte, one that brings none. *)
Definition got (x : Byte.byte) (now : Z) (sl : sleep_ev) : poll :=
  {| p_read := ReadBytes [x]; p_now := now; p_sleep := sl |}.
Definition idle (now : Z) (sl : sleep_ev) : poll :=
  {| p_read := ReadBytes []; p_now := now; p_sleep := sl |}.

Definition no_gather : cleanup_ev :=
  {| c_trigger := Gathered []; c_cancel := Gathered [] |}.

(** A clean-up during which the consumer that waits on listener 0,
    resumed by the cancellation, takes its listener out of the set of
    "x". *)
Definition consumer_leaves : cleanup_ev :=
  {| c_trigger := Gathered []; c_cancel := Gathered [OpRemove "x" 0] |}.

(** A turn of the read loop in which [data] arrives. *)
Definition turn_of (data : bytes) : iteration :=
  {| it_before := 0; it_polls := feed data; it_load := LoadReturns;
     it_dispatch := Gathered []; it_sleep := Resumed |}.

Definition line (t : string) : bytes := b (dq t) ++ newline.

Definition port0 : Serial := {| ser_port := "/dev/ttyACM0"; ser_closed := false |}.

Definition st_open : SerialProtocol := set_s (Some port0) init_state.

Definition msg_x : json := JDict [("event", JStr "x")].

Definition frame_x : bytes := line "{'event':'x'}".

Definition reply_x : bytes := line "{'event':'x_return','value':1}".

(** The link breaks during a turn of the loop. *)
Definition turn_broken : iteration :=
  {| it_before := 0;
     it_polls := [ {| p_read := ReadFails; p_now := 0; p_sleep := Resumed |} ];
     it_load := LoadReturns; it_dispatch := Gathered []; it_sleep := Resumed |}.

(** Two duck-typed listeners on event "x"; the callback of each subscribes
    one more listener to "x". *)
Definition st_resubscribe : SerialProtocol :=
  add_listener "x" 1 (add_listener "x" 0 (set_objs
    [ Duck (Plain [OpAdd "x" 2] Completes) (Coroutine Completes) [] 0;
      Duck (Plain [OpAdd "x" 3] Completes) (Coroutine Completes) [] 0;
      ResultEventListener false None NoTask;
      ResultEventListener false None NoTask ] init_state)).

(** Two duck-typed listeners on event "x" whose callbacks raise. *)
Definition st_raising : SerialProtocol :=
  add_listener "x" 1 (add_listener "x" 0 (set_objs
    [ Duck (Plain [] Fails) (Coroutine Completes) [] 0;
      Duck (Plain [] Fails) (Coroutine Completes) [] 0 ] init_state)).

(** A one-shot listener, a queueing listener, and a listener whose
    [async def callback] fails when awaited, all on event "x". *)
Definition st_mixed : SerialProtocol :=
  add_listener "x" 2 (add_listener "x" 1 (add_listener "x" 0 (set_objs
    [ ResultEventListener false None NoTask;
      Duck (Coroutine Fails) (Coroutine Completes) [] 0;
      ResultQueueListener false [] NoTask false ] init_state))).

(** A protocol object with a queueing listener on "x_return". *)
Definition st_busy : SerialProtocol :=
  add_listener "x_return" 0
    (set_lt (Some (TaskSuspended (InReadUntil [])))
       (set_s (Some port0)
          (set_objs [ResultQueueListener false [] NoTask false] init_state))).

(** An open connection with the three listeners of [st_mixed] on "x" and
    a queueing listener on "closed". *)
Definition st_live : SerialProtocol :=
  add_listener "closed" 3
    (add_listener "x" 2 (add_listener "x" 1 (add_listener "x" 0
      (set_v (JInt 3)
        (set_lt (Some (TaskSuspended (InReadUntil [])))
          (set_s (Some port0)
            (set_objs
               [ ResultEventListener false None TaskPending;
                 Duck (Coroutine Fails) (Coroutine Completes) [] 0;
                 ResultQueueListener false [] NoTask false;
                 ResultQueueListener false [] NoTask false ]
               init_state))))))).

(** An open connection with a waiting listener and a listener whose
    callback raises and whose [cancel] is a plain function, both on "x". *)
Definition st_plain : SerialProtocol :=
  add_listener "x" 1 (add_listener "x" 0
    (set_lt (Some (TaskSuspended (InReadUntil [])))
      (set_s (Some port0)
        (set_objs
           [ ResultEventListener false None TaskPending;
             Duck (Plain [OpAdd "x" 2] Fails) (Plain [] Completes) [] 0 ]
           init_state)))).

Definition msg_dialog : dict :=
  [("text", JStr "No wifi found."); ("title", JStr "");
   ("options", JList [JStr "a"; JInt (-1); JNull; JBool true]);
   ("nested", JDict [("k", JList [])])].

Definition st_dialog : SerialProtocol :=
  set_dicts [[]; []; msg_dialog] st_open.

(** The integer written with [n] digits 1. *)
Definition ones (n : nat) : Z :=
  Z.of_int (Decimal.Pos (Nat.iter n Decimal.D1 Decimal.Nil)).



(** The device answers the version request at once. *)
Definition handshake_ok : init_ev :=
  {| i_open := Opened port0;
     i_hello := [Wrote 2]; i_w1 := [Wrote 29]; i_w2 := [Wrote 2];
     i_wait :=
       [ ListenStarts (Some 0) [];
         ListenTurn
           (turn_of (line "{'event':'protocol_version_return','version':3}"))
           no_gather ];
     i_cleanup := no_gather |}.

(** The device stays silent; the deadline passes while the read loop is in
    [read_until]. *)
Definition handshake_silent : init_ev :=
  {| i_open := Opened port0;
     i_hello := [Wrote 2]; i_w1 := [Wrote 29]; i_w2 := [Wrote 2];
     i_wait := [ ListenStarts (Some 0) []; TimerFires ];
     i_cleanup := no_gather |}.

(** The device sends a line that is no JSON; the read loop has just
    handled it and sleeps at the end of its turn when the waiting task is
    resumed with the timeout. *)
Definition handshake_race : init_ev :=
  {| i_open := Opened port0;
     i_hello := [Wrote 2]; i_w1 := [Wrote 29]; i_w2 := [Wrote 2];
     i_wait :=
       [ ListenStarts (Some 0) [];
         ListenTurn (turn_of (line "not json")) no_gather;
         TimerFires ];
     i_cleanup := no_gather |}.

(** Two ports are listed; the first one cannot be opened. *)
Definition no_port : init_ev :=
  {| i_open := OpenFails; i_hello := []; i_w1 := []; i_w2 := [];
     i_wait := []; i_cleanup := no_gather |}.

(** The device answers a request for [event] with [value] at once; the
    driver takes the line in two calls at most. *)
Definition answer (event : string) (value : json) : ask_ev :=
  {| a_w1 := [Wrote 128; Wrote 128];
     a_w2 := [Wrote 2];
     a_wait :=
       [ ListenTurn
           (turn_of (frame_of (JDict [("event", JStr (String.append event "_return"));
                                      ("value", value)])))
           no_gather ] |}.

(** Seven networks, one more than fits on a page. *)
Definition networks : list json :=
  [JStr "a"; JStr "b"; JStr "c"; JStr "d"; JStr "e"; JStr "f"; JStr "g"].

(** * Runs used in the statements *)

(** The next thing that happens while a reply is awaited: the read loop
    reads the line of [reply] byte by byte and dispatches it, no other task
    running meanwhile. The loop was waiting for a line, or it is started
    first and finds no input to flush. *)
Definition reply_arrives (reply : json) (script : list wait_ev)
    (st : SerialProtocol) : Prop :=
  exists it c rest,
    it_polls it = feed (frame_of reply)
    /\ it_dispatch it = Gathered []
    /\ ((script = ListenTurn it c :: rest
         /\ (__lt st = Some (TaskSuspended AtLoopSleep)
             \/ __lt st = Some (TaskSuspended (InReadUntil []))))
        \/ (script = ListenStarts (Some 0) [] :: ListenTurn it c :: rest
            /\ __lt st = Some TaskCreated)).

(** The device sends nothing until the deadline of the wait passes: the
    read loop, which was waiting for a line or is started first and finds
    no input to flush, only polls and reads no byte. *)
Definition deadline_passes (script : list wait_ev) (st : SerialProtocol)
  : Prop :=
  exists pre rest,
    Forall silent pre
    /\ ((script = pre ++ TimerFires :: rest
         /\ __lt st = Some (TaskSuspended (InReadUntil [])))
        \/ (script = ListenStarts (Some 0) [] :: pre ++ TimerFires :: rest
            /\ __lt st = Some TaskCreated)).

(** The request [req] for [event] is written and answered with [value]:
    its integers can be printed, the driver takes at least a byte per
    call, and the line of a message for [event + "_return"] that holds
    [value], with integers that can be read, is the next thing that the
    read loop receives. *)
Definition answered (event : string) (req : dict) (value : json)
    (a : ask_ev) (st : SerialProtocol) : Prop :=
  fits (JDict (dict_set "event" (JStr event) req)) = true
  /\ accepts (a_w1 a) /\ accepts (a_w2 a)
  /\ length (encode (JDict (dict_set "event" (JStr event) req)))
     <= length (a_w1 a)
  /\ 2 <= length (a_w2 a)
  /\ exists reply,
       unique_keys (JDict reply) = true
       /\ fits (JDict reply) = true
       /\ dict_get "event" reply = Some (JStr (String.append event "_return"))
       /\ dict_get "value" reply = Some value
       /\ reply_arrives (JDict reply) (a_wait a) st.

(** * Properties *)

(** ** Registry and object-store bookkeeping *)

Lemma objs_run_op o st : objs (run_op o st) = objs st.
Proof.
  destruct o as [e x|e x]; cbn; unfold add_listener, remove_listener.
  - reflexivity.
  - destruct (__l st !! e); reflexivity.
Qed.

Lemma objs_run_ops ops st : objs (run_ops ops st) = objs st.
Proof.
  revert st; induction ops as [|o ops IH]; intros st; cbn; [reflexivity|].
  unfold run_ops in IH. rewrite IH. apply objs_run_op.
Qed.

Lemma listeners_of_add event e x st :
  listeners_of event (add_listener e x st)
  = if decide (e = event) then {[x]} ∪ listeners_of event st
    else listeners_of event st.
Proof.
  unfold listeners_of, add_listener; cbn.
  destruct (decide (e = event)) as [->|Hne].
  - rewrite lookup_insert_eq; cbn.
    destruct (__l st !! event) eqn:E; cbn.
    + rewrite E. reflexivity.
    + rewrite lookup_insert_eq. reflexivity.
  - rewrite lookup_insert_ne by done.
    destruct (__l st !! e); [reflexivity|].
    rewrite lookup_insert_ne by done. reflexivity.
Qed.

Lemma listeners_of_remove event e x st :
  listeners_of event (remove_listener e x st)
  = if decide (e = event) then listeners_of event st ∖ {[x]}
    else listeners_of event st.
Proof.
  unfold listeners_of, remove_listener.
  destruct (decide (e = event)) as [->|Hne].
  - destruct (__l st !! event) eqn:E; cbn.
    + rewrite lookup_insert_eq. reflexivity.
    + rewrite E. cbn. set_solver.
  - destruct (__l st !! e) eqn:E; cbn; [|reflexivity].
    rewrite lookup_insert_ne by done. reflexivity.
Qed.

Lemma listeners_of_run_op_ne event o st :
  op_event o ≠ event ->
  listeners_of event (run_op o st) = listeners_of event st.
Proof.
  destruct o as [e x|e x]; cbn; intros Hne.
  - rewrite listeners_of_add. destruct (decide (e = event)); congruence.
  - rewrite listeners_of_remove. destruct (decide (e = event)); congruence.
Qed.

Lemma listeners_of_run_ops_ne event ops st :
  Forall (fun o => op_event o ≠ event) ops ->
  listeners_of event (run_ops ops st) = listeners_of event st.
Proof.
  revert st; induction ops as [|o ops IH]; intros st Hall; cbn; [reflexivity|].
  apply Forall_cons in Hall as [Ho Hall]. unfold run_ops in IH. rewrite IH by assumption.
  apply listeners_of_run_op_ne; assumption.
Qed.

Lemma listeners_of_update_obj event x f st :
  listeners_of event (update_obj x f st) = listeners_of event st.
Proof. unfold update_obj. destruct (objs st !! x); reflexivity. Qed.

Lemma lookup_update_obj x f st y :
  objs (update_obj x f st) !! y
  = if decide (y = x) then f <$> objs st !! x else objs st !! y.
Proof.
  unfold update_obj. destruct (objs st !! x) as [o|] eqn:E; cbn.
  - destruct (decide (y = x)) as [->|Hne].
    + rewrite list_lookup_insert_eq; [reflexivity|].
      eapply lookup_lt_Some; eassumption.
    + rewrite list_lookup_insert_ne by congruence. reflexivity.
  - destruct (decide (y = x)) as [->|Hne]; [rewrite E|]; reflexivity.
Qed.

(** ** Dispatch *)

Lemma quiet_deliver event data o : quiet event o -> quiet event (deliver data o).
Proof. destruct o as [| |[ops r|r] cn got k]; cbn; auto. Qed.

Lemma is_coroutine_deliver data o : is_coroutine (deliver data o) = is_coroutine o.
Proof. destruct o as [| |[ops r|r] cn got k]; reflexivity. Qed.

(** One quiet callback: the object is updated unless the call only built a
    coroutine, and the set being iterated is untouched. *)
Lemma call_callback_quiet event x data st o :
  objs st !! x = Some o -> quiet event o ->
  exists st',
    call_callback x data st = (Ret (is_coroutine o), st')
    /\ listeners_of event st' = listeners_of event st
    /\ (forall y, objs st' !! y
          = if decide (y = x)
            then Some (if is_coroutine o then o else deliver data o)
            else objs st !! y).
Proof.
  intros Hx Hq. unfold call_callback. rewrite Hx.
  destruct o as [ev ret bgt|ev q bgt c|[ops r|r] cn got k]; cbn in *.
  - eexists; split; [reflexivity|]. split.
    + apply listeners_of_update_obj.
    + intros y. rewrite lookup_update_obj, Hx.
      destruct (decide (y = x)); reflexivity.
  - eexists; split; [reflexivity|]. split.
    + apply listeners_of_update_obj.
    + intros y. rewrite lookup_update_obj, Hx.
      destruct (decide (y = x)); reflexivity.
  - destruct Hq as [-> Hops]. eexists; split; [reflexivity|]. split.
    + rewrite listeners_of_run_ops_ne by assumption.
      apply listeners_of_update_obj.
    + intros y. rewrite objs_run_ops, lookup_update_obj, Hx.
      destruct (decide (y = x)); reflexivity.
  - eexists; split; [reflexivity|]. split; [reflexivity|].
    intros y. destruct (decide (y = x)) as [->|]; [assumption|reflexivity].
Qed.

Lemma for_listeners_quiet event data used :
  forall todo tasks st,
    NoDup todo ->
    size (listeners_of event st) = used ->
    (forall x, x ∈ todo -> exists o, objs st !! x = Some o /\ quiet event o) ->
    exists tasks' st',
      for_listeners (fun x => call_callback x data) event used todo tasks st
      = (Ret (tasks ++ tasks'), st')
      /\ listeners_of event st' = listeners_of event st
      /\ NoDup tasks'
      /\ (forall y, y ∈ tasks' <->
            y ∈ todo /\ exists o, objs st !! y = Some o /\ is_coroutine o = true)
      /\ (forall y, objs st' !! y
            = if decide (y ∈ todo /\ y ∉ tasks')
              then deliver data <$> objs st !! y
              else objs st !! y).
Proof.
  induction todo as [|x todo IH]; intros tasks st Hnd Hsz Hall; cbn.
  - rewrite decide_True by assumption.
    exists [], st. rewrite app_nil_r.
    split; [reflexivity|]. split; [reflexivity|]. split; [constructor|].
    split.
    + intros y. split.
      * intros Hy; inversion Hy.
      * intros [Hy _]; inversion Hy.
    + intros y. rewrite decide_False; [reflexivity|].
      intros [Hy _]; inversion Hy.
  - rewrite decide_True by assumption.
    apply NoDup_cons in Hnd as [Hx Hnd].
    destruct (Hall x) as (o & Ho & Hq); [left|].
    destruct (call_callback_quiet event x data st o Ho Hq)
      as (st1 & Hcall & Hl1 & Hobj1).
    rewrite Hcall.
    assert (Hall1 : forall y, y ∈ todo ->
              exists o', objs st1 !! y = Some o' /\ quiet event o').
    { intros y Hy. rewrite Hobj1.
      destruct (decide (y = x)) as [->|Hne]; [contradiction|].
      apply Hall; right; assumption. }
    assert (Hsz1 : size (listeners_of event st1) = used) by (rewrite Hl1; exact Hsz).
    destruct (is_coroutine o) eqn:Hco.
    + destruct (IH (tasks ++ [x]) st1 Hnd Hsz1 Hall1)
        as (tasks' & st' & Hrun & Hl' & Hnd' & Hin' & Hobj').
      exists (x :: tasks'), st'.
      rewrite Hrun, <- app_assoc; cbn. split; [reflexivity|].
      split; [congruence|].
      assert (Hxt : x ∉ tasks') by (rewrite Hin'; tauto).
      split; [apply NoDup_cons; split; assumption|].
      split.
      * intros y. rewrite elem_of_cons, Hin', elem_of_cons.
        split.
        -- intros [->|[Hy (o' & Ho' & Hc')]].
           ++ split; [left; reflexivity|]. exists o. split; assumption.
           ++ split; [right; assumption|].
              rewrite Hobj1 in Ho'.
              destruct (decide (y = x)) as [->|]; [contradiction|].
              exists o'. split; assumption.
        -- intros [[->|Hy] (o' & Ho' & Hc')]; [left; reflexivity|].
           right. split; [assumption|].
           exists o'. rewrite Hobj1.
           destruct (decide (y = x)) as [->|]; [contradiction|].
           split; assumption.
      * intros y. rewrite Hobj'.
        destruct (decide (y = x)) as [->|Hne].
        -- rewrite decide_False by tauto.
           rewrite decide_False.
           2:{ intros [_ Hn]. apply Hn. left. }
           rewrite Hobj1, (decide_True (P:=(x = x))) by reflexivity.
           rewrite Ho. reflexivity.
        -- rewrite (Hobj1 y), (decide_False (P:=(y = x))) by assumption.
           destruct (decide (y ∈ todo /\ y ∉ tasks')) as [[H1 H2]|Hn].
           ++ rewrite decide_True; [reflexivity|].
              split; [right; assumption|].
              rewrite elem_of_cons. tauto.
           ++ rewrite decide_False; [reflexivity|].
              intros [H1 H2]. apply Hn.
              apply elem_of_cons in H1 as [->|H1]; [contradiction|].
              split; [assumption|]. intros H3. apply H2. right. assumption.
    + destruct (IH tasks st1 Hnd Hsz1 Hall1)
        as (tasks' & st' & Hrun & Hl' & Hnd' & Hin' & Hobj').
      exists tasks', st'.
      split; [assumption|]. split; [congruence|]. split; [assumption|].
      assert (Hxt : x ∉ tasks') by (rewrite Hin'; tauto).
      split.
      * intros y. rewrite Hin', elem_of_cons. split.
        -- intros [Hy (o' & Ho' & Hc')]. split; [right; assumption|].
           rewrite Hobj1 in Ho'.
           destruct (decide (y = x)) as [->|]; [contradiction|].
           exists o'. split; assumption.
        -- intros [[->|Hy] (o' & Ho' & Hc')].
           ++ congruence.
           ++ split; [assumption|]. exists o'. rewrite Hobj1.
              destruct (decide (y = x)) as [->|]; [contradiction|].
              split; assumption.
      * intros y. rewrite Hobj'.
        destruct (decide (y = x)) as [->|Hne].
        -- rewrite decide_False by tauto.
           rewrite decide_True.
           2:{ split; [left|assumption]. }
           rewrite Hobj1, (decide_True (P:=(x = x))) by reflexivity.
           rewrite Ho. reflexivity.
        -- rewrite (Hobj1 y), (decide_False (P:=(y = x))) by assumption.
           destruct (decide (y ∈ todo /\ y ∉ tasks')) as [[H1 H2]|Hn].
           ++ rewrite decide_True; [reflexivity|].
              split; [right; assumption|assumption].
           ++ rewrite decide_False; [reflexivity|].
              intros [H1 H2]. apply Hn.
              apply elem_of_cons in H1 as [->|H1]; [contradiction|].
              split; assumption.
Qed.

Lemma listeners_of_run_callbacks event tasks data st :
  listeners_of event (run_callbacks tasks data st) = listeners_of event st.
Proof.
  revert st; induction tasks as [|x tasks IH]; intros st; cbn; [reflexivity|].
  unfold run_callbacks in IH. rewrite IH. apply listeners_of_update_obj.
Qed.

Lemma lookup_run_callbacks tasks data :
  forall st y, NoDup tasks ->
    objs (run_callbacks tasks data st) !! y
    = if decide (y ∈ tasks) then deliver data <$> objs st !! y
      else objs st !! y.
Proof.
  induction tasks as [|x tasks IH]; intros st y Hnd; cbn.
  - rewrite decide_False; [reflexivity|]. intros H; inversion H.
  - apply NoDup_cons in Hnd as [Hx Hnd].
    unfold run_callbacks in IH. rewrite IH by assumption.
    rewrite lookup_update_obj.
    destruct (decide (y = x)) as [->|Hne].
    + rewrite decide_False by assumption.
      rewrite decide_True by left. reflexivity.
    + destruct (decide (y ∈ tasks)) as [Hy|Hy].
      * rewrite decide_True by (right; assumption). reflexivity.
      * rewrite decide_False; [reflexivity|].
        intros H. apply elem_of_cons in H as [->|H]; contradiction.
Qed.

(** A dispatch all of whose callbacks are quiet reaches every listener of
    the set once, whatever the other tasks do to the registry while the
    collected coroutines are awaited. *)
Lemma trigger_listener_quiet event data others st set_ :
  __l st !! event = Some set_ ->
  (forall x, x ∈ set_ -> exists o, objs st !! x = Some o /\ quiet event o) ->
  exists st',
    trigger_listener event data (Gathered others) st = (Ret tt, st')
    /\ forall y, objs st' !! y
         = if decide (y ∈ set_) then deliver data <$> objs st !! y
           else objs st !! y.
Proof.
  intros Hset Hall. unfold trigger_listener. rewrite Hset.
  destruct (for_listeners_quiet event data (size set_) (elements set_) [] st)
    as (tasks & st1 & Hrun & Hl1 & Hnd & Hin & Hobj).
  - apply NoDup_elements.
  - unfold listeners_of. rewrite Hset. reflexivity.
  - intros x Hx. apply Hall. apply elem_of_elements. assumption.
  - rewrite Hrun. cbn [app].
    assert (Hfinal : forall y,
      objs (run_callbacks tasks data st1) !! y
      = if decide (y ∈ set_) then deliver data <$> objs st !! y
        else objs st !! y).
    { intros y. rewrite lookup_run_callbacks by assumption.
      rewrite Hobj.
      destruct (decide (y ∈ tasks)) as [Hy|Hy].
      - rewrite decide_False by tauto.
        apply Hin in Hy as [Hy _]. apply elem_of_elements in Hy.
        rewrite decide_True by assumption. reflexivity.
      - destruct (decide (y ∈ set_)) as [Hs|Hs].
        + rewrite decide_True; [reflexivity|].
          split; [apply elem_of_elements; assumption|assumption].
        + rewrite decide_False; [reflexivity|].
          intros [H _]. apply Hs. apply elem_of_elements. assumption. }
    destruct tasks as [|t tasks].
    + eexists; split; [reflexivity|]. exact Hfinal.
    + eexists; split; [reflexivity|].
      intros y. rewrite objs_run_ops. apply Hfinal.
Qed.

(** C1 (amended). No snapshot of the listener set is taken: the loop walks
    the live set. When no callback of the dispatch raises or calls
    [add_listener] or [remove_listener] for the dispatched event, every
    listener registered when the dispatch begins receives the message once
    and no other listener receives it; changes that other tasks make to the
    registry while the dispatch awaits its collected coroutines come after
    every callback was invoked and do not alter the delivery. *)
Theorem trigger_listener_delivers_to_registered event data others st set_ :
  __l st !! event = Some set_ ->
  (forall x, x ∈ set_ -> exists o, objs st !! x = Some o /\ quiet event o) ->
  exists st',
    trigger_listener event data (Gathered others) st = (Ret tt, st')
    /\ (forall y, y ∈ set_ -> objs st' !! y = deliver data <$> objs st !! y)
    /\ (forall y, y ∉ set_ -> objs st' !! y = objs st !! y).
Proof.
  intros Hset Hall.
  destruct (trigger_listener_quiet event data others st set_ Hset Hall)
    as (st' & Hrun & Hobj).
  exists st'. split; [assumption|]. split; intros y Hy; rewrite Hobj.
  - rewrite decide_True by assumption. reflexivity.
  - rewrite decide_False by assumption. reflexivity.
Qed.

Lemma trigger_listener_delivers_witness :
  exists st',
    trigger_listener "x" msg_x (Gathered [OpRemove "x" 0]) st_mixed = (Ret tt, st')
    /\ (forall y, y ∈ listeners_of "x" st_mixed ->
          objs st' !! y = deliver msg_x <$> objs st_mixed !! y)
    /\ (forall y, y ∉ listeners_of "x" st_mixed ->
          objs st' !! y = objs st_mixed !! y).
Proof.
  apply (trigger_listener_delivers_to_registered
           "x" msg_x [OpRemove "x" 0] st_mixed (listeners_of "x" st_mixed)).
  - vm_compute. reflexivity.
  - intros x Hx. apply elem_of_elements in Hx. vm_compute in Hx.
    apply elem_of_cons in Hx as [->|Hx]; [eexists; split; [reflexivity|exact I]|].
    apply elem_of_cons in Hx as [->|Hx]; [eexists; split; [reflexivity|exact I]|].
    apply elem_of_cons in Hx as [->|Hx]; [eexists; split; [reflexivity|exact I]|].
    inversion Hx.
Defined.

(** C1 (as stated) fails: a callback that subscribes another listener to
    the event being dispatched changes the size of the set under the
    iterator; the dispatch stops with [RuntimeError] and a listener that was
    registered when it began is left without the message. *)
Lemma trigger_listener_resubscribe_aborts :
  exists st',
    trigger_listener "x" msg_x (Gathered []) st_resubscribe
    = (Raise RuntimeError, st')
    /\ 0 ∈ listeners_of "x" st_resubscribe
    /\ objs st' !! 0 = objs st_resubscribe !! 0.
Proof.
  eexists. split; [vm_compute; reflexivity|].
  split; [|reflexivity].
  apply elem_of_elements. vm_compute. right. left.
Qed.

(** C7 (amended). A listener whose callback fails inside the awaitable it
    returns does not keep the message from the others: when the remaining
    callbacks are quiet, each of them receives the message of that same
    dispatch. A callback that raises in the call itself is not covered. *)
Theorem trigger_listener_tolerates_failed_awaitable
    event data others st set_ x cn got k :
  __l st !! event = Some set_ ->
  x ∈ set_ ->
  objs st !! x = Some (Duck (Coroutine Fails) cn got k) ->
  (forall y, y ∈ set_ -> y ≠ x ->
     exists o, objs st !! y = Some o /\ quiet event o) ->
  exists st',
    trigger_listener event data (Gathered others) st = (Ret tt, st')
    /\ forall y, y ∈ set_ -> y ≠ x ->
         objs st' !! y = deliver data <$> objs st !! y.
Proof.
  intros Hset Hx Hobjx Hall.
  destruct (trigger_listener_quiet event data others st set_ Hset)
    as (st' & Hrun & Hobj).
  - intros y Hy. destruct (decide (y = x)) as [->|Hne].
    + eexists; split; [eassumption|exact I].
    + apply Hall; assumption.
  - exists st'. split; [assumption|].
    intros y Hy _. rewrite Hobj, decide_True by assumption. reflexivity.
Qed.

Lemma trigger_listener_tolerates_witness :
  exists st',
    trigger_listener "x" msg_x (Gathered []) st_mixed = (Ret tt, st')
    /\ forall y, y ∈ listeners_of "x" st_mixed -> y ≠ 1 ->
         objs st' !! y = deliver msg_x <$> objs st_mixed !! y.
Proof.
  apply (trigger_listener_tolerates_failed_awaitable
           "x" msg_x [] st_mixed (listeners_of "x" st_mixed) 1
           (Coroutine Completes) [] 0).
  - vm_compute. reflexivity.
  - apply elem_of_elements. vm_compute. right. left.
  - reflexivity.
  - intros y Hy _. apply elem_of_elements in Hy. vm_compute in Hy.
    apply elem_of_cons in Hy as [->|Hy]; [eexists; split; [reflexivity|exact I]|].
    apply elem_of_cons in Hy as [->|Hy]; [eexists; split; [reflexivity|exact I]|].
    apply elem_of_cons in Hy as [->|Hy]; [eexists; split; [reflexivity|exact I]|].
    inversion Hy.
Defined.

(** C7 (as stated) fails: with two listeners whose callbacks raise in the
    call itself, the first one visited ends the loop, so the other one,
    although registered, is never called. *)
Lemma trigger_listener_sync_failure_starves :
  exists st',
    trigger_listener "x" msg_x (Gathered []) st_raising
    = (Raise ListenerError, st')
    /\ 0 ∈ listeners_of "x" st_raising
    /\ objs st' !! 0 = objs st_raising !! 0.
Proof.
  eexists. split; [vm_compute; reflexivity|].
  split; [|reflexivity].
  apply elem_of_elements. vm_compute. right. left.
Qed.

(** ** Properties kept by every step of the protocol *)

Section Stable.

(** [I] is kept by the elementary changes of state, [ok] holds of the
    registry calls that may happen. *)
Variable I : SerialProtocol -> Prop.
Variable ok : reg_op -> Prop.

Hypothesis I_set_s : forall x st, I st -> I (set_s x st).
Hypothesis I_set_v : forall x st, I st -> I (set_v x st).
Hypothesis I_set_lt : forall x st, I st -> I (set_lt x st).
Hypothesis I_log_io : forall e st, I st -> I (log_io e st).
Hypothesis I_update_obj : forall x f st,
  (forall o, obj_ops (f o) = obj_ops o) -> I st -> I (update_obj x f st).
Hypothesis I_run_op : forall o st, ok o -> I st -> I (run_op o st).
Hypothesis I_methods : forall st x o,
  I st -> objs st !! x = Some o -> Forall ok (obj_ops o).

Lemma stable_run_ops ops st : Forall ok ops -> I st -> I (run_ops ops st).
Proof.
  revert st; induction ops as [|o ops IH]; intros st Hok HI; cbn; [assumption|].
  apply Forall_cons in Hok as [Ho Hok].
  apply IH; [assumption|]. apply I_run_op; assumption.
Qed.

Lemma obj_ops_deliver data o : obj_ops (deliver data o) = obj_ops o.
Proof. destruct o; reflexivity. Qed.

Lemma obj_ops_cancel_body o : obj_ops (cancel_body o) = obj_ops o.
Proof. destruct o; reflexivity. Qed.

Lemma obj_ops_set_bgt t o : obj_ops (set_bgt t o) = obj_ops o.
Proof. destruct o; reflexivity. Qed.

Lemma stable_call_callback x data st :
  I st -> I (snd (call_callback x data st)).
Proof.
  intros HI. unfold call_callback.
  destruct (objs st !! x) as [o|] eqn:Ho; [|assumption].
  pose proof (I_methods st x o HI Ho) as Hm.
  destruct o as [ev ret bgt|ev q bgt c|[ops r|r] cn got k]; cbn.
  - apply I_update_obj; [apply obj_ops_deliver|assumption].
  - apply I_update_obj; [apply obj_ops_deliver|assumption].
  - cbn in Hm. apply Forall_app in Hm as [Hm _].
    assert (I (run_ops ops (update_obj x (deliver data) st))).
    { apply stable_run_ops; [assumption|].
      apply I_update_obj; [apply obj_ops_deliver|assumption]. }
    destruct r; assumption.
  - assumption.
Qed.

Lemma stable_call_cancel x st : I st -> I (snd (call_cancel x st)).
Proof.
  intros HI. unfold call_cancel.
  destruct (objs st !! x) as [o|] eqn:Ho; [|assumption].
  pose proof (I_methods st x o HI Ho) as Hm.
  destruct o as [ev ret bgt|ev q bgt c|cb [ops r|r] got k]; cbn;
    try assumption.
  cbn in Hm. apply Forall_app in Hm as [_ Hm].
  assert (I (run_ops ops (update_obj x cancel_body st))).
  { apply stable_run_ops; [assumption|].
    apply I_update_obj; [apply obj_ops_cancel_body|assumption]. }
  destruct r; assumption.
Qed.

Lemma stable_for_listeners call event used :
  (forall x st, I st -> I (snd (call x st))) ->
  forall todo tasks st,
    I st -> I (snd (for_listeners call event used todo tasks st)).
Proof.
  intros Hcall. induction todo as [|x todo IH]; intros tasks st HI; cbn.
  - destruct (decide _) as [Hsz|Hsz]; assumption.
  - destruct (decide _) as [Hsz|Hsz]; [|assumption].
    pose proof (Hcall x st HI) as H1.
    destruct (call x st) as [[[|]|e|] st1]; cbn in *;
      try assumption; apply IH; assumption.
Qed.

Lemma stable_run_callbacks tasks data st :
  I st -> I (run_callbacks tasks data st).
Proof.
  revert st; induction tasks as [|x tasks IH]; intros st HI; cbn; [assumption|].
  apply IH. apply I_update_obj; [apply obj_ops_deliver|assumption].
Qed.

Lemma stable_run_cancels tasks st : I st -> I (run_cancels tasks st).
Proof.
  revert st; induction tasks as [|x tasks IH]; intros st HI; cbn; [assumption|].
  apply IH. apply I_update_obj; [apply obj_ops_cancel_body|assumption].
Qed.

Lemma stable_trigger_listener event data g st :
  Forall ok (gather_ops g) -> I st ->
  I (snd (trigger_listener event data g st)).
Proof.
  intros Hg HI. unfold trigger_listener.
  assert (H1 : I (snd match __l st !! event with
                      | Some listeners =>
                          for_listeners (fun x => call_callback x data) event
                            (size listeners) (elements listeners) [] st
                      | None => (Ret [], st)
                      end)).
  { destruct (__l st !! event); [|assumption].
    apply stable_for_listeners; [|assumption].
    intros x st0. apply stable_call_callback. }
  destruct (match __l st !! event with Some _ => _ | None => _ end)
    as [[[|t tasks]|e|] st1]; cbn [snd] in *; try assumption.
  destruct g as [others|[|]]; cbn [snd gather_ops] in *.
  - apply stable_run_ops; [assumption|]. apply stable_run_callbacks; assumption.
  - apply stable_run_callbacks; assumption.
  - assumption.
Qed.

Lemma stable_for_events used :
  forall todo tasks st, I st -> I (snd (for_events used todo tasks st)).
Proof.
  induction todo as [|[event set_] todo IH]; intros tasks st HI; cbn.
  - destruct (decide _) as [Hsz|Hsz]; assumption.
  - destruct (decide _) as [Hsz|Hsz]; [|assumption].
    pose proof (stable_for_listeners call_cancel event
                  (size (listeners_of event st)) stable_call_cancel
                  (elements (listeners_of event st)) tasks st HI) as H1.
    destruct (for_listeners call_cancel event _ _ tasks st)
      as [[tasks'|e|] st1]; cbn in *; try assumption.
    apply IH; assumption.
Qed.

Lemma stable_cancel_all_listener g st :
  Forall ok (gather_ops g) -> I st -> I (snd (cancel_all_listener g st)).
Proof.
  intros Hg HI. unfold cancel_all_listener.
  pose proof (stable_for_events (size (__l st)) (map_to_list (__l st)) [] st HI)
    as H1.
  destruct (for_events _ _ [] st) as [[[|t tasks]|e|] st1]; cbn [snd] in *;
    try assumption.
  destruct g as [others|[|]]; cbn [snd gather_ops] in *.
  - apply stable_run_ops; [assumption|]. apply stable_run_cancels; assumption.
  - apply stable_run_cancels; assumption.
  - assumption.
Qed.

Lemma stable_clean_up c st :
  Forall ok (cleanup_ops c) -> I st -> I (snd (_clean_up c st)).
Proof.
  intros Hc HI. apply Forall_app in Hc as [Hc1 Hc2]. unfold _clean_up.
  pose proof (stable_trigger_listener "closed" closed_message (c_trigger c)
                st Hc1 HI) as H1.
  destruct (trigger_listener "closed" closed_message (c_trigger c) st)
    as [[u|e|] st1]; cbn in *; try assumption.
  pose proof (stable_cancel_all_listener (c_cancel c) st1 Hc2 H1) as H2.
  destruct (cancel_all_listener (c_cancel c) st1) as [[u'|e|] st2];
    cbn in *; try assumption.
  apply I_set_v, I_set_lt.
  destruct (__s st2) as [ser|]; [|assumption].
  destruct (negb (ser_closed ser)); [|assumption].
  apply I_set_s, I_log_io. assumption.
Qed.

Lemma stable_task_done e st : I st -> I (task_done e st).
Proof. intros HI. unfold task_done. destruct (__lt st); auto. Qed.

Lemma stable_finish r : I (snd r) -> I (snd (finish r)).
Proof.
  destruct r as [[u|e|] st]; cbn; auto using stable_task_done.
Qed.

Lemma stable_read_until_loop end_ timeout before :
  forall polls buffer st,
    I st -> I (snd (read_until_loop end_ timeout before buffer polls st)).
Proof.
  induction polls as [|p polls IH]; intros buffer st HI; cbn.
  - destruct (__s st); assumption.
  - destruct (__s st); [|assumption].
    destruct (p_read p); [|assumption].
    destruct (_ || _); [assumption|].
    destruct (p_sleep p); [apply IH| apply IH; apply I_set_s|]; assumption.
Qed.

Lemma stable_dispatch_frame resp g st :
  Forall ok (gather_ops g) -> I st -> I (snd (dispatch_frame resp g st)).
Proof.
  intros Hg HI. unfold dispatch_frame.
  destruct resp as [| | | | |d]; try assumption.
  destruct (dict_get "event" d) as [[| | |event| |]|]; try assumption.
  pose proof (stable_trigger_listener event (JDict d) g st Hg HI) as H1.
  destruct (trigger_listener event (JDict d) g st) as [[u|e|] st1];
    cbn in *; try assumption.
  destruct e; assumption.
Qed.

Lemma stable_listen_body buffer it st :
  Forall ok (gather_ops (it_dispatch it)) -> I st ->
  I (snd (listen_body buffer it st)).
Proof.
  intros Hg HI. unfold listen_body.
  pose proof (stable_read_until_loop newline None (it_before it)
                (it_polls it) buffer st HI) as H1.
  destruct (read_until_loop newline None (it_before it) buffer (it_polls it) st)
    as [[[data|]|e|] st1]; cbn in *; try assumption.
  - destruct (json_load data);
      [apply stable_dispatch_frame; assumption | assumption
      | destruct (it_load it); assumption].
  - destruct e; assumption.
Qed.

Lemma stable_listen_reads buffer it c st :
  Forall ok (gather_ops (it_dispatch it)) -> Forall ok (cleanup_ops c) ->
  I st -> I (listen_reads buffer it c st).
Proof.
  intros Hg Hc HI. unfold listen_reads.
  pose proof (stable_listen_body buffer it st Hg HI) as H1.
  destruct (listen_body buffer it st) as [[| | |] st1]; cbn in *.
  - apply I_set_lt; assumption.
  - apply stable_finish, stable_clean_up; assumption.
  - apply I_set_lt; assumption.
  - assumption.
Qed.

Lemma stable_listen_runs it c st :
  Forall ok (gather_ops (it_dispatch it)) -> Forall ok (cleanup_ops c) ->
  I st -> I (listen_runs it c st).
Proof.
  intros Hg Hc HI. unfold listen_runs.
  destruct (__lt st) as [[|[|buffer|]|e]|]; try assumption.
  - apply stable_listen_reads; assumption.
  - destruct (__s st).
    + apply stable_listen_reads; assumption.
    + apply stable_finish, stable_clean_up; assumption.
Qed.

Lemma stable_flush_loop :
  forall turns n st, I st -> I (snd (flush_loop n turns st)).
Proof.
  induction turns as [|[n' sl] turns IH]; intros n st HI.
  - destruct n as [[|n]|]; cbn; try assumption.
    destruct (__s st); assumption.
  - destruct n as [[|n]|]; cbn; try assumption.
    destruct (__s st); [|assumption].
    destruct n' as [n'|]; [|assumption].
    destruct sl; cbn; [apply IH|apply IH; apply I_set_s|]; assumption.
Qed.

Lemma stable_listen_starts first flush st :
  I st -> I (listen_starts first flush st).
Proof.
  intros HI. unfold listen_starts.
  destruct (__lt st) as [[| |]|]; try assumption.
  unfold flush_input. destruct (__s st).
  - pose proof (stable_flush_loop flush first st HI) as H1.
    destruct (flush_loop first flush st) as [[u|e|] st1]; cbn in *.
    + apply I_set_lt; assumption.
    + apply stable_task_done; assumption.
    + apply I_set_lt; assumption.
  - apply stable_task_done; assumption.
Qed.

Lemma obj_ops_end_wait o : obj_ops (end_wait o) = obj_ops o.
Proof. destruct o; reflexivity. Qed.

Lemma stable_loop_goes_on st : I st -> I (loop_goes_on st).
Proof.
  intros HI. unfold loop_goes_on.
  destruct (__lt st) as [[|[]|]|]; try assumption.
  destruct (__s st); [apply I_set_lt|]; assumption.
Qed.

Lemma stable_wait_loop x timeout :
  forall script st,
    Forall ok (script_ops script) -> I st ->
    I (snd (wait_loop x timeout script st)).
Proof.
  assert (Hstop : forall st, I st -> I (update_obj x (set_bgt NoTask) st)).
  { intros st HI. apply I_update_obj; [apply obj_ops_set_bgt|assumption]. }
  assert (Hend : forall st, I st -> I (update_obj x end_wait (loop_goes_on st))).
  { intros st HI. apply I_update_obj; [apply obj_ops_end_wait|].
    apply stable_loop_goes_on. assumption. }
  induction script as [|e script IH]; intros st Hs HI.
  - cbn. destruct (objs st !! x) as [[ev ret [|]|?|?]|]; cbn; auto.
    destruct (ev && _); cbn; auto.
  - unfold script_ops in Hs. cbn [map concat] in Hs.
    apply Forall_app in Hs as [He Hs].
    cbn. destruct (objs st !! x) as [[ev ret bgt|?|?]|]; cbn; auto.
    assert (Hgo : I (snd
      match e with
      | ListenStarts first flush =>
          wait_loop x timeout script (listen_starts first flush st)
      | ListenTurn it c => wait_loop x timeout script (listen_runs it c st)
      | Others ops => wait_loop x timeout script (run_ops ops st)
      | TimerFires =>
          match timeout with
          | Some _ => (Raise TimeoutError, update_obj x (set_bgt NoTask) st)
          | None => wait_loop x timeout script st
          end
      | Cancel => (Raise CancelledError, update_obj x (set_bgt NoTask) st)
      end)).
    { destruct e as [first flush|it c|ops| |]; cbn in He.
      - apply IH; [assumption|]. apply stable_listen_starts; assumption.
      - apply Forall_app in He as [Hg Hc].
        apply IH; [assumption|]. apply stable_listen_runs; assumption.
      - apply IH; [assumption|]. apply stable_run_ops; assumption.
      - destruct timeout; cbn; auto.
      - cbn; auto. }
    destruct bgt; cbn; auto. destruct (ev && _); cbn; auto.
Qed.

Lemma stable_wait x timeout script st :
  Forall ok (script_ops script) -> I st ->
  I (snd (wait x timeout script st)).
Proof.
  intros Hs HI. unfold wait. apply stable_wait_loop; [assumption|].
  apply I_update_obj; [apply obj_ops_set_bgt|assumption].
Qed.

Lemma stable_write_loop view :
  forall ws pointer st, I st -> I (snd (write_loop view pointer ws st)).
Proof.
  induction ws as [|w ws IH]; intros pointer st HI; cbn -[Nat.ltb];
    destruct (pointer <? length view)%nat; cbn; try assumption;
    destruct (__s st); cbn; try assumption.
  destruct w; cbn; [apply IH|assumption|]; apply I_log_io; assumption.
Qed.

Lemma stable_write_str data ws st : I st -> I (snd (write_str data ws st)).
Proof. apply stable_write_loop. Qed.

End Stable.

(** The fields of the link are out of reach of listeners and registry
    calls. *)
Lemma link_is_stable st0 :
  let I := link_is st0 in
  let ok := fun _ : reg_op => True in
  (forall y f st, (forall o, obj_ops (f o) = obj_ops o) ->
     I st -> I (update_obj y f st))
  /\ (forall o st, ok o -> I st -> I (run_op o st))
  /\ (forall st y o, I st -> objs st !! y = Some o -> Forall ok (obj_ops o)).
Proof.
  cbn. split; [|split].
  - intros y f st _ H. unfold update_obj. destruct (objs st !! y); exact H.
  - intros [e x|e x] st _ H; cbn; unfold add_listener, remove_listener.
    + exact H.
    + destruct (__l st !! e); exact H.
  - intros st y o _ _. apply Forall_forall. intros; exact Logic.I.
Qed.

(** ** Requests *)

Lemma apart_setters x ret st :
  apart x ret st ->
  (forall a, apart x ret (set_s a st))
  /\ (forall a, apart x ret (set_v a st))
  /\ (forall a, apart x ret (set_lt a st))
  /\ (forall a, apart x ret (set_dicts a st))
  /\ (forall a, apart x ret (log_io a st)).
Proof.
  intros [H1 H2].
  repeat split; intros; first [eapply H1; eassumption | eapply H2; eassumption].
Qed.

Lemma apart_update_obj x ret y f st :
  (forall o, obj_ops (f o) = obj_ops o) ->
  apart x ret st -> apart x ret (update_obj y f st).
Proof.
  intros Hf [H1 H2]. split.
  - intros e He. rewrite listeners_of_update_obj. apply H1; assumption.
  - intros z o. rewrite lookup_update_obj.
    destruct (decide (z = y)) as [->|Hne]; [|apply H2].
    destruct (objs st !! y) as [o'|] eqn:E; cbn; [|discriminate].
    intros [= <-]. rewrite Hf. eapply H2; eassumption.
Qed.

Lemma apart_run_op x ret o st :
  op_lid o ≠ x -> apart x ret st -> apart x ret (run_op o st).
Proof.
  intros Ho [H1 H2]. split.
  - intros e He. specialize (H1 e He).
    destruct o as [e' y|e' y]; cbn in *.
    + rewrite listeners_of_add. destruct (decide (e' = e)); set_solver.
    + rewrite listeners_of_remove. destruct (decide (e' = e)); set_solver.
  - intros y o'. rewrite objs_run_op. apply H2.
Qed.

Lemma apart_stable x ret :
  let I := apart x ret in
  let ok := fun op => op_lid op ≠ x in
  (forall a st, I st -> I (set_s a st))
  /\ (forall a st, I st -> I (set_v a st))
  /\ (forall a st, I st -> I (set_lt a st))
  /\ (forall a st, I st -> I (log_io a st))
  /\ (forall y f st, (forall o, obj_ops (f o) = obj_ops o) ->
        I st -> I (update_obj y f st))
  /\ (forall o st, ok o -> I st -> I (run_op o st))
  /\ (forall st y o, I st -> objs st !! y = Some o -> Forall ok (obj_ops o)).
Proof.
  cbn. split; [|split; [|split; [|split; [|split; [|split]]]]].
  - intros a st H. apply (apart_setters x ret st H).
  - intros a st H. apply (apart_setters x ret st H).
  - intros a st H. apply (apart_setters x ret st H).
  - intros a st H. apply (apart_setters x ret st H).
  - intros y f st. apply apart_update_obj.
  - intros o st. apply apart_run_op.
  - intros st y o [_ H2]. apply H2.
Qed.

Lemma apart_request x ret event data w1 w2 st :
  apart x ret st -> apart x ret (snd (request event data w1 w2 st)).
Proof.
  intros HI.
  destruct (apart_stable x ret) as (Hs1 & Hs2 & Hs3 & Hs4 & Hu & Ho & Hm).
  unfold request.
  destruct (dicts st !! default request_default data) as [d|]; [|assumption].
  set (st1 := set_dicts _ st).
  assert (H1 : apart x ret st1) by (apply apart_setters; assumption).
  destruct (json_dumps _) as [text|]; [|assumption].
  pose proof (stable_write_str (apart x ret) Hs4 text w1 st1 H1) as H2.
  destruct (write_str _ w1 st1) as [[u|e|] st2]; cbn [snd] in *; try assumption.
  apply stable_write_str; assumption.
Qed.

Lemma apart_send_and_wait x ret event data timeout w1 w2 script st :
  Forall (fun op => op_lid op ≠ x) (script_ops script) ->
  apart x ret st ->
  apart x ret (snd (send_and_wait event data x timeout w1 w2 script st)).
Proof.
  intros Hs HI.
  destruct (apart_stable x ret) as (Hs1 & Hs2 & Hs3 & Hs4 & Hu & Ho & Hm).
  unfold send_and_wait.
  pose proof (apart_request x ret event (Some data) w1 w2 st HI) as H1.
  destruct (request event (Some data) w1 w2 st) as [[u|e|] st1];
    cbn [snd] in *; try assumption.
  apply (stable_wait (apart x ret) (fun op => op_lid op ≠ x)); assumption.
Qed.

(** C2. [request_with_result] registers its new one-shot listener under
    [event + "_return"] while nothing of the request is written yet, and
    however its [try] block is left (with the reply, with [TimeoutError],
    with the exception of a failed write, with a cancellation) it calls
    [remove_listener] once, on the state that the block leaves; after the
    call no set of the registry holds the listener. *)
Theorem request_with_result_deregisters
    event data timeout w1 w2 script st r st' :
  unknown (length (objs st)) script st ->
  request_with_result event data timeout w1 w2 script st = (r, st') ->
  r ≠ Pending ->
  let x := length (objs st) in
  let ret := String.append event "_return" in
  (x ∈ listeners_of ret (with_listener event st)
   /\ wire (with_listener event st) = wire st)
  /\ (exists st3,
        send_and_wait event (default request_with_result_default data) x
          timeout w1 w2 script (with_listener event st) = (r, st3)
        /\ st' = remove_listener ret x st3)
  /\ (forall e, x ∉ listeners_of e st').
Proof.
  intros (Hnew & Hobjs & Hscript) Hrun Hr x ret.
  assert (Hreg : x ∈ listeners_of ret (with_listener event st)).
  { unfold with_listener. rewrite listeners_of_add.
    rewrite decide_True by reflexivity. set_solver. }
  split; [split; [exact Hreg|reflexivity]|].
  assert (Hap : apart x ret (with_listener event st)).
  { split.
    - intros e He. unfold with_listener. rewrite listeners_of_add.
      destruct (decide _) as [Heq|_]; [|apply Hnew].
      exfalso. apply He. symmetry. exact Heq.
    - intros y o. unfold with_listener. cbn.
      intros Hy. apply lookup_app_Some in Hy as [Hy|[_ Hy]].
      + eapply Hobjs; eassumption.
      + destruct (y - length (objs st)) as [|n]; cbn in Hy; [|discriminate].
        injection Hy as <-. constructor. }
  pose proof (apart_send_and_wait x ret event
                (default request_with_result_default data) timeout w1 w2
                script (with_listener event st) Hscript Hap) as Hend.
  unfold request_with_result in Hrun. fold x ret in Hrun.
  destruct (send_and_wait event _ x timeout w1 w2 script (with_listener event st))
    as [r3 st3] eqn:Hsw.
  cbn [snd] in Hend.
  assert (Hres : r = r3 /\ st' = remove_listener ret x st3).
  { destruct r3; injection Hrun as <- <-; [split; reflexivity..|].
    contradiction. }
  destruct Hres as [-> ->].
  split; [exists st3; split; reflexivity|].
  intros e. rewrite listeners_of_remove.
  destruct (decide (ret = e)) as [<-|Hne].
  - set_solver.
  - apply Hend. congruence.
Qed.

Lemma unknown_st_busy script :
  Forall (fun op => op_lid op ≠ 1) (script_ops script) ->
  unknown 1 script st_busy.
Proof.
  intros Hs. split; [|split; [|exact Hs]].
  - intros e. unfold st_busy. rewrite listeners_of_add.
    assert (He : listeners_of e init_state = ∅)
      by (unfold listeners_of; cbn; rewrite lookup_empty; reflexivity).
    destruct (decide ("x_return" = e)).
    + change (1 ∉ {[0]} ∪ listeners_of e init_state). rewrite He. set_solver.
    + change (1 ∉ listeners_of e init_state). rewrite He. set_solver.
  - intros y o Hy. destruct y as [|y]; cbn in Hy.
    + injection Hy as <-. constructor.
    + destruct y; discriminate.
Defined.

Lemma request_with_result_deregisters_witness :
  let run :=
    request_with_result "x" None (Some 1000%Z) [Wrote 14] [Wrote 2]
      [ListenTurn (turn_of reply_x) no_gather] st_busy in
  1 ∈ listeners_of "x_return" (with_listener "x" st_busy)
  /\ 1 ∉ listeners_of "x_return" (snd run).
Proof.
  intros run.
  assert (Hu : unknown (length (objs st_busy))
                 [ListenTurn (turn_of reply_x) no_gather] st_busy).
  { apply unknown_st_busy. vm_compute. constructor. }
  assert (Hrun : run = (fst run, snd run)) by (destruct run; reflexivity).
  assert (Hr : fst run ≠ Pending) by (vm_compute; discriminate).
  destruct (request_with_result_deregisters "x" None (Some 1000%Z)
              [Wrote 14] [Wrote 2] [ListenTurn (turn_of reply_x) no_gather]
              st_busy (fst run) (snd run) Hu Hrun Hr)
    as ((Hreg & _) & _ & Hout).
  split; [exact Hreg|apply Hout].
Defined.

(** The three ways out of [request_with_result] named in C2, on the same
    protocol object: the reply, the timeout, a write that fails. *)
Example request_with_result_reply :
  fst (request_with_result "x" None (Some 1000%Z) [Wrote 14] [Wrote 2]
         [ListenTurn (turn_of reply_x) no_gather] st_busy)
  = Ret (Some (JDict [("event", JStr "x_return"); ("value", JInt 1)])).
Proof. vm_compute. reflexivity. Qed.

Example request_with_result_timeout :
  let run := request_with_result "x" None (Some 1000%Z) [Wrote 14] [Wrote 2]
               [TimerFires] st_busy in
  fst run = Raise TimeoutError
  /\ elements (listeners_of "x_return" (snd run)) = [0].
Proof. vm_compute. split; reflexivity. Qed.

Example request_with_result_write_fails :
  let run := request_with_result "x" None (Some 1000%Z) [WriteFails] []
               [] st_busy in
  fst run = Raise SerialException
  /\ elements (listeners_of "x_return" (snd run)) = [0].
Proof. vm_compute. split; reflexivity. Qed.

(** *** The payload dictionary *)

Lemma dict_get_set k x d : dict_get k (dict_set k x d) = Some x.
Proof.
  induction d as [|[k' y] d IH]; cbn.
  - rewrite String.eqb_refl. reflexivity.
  - destruct (String.eqb k k') eqn:E; cbn; rewrite E; [reflexivity|exact IH].
Qed.

Lemma dict_get_set_ne k k' x d :
  k' ≠ k -> dict_get k' (dict_set k x d) = dict_get k' d.
Proof.
  intros Hne. induction d as [|[k0 y] d IH]; cbn.
  - destruct (String.eqb k' k) eqn:E; [|reflexivity].
    apply String.eqb_eq in E. contradiction.
  - destruct (String.eqb k k0) eqn:E; cbn.
    + apply String.eqb_eq in E. subst k0.
      destruct (String.eqb k' k) eqn:E'; [|reflexivity].
      apply String.eqb_eq in E'. contradiction.
    + rewrite IH. reflexivity.
Qed.

(** Only [request] writes to the store of dictionaries. *)
Lemma dicts_stable (D : list dict) :
  let I := fun st => dicts st = D in
  let ok := fun _ : reg_op => True in
  (forall a st, I st -> I (set_s a st))
  /\ (forall a st, I st -> I (set_v a st))
  /\ (forall a st, I st -> I (set_lt a st))
  /\ (forall a st, I st -> I (log_io a st))
  /\ (forall y f st, (forall o, obj_ops (f o) = obj_ops o) ->
        I st -> I (update_obj y f st))
  /\ (forall o st, ok o -> I st -> I (run_op o st))
  /\ (forall st y o, I st -> objs st !! y = Some o -> Forall ok (obj_ops o)).
Proof.
  cbn. split; [|split; [|split; [|split; [|split; [|split]]]]];
    try (intros a st H; exact H).
  - intros y f st _ H. unfold update_obj. destruct (objs st !! y); exact H.
  - intros [e x|e x] st _ H; cbn; unfold add_listener, remove_listener.
    + exact H.
    + destruct (__l st !! e); exact H.
  - intros st y o _ _. apply Forall_forall. intros; exact Logic.I.
Qed.

Lemma dicts_request event data w1 w2 st d :
  dicts st !! default request_default data = Some d ->
  dicts (snd (request event data w1 w2 st))
  = <[default request_default data := dict_set "event" (JStr event) d]> (dicts st).
Proof.
  intros Hd. unfold request. rewrite Hd.
  set (D := <[_ := _]> (dicts st)).
  destruct (dicts_stable D) as (Hs1 & Hs2 & Hs3 & Hs4 & Hu & Ho & Hm).
  set (st1 := set_dicts D st).
  assert (H1 : dicts st1 = D) by reflexivity.
  destruct (json_dumps _) as [text|]; [|assumption].
  pose proof (stable_write_str (fun st => dicts st = D) Hs4 text w1 st1 H1)
    as H2.
  destruct (write_str _ w1 st1) as [[u|e|] st2]; cbn [snd] in *; try assumption.
  apply (stable_write_str (fun st => dicts st = D)); assumption.
Qed.

Lemma dicts_remove_listener e x st : dicts (remove_listener e x st) = dicts st.
Proof. unfold remove_listener. destruct (__l st !! e); reflexivity. Qed.

(** C9. [request] writes the event name into the dictionary that the
    caller passed, in place, whatever the dictionary held under "event";
    when the argument is omitted that dictionary is the one default object
    of the function, and what a call leaves in it is there for the next
    one. The same holds of [request_with_result], which passes its own
    payload on to [request]. *)
Theorem request_overwrites_event_in_place
    event data timeout w1 w2 script st d1 d2 :
  dicts st !! default request_default data = Some d1 ->
  dicts st !! default request_with_result_default data = Some d2 ->
  dicts (snd (request event data w1 w2 st))
  = <[default request_default data := dict_set "event" (JStr event) d1]>
      (dicts st)
  /\ dicts (snd (request_with_result event data timeout w1 w2 script st))
     = <[default request_with_result_default data
           := dict_set "event" (JStr event) d2]> (dicts st)
  /\ dict_get "event" (dict_set "event" (JStr event) d1) = Some (JStr event)
  /\ dict_get "event" (dict_set "event" (JStr event) d2) = Some (JStr event).
Proof.
  intros H1 H2. split; [apply dicts_request; assumption|].
  split; [|split; apply dict_get_set].
  unfold request_with_result, send_and_wait.
  set (a := default request_with_result_default data) in *.
  set (st0 := with_listener event st).
  assert (H0 : dicts st0 !! default request_default (Some a) = Some d2)
    by exact H2.
  pose proof (dicts_request event (Some a) w1 w2 st0 d2 H0) as Hreq.
  change (dicts st0) with (dicts st) in Hreq.
  change (default request_default (Some a)) with a in Hreq.
  set (D := <[a := dict_set "event" (JStr event) d2]> (dicts st)) in *.
  destruct (dicts_stable D) as (Hs1 & Hs2 & Hs3 & Hs4 & Hu & Ho & Hm).
  destruct (request event (Some a) w1 w2 st0) as [[u|e|] st1]; cbn [snd] in *.
  - assert (Hw : dicts (snd (wait (length (objs st)) timeout script st1)) = D).
    { apply (stable_wait (fun st => dicts st = D) (fun _ => True));
        try assumption.
      apply Forall_forall. intros; exact Logic.I. }
    destruct (wait (length (objs st)) timeout script st1) as [[u'|e|] st2];
      cbn [snd] in *; try rewrite dicts_remove_listener; assumption.
  - rewrite dicts_remove_listener. assumption.
  - assumption.
Qed.

Lemma request_overwrites_event_witness :
  dicts (snd (request "dialog" None [Wrote 19] [Wrote 2] init_state))
  = [[("event", JStr "dialog")]; []]
  /\ dicts (snd (request_with_result "dialog" None None [Wrote 19] [Wrote 2] []
                   init_state))
     = [[]; [("event", JStr "dialog")]].
Proof.
  destruct (request_overwrites_event_in_place
              "dialog" None None [Wrote 19] [Wrote 2] [] init_state [] []
              eq_refl eq_refl) as (H1 & H2 & _).
  split; [exact H1|exact H2].
Defined.

(** The default dictionary is shared by the calls: what a call without
    payload wrote is what the next call without payload finds and
    overwrites. *)
Example request_default_is_shared :
  let st1 := snd (request "dialog" None [Wrote 19] [Wrote 2]
                    (set_s (Some port0) init_state)) in
  let st2 := snd (request "input_text" None [Wrote 23] [Wrote 2] st1) in
  dicts st1 !! request_default = Some [("event", JStr "dialog")]
  /\ dicts st2 !! request_default = Some [("event", JStr "input_text")]
  /\ wire st2
     = [ IoWrite (b (dq "{'event': 'dialog'}")); IoWrite (b (String CR (String LF "")));
         IoWrite (b (dq "{'event': 'input_text'}")); IoWrite (b (String CR (String LF ""))) ].
Proof. vm_compute. repeat split; reflexivity. Qed.

(** ** Reading a line *)

Lemma polled_app xs ys : polled (xs ++ ys) = polled xs ++ polled ys.
Proof. unfold polled. rewrite map_app, concat_app. reflexivity. Qed.

Lemma polled_one p data : p_read p = ReadBytes data -> polled [p] = data.
Proof. intros H. unfold polled. cbn. rewrite H. apply app_nil_r. Qed.

(** While the loop goes on, the polls only extend the buffer. *)
Lemma read_until_loop_on end_ timeout before :
  forall pre rest buffer st,
    __s st ≠ None ->
    polls_on end_ timeout before buffer pre = true ->
    read_until_loop end_ timeout before buffer (pre ++ rest) st
    = read_until_loop end_ timeout before (buffer ++ polled pre) rest st.
Proof.
  induction pre as [|p pre IH]; intros rest buffer st Hs Hon.
  - cbn. rewrite app_nil_r. reflexivity.
  - cbn [polls_on] in Hon.
    apply andb_prop in Hon as [Hon Hrest]. apply andb_prop in Hon as [Hgo Hsl].
    unfold goes_on in Hgo.
    cbn [app read_until_loop].
    destruct (__s st) as [ser|] eqn:Es; [|contradiction].
    destruct (p_read p) as [data|] eqn:Er; [|discriminate].
    apply negb_true_iff in Hgo. rewrite Hgo.
    destruct (p_sleep p); try discriminate.
    rewrite (polled_one p data Er) in Hrest.
    rewrite IH by (assumption || congruence).
    change (p :: pre) with ([p] ++ pre).
    rewrite polled_app, (polled_one p data Er), app_assoc. reflexivity.
Qed.

Lemma read_until_loop_pending end_ timeout before pre buffer st :
  __s st ≠ None ->
  polls_on end_ timeout before buffer pre = true ->
  read_until_loop end_ timeout before buffer pre st = (Pending, st).
Proof.
  intros Hs Hon.
  rewrite <- (app_nil_r pre), read_until_loop_on by assumption.
  cbn. destruct (__s st); [reflexivity|contradiction].
Qed.

(** C5. [read_until] returns at the first poll after which the buffer ends
    with the delimiter or the timeout, counted from the start of the call,
    has elapsed, and not before: as long as neither holds the call is still
    suspended, and what it then returns is everything received so far,
    whether it ends with the delimiter or not. *)
Theorem read_until_returns_at_first_end
    end_ timeout before pre p rest data st :
  __s st ≠ None ->
  polls_on end_ timeout before [] pre = true ->
  p_read p = ReadBytes data ->
  endswith (polled pre ++ data) end_ || timed_out timeout before (p_now p)
  = true ->
  read_until end_ timeout before pre st = (Pending, st)
  /\ read_until end_ timeout before (pre ++ p :: rest) st
     = (Ret (Some (polled pre ++ data)), st).
Proof.
  intros Hs Hon Hr Hend. unfold read_until. split.
  - apply read_until_loop_pending; assumption.
  - rewrite read_until_loop_on by assumption.
    cbn. destruct (__s st); [|contradiction].
    rewrite Hr, Hend. reflexivity.
Qed.

(** C10. Without a transport handle [read_until] returns [None], with or
    without a timeout: when the handle is absent at the call, and when it
    is cleared during a sleep of the loop, whatever the buffer holds by
    then. *)
Theorem read_until_returns_None_without_handle
    end_ timeout before polls pre p rest st :
  __s st = None
  \/ (polls = pre ++ p :: rest
      /\ polls_on end_ timeout before [] pre = true
      /\ goes_on end_ timeout before (polled pre) p = true
      /\ p_sleep p = ResumedHandleCleared) ->
  fst (read_until end_ timeout before polls st) = Ret None.
Proof.
  intros [Hs|(-> & Hon & Hgo & Hsl)]; unfold read_until.
  - destruct polls; cbn; rewrite Hs; reflexivity.
  - destruct (__s st) as [ser|] eqn:Es.
    + rewrite read_until_loop_on by (assumption || congruence).
      cbn. rewrite Es. unfold goes_on in Hgo.
      destruct (p_read p) as [data|]; [|discriminate].
      apply negb_true_iff in Hgo. rewrite Hgo, Hsl.
      destruct rest; reflexivity.
    + destruct (pre ++ p :: rest); cbn; rewrite Es; reflexivity.
Qed.

Lemma read_until_returns_at_first_end_witness :
  read_until newline None 0 (feed (b (dq "{'event':'x'}"))) st_open
  = (Pending, st_open)
  /\ read_until newline None 0
       (feed (b (dq "{'event':'x'}")) ++ [got (byte_of_ascii LF) 0 Resumed])
       st_open
     = (Ret (Some frame_x), st_open).
Proof.
  apply (read_until_returns_at_first_end newline None 0
           (feed (b (dq "{'event':'x'}"))) (got (byte_of_ascii LF) 0 Resumed)
           [] [byte_of_ascii LF] st_open).
  - discriminate.
  - vm_compute. reflexivity.
  - reflexivity.
  - vm_compute. reflexivity.
Defined.

(** No delimiter arrives; with a timeout of 250 ms the call that started
    at time 0 returns what it has at the first poll later than 250, however
    recently the last byte came. *)
Example read_until_timeout_fallback :
  read_until newline (Some 250%Z) 0
    [ idle 100 Resumed; got (byte_of_ascii "a") 240 Resumed;
      idle 250 Resumed; idle 251 Resumed; got (byte_of_ascii "b") 252 Resumed ]
    st_open
  = (Ret (Some (b "a")), st_open).
Proof. vm_compute. reflexivity. Qed.

Lemma read_until_returns_None_witness :
  fst (read_until newline None 0
         [ got (byte_of_ascii "a") 1 Resumed;
           idle 2 ResumedHandleCleared;
           got (byte_of_ascii LF) 3 Resumed ] st_open)
  = Ret None.
Proof.
  apply (read_until_returns_None_without_handle newline None 0 _
           [got (byte_of_ascii "a") 1 Resumed] (idle 2 ResumedHandleCleared)
           [got (byte_of_ascii LF) 3 Resumed] st_open).
  right. repeat split; vm_compute; reflexivity.
Defined.

(** ** The read loop *)

(** A call of [read_until] that returns bytes has left the state as it
    was. *)
Lemma read_until_loop_bytes end_ timeout before :
  forall polls buffer st data st',
    read_until_loop end_ timeout before buffer polls st = (Ret (Some data), st') ->
    st' = st.
Proof.
  induction polls as [|p polls IH]; intros buffer st data st' H; cbn in H.
  - destruct (__s st); discriminate.
  - destruct (__s st) as [ser|] eqn:Es; [|discriminate].
    destruct (p_read p); [|discriminate].
    destruct (_ || _); [injection H as _ <-; reflexivity|].
    destruct (p_sleep p); [eapply IH; eassumption| |discriminate].
    (* the handle was cleared: the next check ends the loop with None *)
    destruct polls; cbn in H; discriminate.
Qed.

(** The dispatch itself is never left suspended, and only a cancellation
    during its [gather] makes it raise [CancelledError]. *)
Lemma for_listeners_callback_result event data used :
  forall todo tasks st,
    match fst (for_listeners (fun x => call_callback x data) event used
                 todo tasks st) with
    | Ret _ | Raise RuntimeError | Raise ListenerError | Raise AttributeError
      => True
    | _ => False
    end.
Proof.
  induction todo as [|x todo IH]; intros tasks st; cbn.
  - destruct (decide _) as [Hsz|Hsz]; exact Logic.I.
  - destruct (decide _) as [Hsz|Hsz]; [|exact Logic.I].
    unfold call_callback.
    destruct (objs st !! x) as [[ev ret bgt|ev q bgt c|[ops [|]|r] cn got k]|];
      cbn; try exact Logic.I; apply IH.
Qed.

Lemma trigger_listener_gathered event data others st :
  match fst (trigger_listener event data (Gathered others) st) with
  | Ret _ | Raise RuntimeError | Raise ListenerError | Raise AttributeError
    => True
  | _ => False
  end.
Proof.
  unfold trigger_listener.
  destruct (__l st !! event) as [set_|]; [|exact Logic.I].
  pose proof (for_listeners_callback_result event data (size set_)
                (elements set_) [] st) as H.
  destruct (for_listeners _ event (size set_) (elements set_) [] st)
    as [[[|t tasks]|e|] st1]; cbn in *; try exact Logic.I; exact H.
Qed.

(** A dispatch all of whose callbacks are quiet, for the listeners that
    the event has, if any. *)
Lemma trigger_listener_quiet_of event data others st :
  (forall x, x ∈ listeners_of event st ->
     exists o, objs st !! x = Some o /\ quiet event o) ->
  exists st',
    trigger_listener event data (Gathered others) st = (Ret tt, st')
    /\ (forall y, objs st' !! y
          = if decide (y ∈ listeners_of event st)
            then deliver data <$> objs st !! y else objs st !! y)
    /\ __s st' = __s st /\ wire st' = wire st.
Proof.
  intros Hall.
  destruct (link_is_stable st) as (Lu & Lo & Lm).
  assert (Hlink0 : link_is st st) by (repeat split).
  assert (Hok : Forall (fun _ : reg_op => True) (gather_ops (Gathered others))).
  { apply Forall_forall. intros; exact Logic.I. }
  pose proof (stable_trigger_listener (link_is st) _ Lu Lo Lm
                event data (Gathered others) st Hok Hlink0)
    as (Hs & _ & _ & Hw & _).
  destruct (__l st !! event) as [set_|] eqn:Eset.
  - destruct (trigger_listener_quiet event data others st set_ Eset)
      as (st' & Hrun & Hobj).
    + intros x Hx. apply Hall. unfold listeners_of. rewrite Eset. exact Hx.
    + rewrite Hrun in Hs, Hw. cbn [snd] in Hs, Hw.
      exists st'. split; [exact Hrun|]. split; [|split; assumption].
      intros y. rewrite Hobj. unfold listeners_of. rewrite Eset. reflexivity.
  - assert (Hrun : trigger_listener event data (Gathered others) st
                   = (Ret tt, st)).
    { unfold trigger_listener. rewrite Eset. reflexivity. }
    exists st. split; [exact Hrun|]. split; [|split; reflexivity].
    intros y. unfold listeners_of. rewrite Eset. cbn.
    rewrite decide_False by set_solver. reflexivity.
Qed.

(** C6. A line on which [json.load] raises changes nothing and the loop
    goes on: the turn that receives it leaves the protocol as it was, no
    callback being run, and whatever turns follow go as if the bad line
    had never come; the frame of the next turn is decoded and handed to
    every listener of its event, and to no other object. (For the
    delivery the callbacks of that event are taken to be quiet: what a
    callback that raises or changes the set does to a dispatch is the
    matter of C1 and C7.) *)
Theorem listen_survives_malformed_line
    bad good its c st data data' d event others :
  __s st ≠ None ->
  fst (read_until newline None (it_before bad) (it_polls bad) st)
  = Ret (Some data) ->
  load_fails data bad ->
  it_sleep bad = Resumed ->
  fst (read_until newline None (it_before good) (it_polls good) st)
  = Ret (Some data') ->
  json_load data' = POk (JDict d) ->
  dict_get "event" d = Some (JStr event) ->
  (forall x, x ∈ listeners_of event st ->
     exists o, objs st !! x = Some o /\ quiet event o) ->
  it_dispatch good = Gathered others ->
  it_sleep good = Resumed ->
  listen_turn bad c st = (Again, st)
  /\ (forall turns, listen_loop (bad :: turns) c st = listen_loop turns c st)
  /\ exists st',
       listen_turn good c st = (Again, st')
       /\ listen_loop (bad :: good :: its) c st = listen_loop its c st'
       /\ (forall y, y ∈ listeners_of event st ->
             objs st' !! y = deliver (JDict d) <$> objs st !! y)
       /\ (forall y, y ∉ listeners_of event st ->
             objs st' !! y = objs st !! y)
       /\ __s st' = __s st
       /\ wire st' = wire st.
Proof.
  intros Hs Hbad Herr Hsl Hgood Hok Hev Hquiet Hg Hsl'.
  unfold read_until in *.
  assert (Hb : read_until_loop newline None (it_before bad) [] (it_polls bad) st
               = (Ret (Some data), st)).
  { destruct (read_until_loop newline None (it_before bad) [] (it_polls bad) st)
      as [r st1] eqn:E. cbn in Hbad. subst r.
    apply read_until_loop_bytes in E as ->. reflexivity. }
  assert (Hgd : read_until_loop newline None (it_before good) [] (it_polls good) st
               = (Ret (Some data'), st)).
  { destruct (read_until_loop newline None (it_before good) [] (it_polls good) st)
      as [r st1] eqn:E. cbn in Hgood. subst r.
    apply read_until_loop_bytes in E as ->. reflexivity. }
  destruct (trigger_listener_quiet_of event (JDict d) others st Hquiet)
    as (st' & Hrun & Hobj & Hs' & Hw').
  assert (H1 : listen_turn bad c st = (Again, st)).
  { unfold listen_turn, listen_body.
    destruct (__s st); [|contradiction].
    rewrite Hb. destruct Herr as [-> | [-> ->]]; rewrite Hsl; reflexivity. }
  assert (H2 : listen_turn good c st = (Again, st')).
  { unfold listen_turn, listen_body, dispatch_frame.
    destruct (__s st); [|contradiction].
    rewrite Hgd, Hok, Hev, Hg, Hrun, Hsl'. reflexivity. }
  assert (H3 : forall turns,
            listen_loop (bad :: turns) c st = listen_loop turns c st).
  { intros turns. cbn [listen_loop]. destruct (__s st) eqn:Es; [|contradiction].
    rewrite H1. destruct turns; cbn [listen_loop]; rewrite Es; reflexivity. }
  split; [exact H1|]. split; [exact H3|].
  exists st'. split; [exact H2|]. split.
  - rewrite H3. cbn [listen_loop]. destruct (__s st) eqn:Es; [|contradiction].
    rewrite H2. reflexivity.
  - split; [|split; [|split; assumption]]; intros y Hy; rewrite Hobj.
    + rewrite decide_True by exact Hy. reflexivity.
    + rewrite decide_False by exact Hy. reflexivity.
Qed.

Lemma listen_survives_malformed_line_witness :
  listen_turn (turn_of (line "not json")) no_gather st_live = (Again, st_live)
  /\ (forall turns,
        listen_loop (turn_of (line "not json") :: turns) no_gather st_live
        = listen_loop turns no_gather st_live)
  /\ exists st',
       listen_turn (turn_of frame_x) no_gather st_live = (Again, st')
       /\ listen_loop [turn_of (line "not json"); turn_of frame_x] no_gather
            st_live
          = listen_loop [] no_gather st'
       /\ (forall y, y ∈ listeners_of "x" st_live ->
             objs st' !! y = deliver msg_x <$> objs st_live !! y)
       /\ (forall y, y ∉ listeners_of "x" st_live ->
             objs st' !! y = objs st_live !! y)
       /\ __s st' = __s st_live
       /\ wire st' = wire st_live.
Proof.
  apply (listen_survives_malformed_line
           (turn_of (line "not json")) (turn_of frame_x) [] no_gather st_live
           (line "not json") frame_x [("event", JStr "x")] "x" []).
  - discriminate.
  - vm_compute. reflexivity.
  - left. vm_compute. reflexivity.
  - reflexivity.
  - vm_compute. reflexivity.
  - vm_compute. reflexivity.
  - reflexivity.
  - intros x Hx. apply elem_of_elements in Hx. vm_compute in Hx.
    apply elem_of_cons in Hx as [->|Hx]; [eexists; split; [reflexivity|exact I]|].
    apply elem_of_cons in Hx as [->|Hx]; [eexists; split; [reflexivity|exact I]|].
    apply elem_of_cons in Hx as [->|Hx]; [eexists; split; [reflexivity|exact I]|].
    inversion Hx.
  - reflexivity.
  - reflexivity.
Defined.

(** Bytes that are no text: the loop goes on as after any other bad
    line. *)
Example listen_skips_undecodable_bytes :
  let it := {| it_before := 0; it_polls := feed (b "{" ++ [byte_of_ascii "255"] ++ newline);
               it_load := LoadRaises; it_dispatch := Gathered [];
               it_sleep := Resumed |} in
  listen_turn it no_gather st_live = (Again, st_live).
Proof. vm_compute. reflexivity. Qed.

(** ** The clean-up *)

Lemma calm_deliver data o : calm o -> calm (deliver data o).
Proof. destruct o; cbn; auto. Qed.

Lemma calm_cancel_body o : calm o -> calm (cancel_body o).
Proof. destruct o; cbn; auto. Qed.

Lemma calm_quiet event o : calm o -> quiet event o.
Proof.
  destruct o as [| |[ops r|r] cn got k]; cbn; auto.
  intros [[-> ->] _]. split; [reflexivity|constructor].
Qed.

Lemma calm_obj_ops o : calm o -> obj_ops o = [].
Proof.
  destruct o as [| |[ops r|r] [ops' r'|r'] got k]; cbn; auto; try tauto.
  intros [[-> _] _]. reflexivity.
Qed.


(** With calm objects only, a dispatch and a round of cancellations leave
    the registry and the link alone. *)
Lemma registry_is_stable L :
  let I := registry_is L in
  let ok := fun _ : reg_op => False in
  (forall y f st, (forall o, obj_ops (f o) = obj_ops o) ->
     I st -> I (update_obj y f st))
  /\ (forall o st, ok o -> I st -> I (run_op o st))
  /\ (forall st y o, I st -> objs st !! y = Some o -> Forall ok (obj_ops o)).
Proof.
  cbn. split; [|split].
  - intros y f st Hf [H1 H2]. split.
    + unfold update_obj. destruct (objs st !! y); exact H1.
    + intros z o. rewrite lookup_update_obj.
      destruct (decide (z = y)) as [->|Hne]; [|apply H2].
      destruct (objs st !! y) as [o'|] eqn:E; cbn; [|discriminate].
      intros [= <-]. rewrite Hf. eapply H2; eassumption.
  - intros o st [].
  - intros st y o [_ H2] Hy. rewrite (H2 y o Hy). constructor.
Qed.

Lemma all_calm_registry st : all_calm st -> registry_is (__l st) st.
Proof.
  intros [Hc _]. split; [reflexivity|].
  intros x o Hx. apply calm_obj_ops. eapply Hc; eassumption.
Qed.

(** The dispatch of an event among calm objects. *)
Lemma trigger_listener_calm event data st :
  all_calm st ->
  exists st1,
    trigger_listener event data (Gathered []) st = (Ret tt, st1)
    /\ (forall y, objs st1 !! y
          = if decide (y ∈ listeners_of event st)
            then deliver data <$> objs st !! y else objs st !! y)
    /\ __l st1 = __l st
    /\ link_is st st1.
Proof.
  intros Hcalm. pose proof Hcalm as [Hc Hreg].
  destruct (registry_is_stable (__l st)) as (Ru & Ro & Rm).
  destruct (link_is_stable st) as (Lu & Lo & Lm).
  pose proof (stable_trigger_listener (registry_is (__l st)) _ Ru Ro Rm
                event data (Gathered []) st (ListDef.Forall_nil _)
                (all_calm_registry st Hcalm)) as [HL _].
  assert (Hlink0 : link_is st st) by (repeat split).
  pose proof (stable_trigger_listener (link_is st) _ Lu Lo Lm
                event data (Gathered []) st
                (ListDef.Forall_nil _) Hlink0) as Hlink.
  destruct (__l st !! event) as [set_|] eqn:Eset.
  - destruct (trigger_listener_quiet event data [] st set_ Eset)
      as (st1 & Hrun & Hobj).
    + intros x Hx.
      destruct (Hreg event x) as [o Ho].
      { unfold listeners_of. rewrite Eset. exact Hx. }
      exists o. split; [exact Ho|]. apply calm_quiet. eapply Hc; eassumption.
    + rewrite Hrun in HL, Hlink. cbn [snd] in HL, Hlink.
      exists st1. split; [exact Hrun|]. split; [|split; assumption].
      intros y. rewrite Hobj. unfold listeners_of. rewrite Eset. reflexivity.
  - assert (Hrun : trigger_listener event data (Gathered []) st = (Ret tt, st)).
    { unfold trigger_listener. rewrite Eset. reflexivity. }
    exists st. split; [exact Hrun|]. split; [|split; [reflexivity|exact Hlink0]].
    intros y. unfold listeners_of. rewrite Eset. cbn.
    rewrite decide_False by set_solver. reflexivity.
Qed.

Lemma call_cancel_calm x st o :
  objs st !! x = Some o -> calm o -> call_cancel x st = (Ret true, st).
Proof.
  intros Hx Hc. unfold call_cancel. rewrite Hx.
  destruct o as [| |cb [ops r|r] got k]; cbn in *; try reflexivity. tauto.
Qed.

Lemma for_listeners_cancel_calm event used :
  forall todo tasks st,
    size (listeners_of event st) = used ->
    (forall x, x ∈ todo -> exists o, objs st !! x = Some o /\ calm o) ->
    for_listeners call_cancel event used todo tasks st
    = (Ret (tasks ++ todo), st).
Proof.
  induction todo as [|x todo IH]; intros tasks st Hsz Hall; cbn.
  - rewrite decide_True by assumption. rewrite app_nil_r. reflexivity.
  - rewrite decide_True by assumption.
    destruct (Hall x) as (o & Ho & Hc); [left|].
    rewrite (call_cancel_calm x st o Ho Hc).
    rewrite IH; [|assumption|intros y Hy; apply Hall; right; assumption].
    rewrite <- app_assoc. reflexivity.
Qed.

Lemma for_events_calm used :
  forall todo tasks st,
    size (__l st) = used ->
    (forall e s, (e, s) ∈ todo -> __l st !! e = Some s) ->
    all_calm st ->
    for_events used todo tasks st
    = (Ret (tasks ++ concat (map (fun es => elements (snd es)) todo)), st).
Proof.
  induction todo as [|[e s] todo IH]; intros tasks st Hsz Hin Hcalm; cbn.
  - rewrite decide_True by assumption. rewrite app_nil_r. reflexivity.
  - rewrite decide_True by assumption.
    assert (Hs : listeners_of e st = s).
    { unfold listeners_of. rewrite (Hin e s) by left. reflexivity. }
    rewrite Hs.
    rewrite for_listeners_cancel_calm.
    + rewrite IH; [|assumption| |assumption].
      * rewrite <- app_assoc. reflexivity.
      * intros e' s' H'. apply Hin. right. assumption.
    + rewrite Hs. reflexivity.
    + intros x Hx. apply elem_of_elements in Hx.
      destruct Hcalm as [Hc Hreg].
      destruct (Hreg e x) as [o Ho]; [rewrite Hs; exact Hx|].
      exists o. split; [exact Ho|]. eapply Hc; eassumption.
Qed.

Lemma cancel_all_listener_calm st :
  all_calm st ->
  cancel_all_listener (Gathered []) st
  = (Ret tt, run_cancels (registered st) st).
Proof.
  intros Hcalm. unfold cancel_all_listener.
  rewrite for_events_calm; [|reflexivity| |assumption].
  - cbn [app]. fold (registered st).
    destruct (registered st); reflexivity.
  - intros e s H. apply elem_of_map_to_list in H. exact H.
Qed.

Lemma lookup_run_cancels tasks :
  forall st x,
    objs (run_cancels tasks st) !! x
    = Nat.iter (length (filter (fun y => y = x) tasks)) cancel_body
        <$> objs st !! x.
Proof.
  induction tasks as [|t tasks IH]; intros st x; cbn.
  - destruct (objs st !! x); reflexivity.
  - unfold run_cancels in IH. rewrite IH, lookup_update_obj.
    destruct (decide (t = x)) as [->|Hne].
    + rewrite (decide_True (P:=(x = x))) by reflexivity.
      cbn [length]. destruct (objs st !! x) as [o|]; cbn; [|reflexivity].
      rewrite <- Nat.iter_succ_r. reflexivity.
    + rewrite (decide_False (P:=(x = t))) by congruence. reflexivity.
Qed.

Lemma run_cancels_frame tasks :
  forall st,
    __l (run_cancels tasks st) = __l st /\ link_is st (run_cancels tasks st).
Proof.
  induction tasks as [|t tasks IH]; intros st; cbn.
  - repeat split.
  - unfold run_cancels in IH.
    destruct (IH (update_obj t cancel_body st)) as (H1 & H2).
    unfold update_obj in *. destruct (objs st !! t); split; assumption.
Qed.

Lemma registered_once e x st :
  x ∈ listeners_of e st -> 1 <= registrations x st.
Proof.
  intros Hx. unfold listeners_of in Hx.
  destruct (__l st !! e) as [s|] eqn:E; cbn in Hx; [|set_solver].
  assert (Hin : x ∈ registered st).
  { unfold registered. apply list_elem_of_In, in_concat.
    exists (elements s). split.
    - apply in_map_iff. exists (e, s). split; [reflexivity|].
      apply list_elem_of_In, elem_of_map_to_list. exact E.
    - apply list_elem_of_In, elem_of_elements. exact Hx. }
  unfold registrations.
  assert (Hf : x ∈ filter (fun y => y = x) (registered st)).
  { apply list_elem_of_filter. split; [reflexivity|exact Hin]. }
  destruct (filter _ _); [inversion Hf|cbn; lia].
Qed.

Lemma registered_same_registry st st' :
  __l st' = __l st -> registered st' = registered st.
Proof. intros H. unfold registered. rewrite H. reflexivity. Qed.

Lemma listeners_of_same_registry e st st' :
  __l st' = __l st -> listeners_of e st' = listeners_of e st.
Proof. intros H. unfold listeners_of. rewrite H. reflexivity. Qed.

(** What [_clean_up] does among calm objects when no task interferes. *)
Lemma clean_up_calm st :
  all_calm st ->
  exists st',
    _clean_up no_gather st = (Ret tt, st')
    /\ (forall x, objs st' !! x
          = (fun o => Nat.iter (registrations x st) cancel_body
                        (if decide (x ∈ listeners_of "closed" st)
                         then deliver closed_message o else o))
            <$> objs st !! x)
    /\ __l st' = __l st
    /\ (__s st', wire st') = closed_transport st
    /\ __lt st' = None
    /\ __v st' = JInt 0.
Proof.
  intros Hcalm. pose proof Hcalm as [Hc Hreg].
  destruct (trigger_listener_calm "closed" closed_message st Hcalm)
    as (st1 & Hrun1 & Hobj1 & HL1 & Hlink1).
  assert (Hcalm1 : all_calm st1).
  { split.
    - intros x o. rewrite Hobj1.
      destruct (decide _) as [Hin|Hin]; [|apply Hc].
      destruct (objs st !! x) as [o'|] eqn:E; cbn; [|discriminate].
      intros [= <-]. apply calm_deliver. eapply Hc; eassumption.
    - intros e x. rewrite (listeners_of_same_registry e st st1 HL1).
      intros Hx. rewrite Hobj1.
      destruct (Hreg e x Hx) as [o Ho]. rewrite Ho.
      destruct (decide _); cbn; eexists; reflexivity. }
  pose proof (cancel_all_listener_calm st1 Hcalm1) as Hrun2.
  destruct (run_cancels_frame (registered st1) st1) as (HL2 & Hlink2).
  set (st2 := run_cancels (registered st1) st1) in *.
  unfold _clean_up. cbn [c_trigger c_cancel no_gather].
  rewrite Hrun1, Hrun2.
  eexists. split; [reflexivity|].
  destruct Hlink1 as (Hs1 & _ & _ & Hw1 & _).
  destruct Hlink2 as (Hs2 & _ & _ & Hw2 & _).
  assert (Hobjs : forall x,
    objs st2 !! x
    = (fun o => Nat.iter (registrations x st) cancel_body
                  (if decide (x ∈ listeners_of "closed" st)
                   then deliver closed_message o else o))
      <$> objs st !! x).
  { intros x. unfold st2. rewrite lookup_run_cancels, Hobj1.
    rewrite (registered_same_registry st st1 HL1).
    fold (registrations x st).
    destruct (decide _); destruct (objs st !! x); reflexivity. }
  assert (Hreg2 : __l st2 = __l st) by congruence.
  unfold closed_transport. rewrite <- Hs1, <- Hs2, <- Hw1, <- Hw2.
  destruct (__s st2) as [ser|] eqn:Es; cbn.
  - destruct (ser_closed ser) eqn:Ecl; cbn.
    + repeat split; try assumption. rewrite Es. reflexivity.
    + repeat split; assumption.
  - repeat split; try assumption. rewrite Es. reflexivity.
Qed.

(** *** The other tasks during the two gathers *)

Lemma registry_run_op o st st' :
  __l st = __l st' -> __l (run_op o st) = __l (run_op o st').
Proof.
  intros H. destruct o as [e x|e x]; cbn; unfold add_listener, remove_listener;
    rewrite H.
  - reflexivity.
  - destruct (__l st' !! e); cbn; [reflexivity|exact H].
Qed.

Lemma registry_run_ops ops :
  forall st st', __l st = __l st' -> __l (run_ops ops st) = __l (run_ops ops st').
Proof.
  unfold run_ops.
  induction ops as [|o ops IH]; intros st st' H; cbn; [exact H|].
  apply IH, registry_run_op, H.
Qed.

Lemma link_is_run_ops ops st0 st : link_is st0 st -> link_is st0 (run_ops ops st).
Proof.
  destruct (link_is_stable st0) as (_ & Lo & _).
  apply (stable_run_ops (link_is st0) _ Lo).
  apply Forall_forall. intros; exact Logic.I.
Qed.

Lemma during_same (tasks tasks' : list nat) (others : list reg_op) :
  (tasks = [] <-> tasks' = []) -> during tasks others = during tasks' others.
Proof.
  intros [H1 H2]. destruct tasks, tasks'; try reflexivity.
  - discriminate (H1 eq_refl).
  - discriminate (H2 eq_refl).
Qed.

(** The coroutines that a dispatch collects are those of the listeners
    whose callback is an [async def]; the other tasks run while it awaits
    them, and not at all when there is none. *)
Lemma trigger_listener_during event data others st :
  (forall x, x ∈ listeners_of event st ->
     exists o, objs st !! x = Some o /\ quiet event o) ->
  exists st0,
    trigger_listener event data (Gathered []) st = (Ret tt, st0)
    /\ trigger_listener event data (Gathered others) st
       = (Ret tt, run_ops (during (awaited event st) others) st0).
Proof.
  intros Hall.
  assert (Haw : awaited event st
                = List.filter
                    (fun x => match objs st !! x with
                              | Some o => is_coroutine o
                              | None => false
                              end) (elements (default ∅ (__l st !! event))))
    by reflexivity.
  rewrite Haw. clear Haw. unfold trigger_listener, listeners_of in *.
  destruct (__l st !! event) as [set_|] eqn:Eset;
    cbn [default from_option id] in *.
  - destruct (for_listeners_quiet event data (size set_) (elements set_) [] st)
      as (tasks & st1 & Hrun & Hl1 & Hnd & Hin & Hobj).
    + apply NoDup_elements.
    + unfold listeners_of. rewrite Eset. reflexivity.
    + intros x Hx. apply Hall. apply elem_of_elements. exact Hx.
    + rewrite Hrun. cbn [app].
      assert (Hsame : tasks = []
                      <-> List.filter
                            (fun x => match objs st !! x with
                                      | Some o => is_coroutine o
                                      | None => false
                                      end) (elements set_) = []).
      { split.
        - intros ->. destruct (List.filter _ _) as [|y l] eqn:E; [reflexivity|].
          assert (Hy : In y (List.filter
                               (fun x => match objs st !! x with
                                         | Some o => is_coroutine o
                                         | None => false
                                         end) (elements set_)))
            by (rewrite E; left; reflexivity).
          apply filter_In in Hy as [Hy1 Hy2].
          assert (Hy' : y ∈ []).
          { apply Hin. split; [apply list_elem_of_In; exact Hy1|].
            destruct (objs st !! y) as [o|]; [|discriminate].
            exists o. split; [reflexivity|exact Hy2]. }
          inversion Hy'.
        - intros E. destruct tasks as [|t tasks]; [reflexivity|].
          assert (Ht : t ∈ t :: tasks) by left.
          apply Hin in Ht as (Ht & o & Ho & Hc).
          assert (Hf : In t (List.filter
                               (fun x => match objs st !! x with
                                         | Some o => is_coroutine o
                                         | None => false
                                         end) (elements set_))).
          { apply filter_In. split; [apply list_elem_of_In; exact Ht|].
            rewrite Ho. exact Hc. }
          rewrite E in Hf. destruct Hf. }
      rewrite <- (during_same tasks _ others Hsame).
      destruct tasks as [|t tasks]; eexists; split; reflexivity.
  - rewrite elements_empty. cbn. exists st. split; reflexivity.
Qed.

(** *** The clean-up among listeners of any kind *)

Lemma callback_calm_quiet event o : callback_calm o -> quiet event o.
Proof.
  destruct o as [| |[ops r|r] cn got k]; cbn; auto.
  intros [-> ->]. split; [reflexivity|constructor].
Qed.

Lemma callback_calm_deliver data o : callback_calm o -> callback_calm (deliver data o).
Proof. destruct o as [| |[ops r|r] cn got k]; cbn; auto. Qed.

Lemma cancel_calm_deliver data o : cancel_calm o -> cancel_calm (deliver data o).
Proof. destruct o as [| |cb [ops r|r] got k]; cbn; auto. Qed.

Lemma cancel_calm_cancel_body o : cancel_calm o -> cancel_calm (cancel_body o).
Proof. destruct o as [| |cb [ops r|r] got k]; cbn; auto. Qed.

Lemma all_calm_tidy st : all_calm st -> tidy st.
Proof.
  intros [Hc Hreg]. split; [|split; [|exact Hreg]].
  - intros x Hx. destruct (Hreg "closed" x Hx) as [o Ho].
    exists o. split; [exact Ho|].
    specialize (Hc x o Ho). destruct o as [| |[ops r|r] cn got k]; cbn in *; tauto.
  - intros x o Ho. specialize (Hc x o Ho).
    destruct o as [| |cb [ops r|r] got k]; cbn in *; tauto.
Qed.

Lemma registry_update_obj x f st : __l (update_obj x f st) = __l st.
Proof. unfold update_obj. destruct (objs st !! x); reflexivity. Qed.

Lemma registry_run_callbacks tasks data :
  forall st, __l (run_callbacks tasks data st) = __l st.
Proof.
  unfold run_callbacks.
  induction tasks as [|x tasks IH]; intros st; cbn; [reflexivity|].
  rewrite IH. apply registry_update_obj.
Qed.

Lemma trigger_listener_link event data g st :
  link_is st (snd (trigger_listener event data g st)).
Proof.
  destruct (link_is_stable st) as (Lu & Lo & Lm).
  apply (stable_trigger_listener (link_is st) _ Lu Lo Lm).
  - apply Forall_forall. intros; exact Logic.I.
  - repeat split.
Qed.

Lemma call_callback_registry x data st o :
  objs st !! x = Some o -> callback_calm o ->
  __l (snd (call_callback x data st)) = __l st.
Proof.
  intros Hx Hc. unfold call_callback. rewrite Hx.
  destruct o as [ev ret bgt|ev q bgt c|[ops r|r] cn got k]; cbn in *.
  - apply registry_update_obj.
  - apply registry_update_obj.
  - destruct Hc as [-> ->]. cbn. apply registry_update_obj.
  - reflexivity.
Qed.

(** Callbacks that do not call the registry leave it as it is. *)
Lemma for_listeners_callback_registry event data used :
  forall todo tasks st,
    (forall x, x ∈ todo -> exists o, objs st !! x = Some o /\ callback_calm o) ->
    __l (snd (for_listeners (fun x => call_callback x data) event used
                todo tasks st))
    = __l st.
Proof.
  induction todo as [|x todo IH]; intros tasks st Hall; cbn.
  - destruct (decide _); reflexivity.
  - destruct (decide _) as [Hsz|Hsz]; [|reflexivity].
    destruct (Hall x) as (o & Ho & Hc); [left|].
    pose proof (call_callback_registry x data st o Ho Hc) as Hreg.
    destruct (call_callback_quiet event x data st o Ho
                (callback_calm_quiet event o Hc))
      as (st1 & Hcall & _ & Hobj1).
    rewrite Hcall in Hreg. cbn [snd] in Hreg. rewrite Hcall.
    assert (Hall1 : forall y, y ∈ todo ->
              exists o', objs st1 !! y = Some o' /\ callback_calm o').
    { intros y Hy. rewrite Hobj1. destruct (decide (y = x)) as [->|Hne].
      - eexists. split; [reflexivity|].
        destruct (is_coroutine o); [exact Hc|].
        apply callback_calm_deliver. exact Hc.
      - apply Hall. right. exact Hy. }
    destruct (is_coroutine o); rewrite IH by exact Hall1; exact Hreg.
Qed.

Lemma trigger_listener_registry event data st :
  (forall x, x ∈ listeners_of event st ->
     exists o, objs st !! x = Some o /\ callback_calm o) ->
  __l (snd (trigger_listener event data (Gathered []) st)) = __l st.
Proof.
  intros Hall. unfold trigger_listener.
  destruct (__l st !! event) as [set_|] eqn:Eset; [|reflexivity].
  pose proof (for_listeners_callback_registry event data (size set_)
                (elements set_) [] st) as H.
  destruct (for_listeners _ event (size set_) (elements set_) [] st)
    as [[[|t tasks]|e|] st1]; cbn [snd] in *.
  2: unfold run_ops; cbn [fold_left]; rewrite registry_run_callbacks.
  all: apply H; intros x Hx; apply Hall; unfold listeners_of; rewrite Eset;
    apply elem_of_elements; exact Hx.
Qed.

(** The dispatch of an event whose listeners have calm callbacks, the
    other tasks being at work. *)
Lemma trigger_listener_tidy event data others st :
  (forall x, x ∈ listeners_of event st ->
     exists o, objs st !! x = Some o /\ callback_calm o) ->
  exists st1,
    trigger_listener event data (Gathered others) st = (Ret tt, st1)
    /\ (forall y, objs st1 !! y
          = if decide (y ∈ listeners_of event st)
            then deliver data <$> objs st !! y else objs st !! y)
    /\ __l st1 = __l (run_ops (during (awaited event st) others) st)
    /\ link_is st st1.
Proof.
  intros Hall.
  assert (Hq : forall x, x ∈ listeners_of event st ->
                 exists o, objs st !! x = Some o /\ quiet event o).
  { intros x Hx. destruct (Hall x Hx) as (o & Ho & Hc).
    exists o. split; [exact Ho|]. apply callback_calm_quiet. exact Hc. }
  destruct (trigger_listener_during event data others st Hq)
    as (st0 & Hrun0 & Hrun).
  destruct (trigger_listener_quiet_of event data [] st Hq)
    as (st0' & Hrun0' & Hobj0 & _).
  rewrite Hrun0 in Hrun0'. injection Hrun0' as <-.
  pose proof (trigger_listener_registry event data st Hall) as HL0.
  pose proof (trigger_listener_link event data (Gathered []) st) as Hlink0.
  rewrite Hrun0 in HL0, Hlink0. cbn [snd] in HL0, Hlink0.
  eexists. split; [exact Hrun|]. split; [|split].
  - intros y. rewrite objs_run_ops. apply Hobj0.
  - apply registry_run_ops. exact HL0.
  - apply link_is_run_ops. exact Hlink0.
Qed.

Lemma async_cancel_update_obj y f st x :
  (forall o, match f o with Duck _ (Plain _ _) _ _ => false | _ => true end
             = match o with Duck _ (Plain _ _) _ _ => false | _ => true end) ->
  async_cancel (update_obj y f st) x = async_cancel st x.
Proof.
  intros Hf. unfold async_cancel. rewrite lookup_update_obj.
  destruct (decide (x = y)) as [->|]; [|reflexivity].
  destruct (objs st !! y) as [o|]; cbn; [|reflexivity].
  specialize (Hf o).
  destruct (f o) as [| |cb [|] got k], o as [| |cb' [|] got' k'];
    cbn in *; congruence.
Qed.

Lemma async_cancel_cancel_plain st y x :
  async_cancel (cancel_plain st y) x = async_cancel st x.
Proof.
  unfold cancel_plain. destruct (async_cancel st y); [reflexivity|].
  apply async_cancel_update_obj.
  intros [| |cb [|] got k]; reflexivity.
Qed.

Lemma call_cancel_tidy x st o :
  objs st !! x = Some o -> cancel_calm o ->
  call_cancel x st = (Ret (async_cancel st x), cancel_plain st x).
Proof.
  intros Hx Hc. unfold call_cancel, cancel_plain, async_cancel. rewrite Hx.
  destruct o as [| |cb [ops r|r] got k]; cbn in *; try reflexivity.
  destruct Hc as [-> ->]. reflexivity.
Qed.

(** What the steps of a round of cancellations keep. *)
Lemma cancel_plain_keeps st x :
  __l (cancel_plain st x) = __l st
  /\ link_is st (cancel_plain st x)
  /\ ((forall y o, objs st !! y = Some o -> cancel_calm o) ->
      forall y o, objs (cancel_plain st x) !! y = Some o -> cancel_calm o)
  /\ (forall y, is_Some (objs st !! y) -> is_Some (objs (cancel_plain st x) !! y)).
Proof.
  unfold cancel_plain. destruct (async_cancel st x).
  { split; [reflexivity|]. split; [repeat split|]. split; auto. }
  split; [apply registry_update_obj|]. split; [|split].
  - unfold update_obj. destruct (objs st !! x); repeat split.
  - intros Hall y o. rewrite lookup_update_obj.
    destruct (decide (y = x)) as [->|]; [|apply Hall].
    destruct (objs st !! x) as [o'|] eqn:E; cbn; [|discriminate].
    intros [= <-]. apply cancel_calm_cancel_body. eapply Hall. exact E.
  - intros y Hy. rewrite lookup_update_obj.
    destruct (decide (y = x)) as [->|]; [|exact Hy].
    destruct Hy as [o ->]. cbn. eauto.
Qed.

Lemma fold_cancel_plain_keeps regs :
  forall st,
    let st' := fold_left cancel_plain regs st in
    __l st' = __l st
    /\ link_is st st'
    /\ ((forall y o, objs st !! y = Some o -> cancel_calm o) ->
        forall y o, objs st' !! y = Some o -> cancel_calm o)
    /\ (forall y, is_Some (objs st !! y) -> is_Some (objs st' !! y))
    /\ (forall y, async_cancel st' y = async_cancel st y).
Proof.
  induction regs as [|r regs IH]; intros st; cbn.
  - split; [reflexivity|]. split; [repeat split|]. repeat split; auto.
  - destruct (cancel_plain_keeps st r) as (H1 & H2 & H3 & H4).
    destruct (IH (cancel_plain st r)) as (K1 & K2 & K3 & K4 & K5).
    cbn zeta in *.
    split; [congruence|]. split; [|split; [|split]].
    + destruct H2 as (A1 & A2 & A3 & A4 & A5).
      destruct K2 as (B1 & B2 & B3 & B4 & B5).
      repeat split; congruence.
    + intros Hall. apply K3, H3, Hall.
    + intros y Hy. apply K4, H4, Hy.
    + intros y. rewrite K5. apply async_cancel_cancel_plain.
Qed.

Lemma for_listeners_cancel_tidy event used :
  forall todo tasks st,
    size (listeners_of event st) = used ->
    (forall x o, objs st !! x = Some o -> cancel_calm o) ->
    (forall x, x ∈ todo -> is_Some (objs st !! x)) ->
    for_listeners call_cancel event used todo tasks st
    = (Ret (tasks ++ List.filter (async_cancel st) todo),
       fold_left cancel_plain todo st).
Proof.
  induction todo as [|x todo IH]; intros tasks st Hsz Hall Hex; cbn.
  - rewrite decide_True by assumption. rewrite app_nil_r. reflexivity.
  - rewrite decide_True by assumption.
    destruct (Hex x) as [o Ho]; [left|].
    rewrite (call_cancel_tidy x st o Ho (Hall x o Ho)).
    destruct (cancel_plain_keeps st x) as (H1 & _ & H3 & H4).
    assert (Hsz1 : size (listeners_of event (cancel_plain st x)) = used).
    { unfold listeners_of. rewrite H1. exact Hsz. }
    assert (Hex1 : forall y, y ∈ todo -> is_Some (objs (cancel_plain st x) !! y)).
    { intros y Hy. apply H4, Hex. right. exact Hy. }
    assert (Hf : List.filter (async_cancel (cancel_plain st x)) todo
                 = List.filter (async_cancel st) todo).
    { apply filter_ext. intros y. apply async_cancel_cancel_plain. }
    destruct (async_cancel st x);
      rewrite IH by (try exact Hsz1; try exact (H3 Hall); exact Hex1);
      rewrite Hf; [rewrite <- app_assoc|]; reflexivity.
Qed.

Lemma for_events_tidy used :
  forall todo tasks st,
    size (__l st) = used ->
    (forall e s, (e, s) ∈ todo -> __l st !! e = Some s) ->
    (forall x o, objs st !! x = Some o -> cancel_calm o) ->
    (forall e x, x ∈ listeners_of e st -> is_Some (objs st !! x)) ->
    for_events used todo tasks st
    = (Ret (tasks ++ List.filter (async_cancel st)
                       (concat (map (fun es => elements (snd es)) todo))),
       fold_left cancel_plain
         (concat (map (fun es => elements (snd es)) todo)) st).
Proof.
  induction todo as [|[e s] todo IH]; intros tasks st Hsz Hin Hall Hex; cbn.
  - rewrite decide_True by assumption. rewrite app_nil_r. reflexivity.
  - rewrite decide_True by assumption.
    assert (Hs : listeners_of e st = s).
    { unfold listeners_of. rewrite (Hin e s) by left. reflexivity. }
    rewrite Hs.
    rewrite for_listeners_cancel_tidy; [|rewrite Hs; reflexivity|exact Hall|].
    2:{ intros x Hx. apply (Hex e). rewrite Hs. apply elem_of_elements. exact Hx. }
    destruct (fold_cancel_plain_keeps (elements s) st) as (K1 & _ & K3 & K4 & K5).
    cbn zeta in *.
    rewrite IH.
    + rewrite List.filter_app, fold_left_app, <- app_assoc.
      rewrite (filter_ext _ _ K5). reflexivity.
    + rewrite K1. exact Hsz.
    + intros e' s' H'. rewrite K1. apply Hin. right. exact H'.
    + apply K3, Hall.
    + intros e' x Hx. apply K4, (Hex e').
      unfold listeners_of in *. rewrite K1 in Hx. exact Hx.
Qed.

Lemma cancel_all_listener_tidy others st :
  (forall x o, objs st !! x = Some o -> cancel_calm o) ->
  (forall e x, x ∈ listeners_of e st -> is_Some (objs st !! x)) ->
  cancel_all_listener (Gathered others) st
  = (Ret tt, run_ops (during (cancels_awaited st) others)
               (run_cancels (cancels_awaited st)
                  (fold_left cancel_plain (registered st) st))).
Proof.
  intros Hall Hex. unfold cancel_all_listener.
  rewrite for_events_tidy; [|reflexivity| |assumption|assumption].
  - cbn [app]. fold (registered st). fold (cancels_awaited st).
    destruct (cancels_awaited st); reflexivity.
  - intros e s H. apply elem_of_map_to_list in H. exact H.
Qed.

(** Each registration is cancelled once, at the call or in the gather. *)
Lemma lookup_fold_cancel_plain regs :
  forall st x,
    objs (fold_left cancel_plain regs st) !! x
    = Nat.iter (if async_cancel st x then 0
                else length (filter (fun y => y = x) regs)) cancel_body
        <$> objs st !! x.
Proof.
  induction regs as [|r regs IH]; intros st x; cbn [fold_left].
  - destruct (async_cancel st x); cbn; destruct (objs st !! x); reflexivity.
  - rewrite IH, async_cancel_cancel_plain.
    destruct (async_cancel st x) eqn:Ex.
    + unfold cancel_plain. destruct (async_cancel st r) eqn:Er; [reflexivity|].
      rewrite lookup_update_obj.
      destruct (decide (x = r)) as [->|]; [congruence|reflexivity].
    + rewrite filter_cons. unfold cancel_plain.
      destruct (decide (r = x)) as [->|Hne].
      * rewrite Ex, lookup_update_obj, decide_True by reflexivity.
        cbn [length]. destruct (objs st !! x) as [o|]; cbn; [|reflexivity].
        rewrite <- Nat.iter_succ_r. reflexivity.
      * destruct (async_cancel st r); [reflexivity|].
        rewrite lookup_update_obj, decide_False by congruence. reflexivity.
Qed.

Lemma count_async regs st x :
  length (filter (fun y => y = x) (List.filter (async_cancel st) regs))
  = if async_cancel st x then length (filter (fun y => y = x) regs) else 0.
Proof.
  induction regs as [|r regs IH]; cbn [List.filter].
  - destruct (async_cancel st x); reflexivity.
  - destruct (async_cancel st r) eqn:Er.
    + rewrite !filter_cons. destruct (decide (r = x)) as [->|Hne].
      * rewrite Er in *. cbn [length]. rewrite IH. reflexivity.
      * exact IH.
    + rewrite filter_cons. destruct (decide (r = x)) as [->|Hne]; [|exact IH].
      rewrite Er in *. exact IH.
Qed.

Lemma lookup_cancelled regs st x :
  objs (run_cancels (List.filter (async_cancel st) regs)
          (fold_left cancel_plain regs st)) !! x
  = Nat.iter (length (filter (fun y => y = x) regs)) cancel_body
      <$> objs st !! x.
Proof.
  rewrite lookup_run_cancels, lookup_fold_cancel_plain, count_async.
  destruct (async_cancel st x); destruct (objs st !! x); reflexivity.
Qed.

Lemma members_run_ops ops :
  forall st,
    (forall e x, x ∈ listeners_of e st -> is_Some (objs st !! x)) ->
    Forall (known st) ops ->
    forall e x, x ∈ listeners_of e (run_ops ops st) -> is_Some (objs st !! x).
Proof.
  unfold run_ops.
  induction ops as [|o ops IH]; intros st Hex Hk e x Hx; cbn in Hx;
    [exact (Hex e x Hx)|].
  apply Forall_cons in Hk as [Ho Hk].
  rewrite <- (objs_run_op o st).
  apply (IH (run_op o st)) with (e := e); [| |exact Hx].
  - intros e' y Hy. rewrite objs_run_op.
    destruct o as [e'' z|e'' z]; cbn in Hy, Ho.
    + rewrite listeners_of_add in Hy.
      destruct (decide (e'' = e')); [|apply (Hex e' y Hy)].
      apply elem_of_union in Hy as [Hy|Hy]; [|apply (Hex e' y Hy)].
      apply elem_of_singleton in Hy as ->. exact Ho.
    + rewrite listeners_of_remove in Hy.
      destruct (decide (e'' = e')); [|apply (Hex e' y Hy)].
      apply (Hex e' y). set_solver.
  - eapply Forall_impl; [exact Hk|].
    intros op. unfold known. rewrite objs_run_op. auto.
Qed.

(** What [_clean_up] does while other tasks change the registry during
    its two gathers. *)
Lemma clean_up_tidy o1 o2 st :
  tidy st ->
  Forall (known st) o1 ->
  let st2 := run_ops (during (awaited "closed" st) o1) st in
  exists st',
    _clean_up {| c_trigger := Gathered o1; c_cancel := Gathered o2 |} st
    = (Ret tt, st')
    /\ (forall x, objs st' !! x
          = (fun o => Nat.iter (registrations x st2) cancel_body
                        (if decide (x ∈ listeners_of "closed" st)
                         then deliver closed_message o else o))
            <$> objs st !! x)
    /\ __l st' = __l (run_ops (during (cancels_awaited st2) o2) st2)
    /\ (__s st', wire st') = closed_transport st
    /\ __lt st' = None
    /\ __v st' = JInt 0.
Proof.
  intros (Hcb & Hcn & Hex) Hknown st2.
  destruct (trigger_listener_tidy "closed" closed_message o1 st Hcb)
    as (st1 & Hrun1 & Hobj1 & HL1 & Hlink1).
  fold st2 in HL1.
  assert (Hcn1 : forall x o, objs st1 !! x = Some o -> cancel_calm o).
  { intros x o. rewrite Hobj1.
    destruct (decide _) as [Hin|Hin]; [|apply Hcn].
    destruct (objs st !! x) as [o'|] eqn:E; cbn; [|discriminate].
    intros [= <-]. apply cancel_calm_deliver. eapply Hcn. exact E. }
  assert (Hex1 : forall e x, x ∈ listeners_of e st1 -> is_Some (objs st1 !! x)).
  { intros e x. rewrite (listeners_of_same_registry e st2 st1 HL1).
    intros Hx.
    assert (Hx' : is_Some (objs st !! x)).
    { apply (members_run_ops (during (awaited "closed" st) o1) st Hex) with (e := e);
        [|exact Hx].
      unfold during. destruct (awaited "closed" st); [constructor|exact Hknown]. }
    destruct Hx' as [o Ho]. rewrite Hobj1, Ho.
    destruct (decide _); cbn; eexists; reflexivity. }
  assert (Hasync : forall x, async_cancel st1 x = async_cancel st2 x).
  { intros x. unfold async_cancel, st2. rewrite objs_run_ops, Hobj1.
    destruct (decide _); [|reflexivity].
    destruct (objs st !! x) as [[| |cb [|] got k]|]; reflexivity. }
  assert (Haw : cancels_awaited st1 = cancels_awaited st2).
  { unfold cancels_awaited. rewrite (registered_same_registry st2 st1 HL1).
    apply filter_ext. exact Hasync. }
  pose proof (cancel_all_listener_tidy o2 st1 Hcn1 Hex1) as Hrun2.
  rewrite Haw in Hrun2.
  rewrite (registered_same_registry st2 st1 HL1) in Hrun2.
  destruct (fold_cancel_plain_keeps (registered st2) st1)
    as (HLf & Hlinkf & _ & _ & _).
  cbn zeta in HLf, Hlinkf.
  set (stf := fold_left cancel_plain (registered st2) st1) in *.
  destruct (run_cancels_frame (cancels_awaited st2) stf) as (HL3 & Hlink3).
  set (st3 := run_cancels (cancels_awaited st2) stf) in *.
  set (st4 := run_ops (during (cancels_awaited st2) o2) st3) in *.
  pose proof (link_is_run_ops (during (cancels_awaited st2) o2) stf st3 Hlink3)
    as Hlink4.
  fold st4 in Hlink4.
  unfold _clean_up. cbn [c_trigger c_cancel].
  rewrite Hrun1, Hrun2.
  eexists. split; [reflexivity|].
  destruct Hlink1 as (Hs1 & _ & _ & Hw1 & _).
  destruct Hlinkf as (Hsf & _ & _ & Hwf & _).
  destruct Hlink4 as (Hs4 & _ & _ & Hw4 & _).
  assert (Hobjs : forall x,
    objs st4 !! x
    = (fun o => Nat.iter (registrations x st2) cancel_body
                  (if decide (x ∈ listeners_of "closed" st)
                   then deliver closed_message o else o))
      <$> objs st !! x).
  { intros x. unfold st4, st3, stf. rewrite objs_run_ops.
    assert (E : cancels_awaited st2
                = List.filter (async_cancel st1) (registered st2)).
    { unfold cancels_awaited. apply filter_ext. intros y. symmetry. apply Hasync. }
    rewrite E, lookup_cancelled, Hobj1.
    fold (registrations x st2).
    destruct (decide _); destruct (objs st !! x); reflexivity. }
  assert (Hreg4 : __l st4 = __l (run_ops (during (cancels_awaited st2) o2) st2)).
  { unfold st4. apply registry_run_ops. rewrite HL3, HLf. exact HL1. }
  unfold closed_transport.
  assert (Hs : __s st4 = __s st) by congruence.
  assert (Hw : wire st4 = wire st) by congruence.
  rewrite <- Hs, <- Hw.
  destruct (__s st4) as [ser|] eqn:Es; cbn.
  - destruct (ser_closed ser) eqn:Ecl; cbn.
    + repeat split; try assumption. rewrite Es. reflexivity.
    + repeat split; assumption.
  - repeat split; try assumption. rewrite Es. reflexivity.
Qed.

(** C3 (amended). When the loop of [_listen] is left through its
    condition or through a [break] (the handle is gone, the link is broken,
    the task is cancelled inside the [try] statement), [_clean_up] runs.
    When the callbacks of the listeners of "closed" and the [cancel] of
    the listener objects neither raise nor call the registry, and whatever
    calls [o1] and [o2] the other tasks make to the registry during its two
    gathers, it ends with: the "closed" message delivered to the listeners
    registered for the event "closed" when the loop is left, and to those
    only; [cancel] run on every listener that is registered when the round
    of cancellations begins, once for each event it is registered under,
    which leaves its [__bgt] empty; the registry not emptied but as the
    calls of the other tasks (a consumer resumed by the cancellation takes
    its own listener out) have made it; the transport closed and its handle
    cleared unless it was absent or closed already; the task handle
    cleared; the version back to 0. *)
Theorem clean_up_when_loop_ends it its o1 o2 st st1 :
  (__s st = None /\ st1 = st)
  \/ (__s st ≠ None /\ listen_body [] it st = (Break, st1)) ->
  tidy st1 ->
  Forall (known st1) o1 ->
  let c := {| c_trigger := Gathered o1; c_cancel := Gathered o2 |} in
  let st2 := run_ops (during (awaited "closed" st1) o1) st1 in
  exists st',
    listen_loop (it :: its) c st = (Ret tt, st')
    /\ (forall x, objs st' !! x
          = (fun o => Nat.iter (registrations x st2) cancel_body
                        (if decide (x ∈ listeners_of "closed" st1)
                         then deliver closed_message o else o))
            <$> objs st1 !! x)
    /\ (forall e x, x ∈ listeners_of e st2 -> 1 <= registrations x st2)
    /\ __l st' = __l (run_ops (during (cancels_awaited st2) o2) st2)
    /\ (__s st', wire st') = closed_transport st1
    /\ __lt st' = None
    /\ __v st' = JInt 0.
Proof.
  intros Hexit Htidy Hknown c st2.
  destruct (clean_up_tidy o1 o2 st1 Htidy Hknown)
    as (st' & Hrun & Hobj & HL & Htr & Hlt & Hv).
  fold c in Hrun. fold st2 in Hobj, HL.
  exists st'. split.
  - destruct Hexit as [[Hs ->]|[Hs Hbody]].
    + cbn [listen_loop]. rewrite Hs, Hrun. reflexivity.
    + cbn [listen_loop]. unfold listen_turn.
      destruct (__s st); [|contradiction].
      rewrite Hbody, Hrun. reflexivity.
  - split; [exact Hobj|].
    split; [intros e x; apply (registered_once e x st2)|].
    repeat split; assumption.
Qed.

Lemma all_calm_st_live : all_calm st_live.
Proof.
  split.
  - intros x o Hx.
    destruct x as [|[|[|[|x]]]]; cbn in Hx; try discriminate;
      injection Hx as <-; cbn; auto.
  - intros e x Hx. unfold st_live in Hx.
    rewrite !listeners_of_add in Hx.
    assert (He : listeners_of e init_state = ∅)
      by (unfold listeners_of; cbn; rewrite lookup_empty; reflexivity).
    change (listeners_of e (set_v _ _)) with (listeners_of e init_state) in Hx.
    rewrite He in Hx.
    assert (Hx' : x = 0 \/ x = 1 \/ x = 2 \/ x = 3).
    { destruct (decide ("closed" = e)); destruct (decide ("x" = e));
        set_solver. }
    destruct Hx' as [ -> | [ -> | [ -> | -> ] ] ]; cbn; eexists; reflexivity.
Defined.

Lemma clean_up_when_loop_ends_witness :
  let o2 := [OpRemove "x" 0] in
  let c := {| c_trigger := Gathered []; c_cancel := Gathered o2 |} in
  let st2 := run_ops (during (awaited "closed" st_live) []) st_live in
  exists st',
    listen_loop [turn_broken] c st_live = (Ret tt, st')
    /\ (forall x, objs st' !! x
          = (fun o => Nat.iter (registrations x st2) cancel_body
                        (if decide (x ∈ listeners_of "closed" st_live)
                         then deliver closed_message o else o))
            <$> objs st_live !! x)
    /\ (forall e x, x ∈ listeners_of e st2 -> 1 <= registrations x st2)
    /\ __l st' = __l (run_ops (during (cancels_awaited st2) o2) st2)
    /\ (__s st', wire st') = closed_transport st_live
    /\ __lt st' = None
    /\ __v st' = JInt 0.
Proof.
  apply (clean_up_when_loop_ends turn_broken [] [] [OpRemove "x" 0]
           st_live st_live).
  - right. split; [discriminate|]. vm_compute. reflexivity.
  - apply all_calm_tidy. exact all_calm_st_live.
  - constructor.
Defined.

(** C3 (as stated) fails. The link breaks while three listeners wait on
    "x" and one on "closed": the clean-up runs to its end, and the consumer
    that waited on listener 0 is resumed and takes it out of the set of
    "x"; yet the queueing listener on "x" has been cancelled without any
    "closed" message in its queue, and the registry still holds it. *)
Lemma clean_up_leaves_registry_and_other_events :
  let st' := snd (listen_loop [turn_broken] consumer_leaves st_live) in
  fst (listen_loop [turn_broken] consumer_leaves st_live) = Ret tt
  /\ 2 ∈ listeners_of "x" st_live
  /\ objs st' !! 2 = Some (ResultQueueListener false [] NoTask true)
  /\ 2 ∈ listeners_of "x" st'
  /\ __l st' ≠ ∅
  /\ objs st' !! 0 = Some (ResultEventListener false None NoTask)
  /\ 0 ∉ listeners_of "x" st'.
Proof.
  cbn zeta. split; [vm_compute; reflexivity|].
  split; [apply elem_of_elements; vm_compute; left|].
  split; [vm_compute; reflexivity|].
  split; [apply elem_of_elements; vm_compute; left|].
  split.
  - intros H.
    assert (Hx : __l (snd (listen_loop [turn_broken] consumer_leaves st_live))
                   !! "x" = None) by (rewrite H; apply lookup_empty).
    vm_compute in Hx. discriminate.
  - split; [vm_compute; reflexivity|].
    rewrite <- elem_of_elements. vm_compute.
    intros H. inversion H as [|? ? ? H']; inversion H' as [|? ? ? H''];
      inversion H''.
Qed.

(** The clean-up among listeners of another kind. A consumer waits on
    listener 0; listener 1 has a callback that would raise, which nobody
    calls as it is not registered for "closed", and a plain [cancel], which
    runs at its call. The waiting listener is cancelled in the gather,
    during which its consumer takes it out of the registry. *)
Example clean_up_cancels_plain_and_async :
  let run := listen_loop [turn_broken] consumer_leaves st_plain in
  fst run = Ret tt
  /\ objs (snd run)
     = [ ResultEventListener false None NoTask;
         Duck (Plain [OpAdd "x" 2] Fails) (Plain [] Completes) [] 1 ]
  /\ elements (listeners_of "x" (snd run)) = [1]
  /\ __s (snd run) = None
  /\ __lt (snd run) = None.
Proof. cbn zeta. repeat split; vm_compute; reflexivity. Qed.

(** ** The handshake *)

(** The scenario of the specification: the device answers the version
    request with version 3; [_init] succeeds and [version] reads 3. *)
Example init_handshake_succeeds :
  let run := _init "/dev/ttyACM0" 115200 handshake_ok init_state in
  fst run = Ret true
  /\ version (snd run) = JInt 3
  /\ transport_closed (snd run) = false
  /\ listeners_of "protocol_version_return" (snd run) = ∅.
Proof.
  cbn zeta. split; [vm_compute; reflexivity|].
  split; [vm_compute; reflexivity|].
  split; [vm_compute; reflexivity|].
  apply set_eq. intros x. rewrite <- elem_of_elements.
  vm_compute. split; intros H; inversion H.
Qed.

(** With no port given, [init] tries the listed ports in turn. *)
Example init_tries_every_port :
  let run := init "" 115200
               [("/dev/ttyUSB0", no_port); ("/dev/ttyACM0", handshake_ok)]
               no_port init_state in
  fst run = Ret true /\ version (snd run) = JInt 3.
Proof. vm_compute. split; reflexivity. Qed.

(** No reply, and the deadline passes while the read loop is suspended in
    [read_until]: the cancellation is caught in the loop, the clean-up
    closes the transport, and [_init] reports failure. *)
Example init_timeout_closes :
  let run := _init "/dev/ttyACM0" 115200 handshake_silent init_state in
  fst run = Ret false
  /\ __s (snd run) = None
  /\ transport_closed (snd run) = true
  /\ __lt (snd run) = None
  /\ version (snd run) = JInt 0.
Proof. vm_compute. repeat split; reflexivity. Qed.

(** C4 (the code departs from it). No reply arrives, the device having
    sent a line that is no JSON; the waiting task is resumed with the
    timeout while the read loop sleeps at the end of the turn that handled
    that line. [close()] cancels the task there, outside the [try]
    statement of the loop, so [_clean_up] never runs: [_init] reports
    failure but the transport is still open and still referenced, and the
    task handle is not cleared. *)
Theorem init_timeout_at_loop_sleep_leaves_port_open :
  let run := _init "/dev/ttyACM0" 115200 handshake_race init_state in
  fst run = Ret false
  /\ __s (snd run) = Some port0
  /\ transport_closed (snd run) = false
  /\ __lt (snd run) = Some (TaskDone (Some CancelledError)).
Proof. vm_compute. repeat split; reflexivity. Qed.

(** * The wire format *)

(** ** Strings *)

(** An escaped character is read back as the character. *)
Lemma scan_string_escape c t acc :
  scan_string (escape_char c ++ t) acc = scan_string t (c :: acc).
Proof.
  destruct c as [[] [] [] [] [] [] [] []]; reflexivity.
Qed.

Lemma scan_string_encoded chars :
  forall t acc,
    scan_string (concat (map escape_char chars) ++ dquote :: t) acc
    = POk (string_of_list_ascii (rev acc ++ chars), t).
Proof.
  induction chars as [|c chars IH]; intros t acc; cbn [map concat].
  - cbn. rewrite app_nil_r. reflexivity.
  - rewrite <- app_assoc, scan_string_escape, IH. cbn [rev].
    rewrite <- app_assoc. reflexivity.
Qed.

Lemma scan_encode_string (k : string) t :
  scan_string (concat (map escape_char (list_ascii_of_string k))
               ++ dquote :: t) []
  = POk (k, t).
Proof.
  rewrite scan_string_encoded. cbn [rev app].
  rewrite string_of_list_ascii_of_string. reflexivity.
Qed.

Lemma printable_escape c : forallb printable (escape_char c) = true.
Proof. destruct c as [[] [] [] [] [] [] [] []]; reflexivity. Qed.

(** ** Numbers *)

Lemma nzhead_no_zero d :
  match Decimal.nzhead d with Decimal.D0 _ => False | _ => True end.
Proof. induction d; cbn; auto. Qed.

(** The digits of a positive number do not begin with zero. *)
Lemma to_uint_head p :
  match Pos.to_uint p with
  | Decimal.Nil | Decimal.D0 _ => False
  | _ => True
  end.
Proof.
  pose proof (DecimalPos.Unsigned.to_of (Pos.to_uint p)) as H.
  rewrite DecimalPos.Unsigned.of_to in H. cbn in H.
  pose proof (nzhead_no_zero (Pos.to_uint p)) as Hz.
  pose proof (Unsigned.to_uint_nonzero p) as Hnz.
  unfold Decimal.unorm in H.
  destruct (Decimal.nzhead (Pos.to_uint p)); rewrite H; try exact Logic.I.
  - apply Hnz. exact H.
  - exact Hz.
Qed.

Lemma scan_digits_uint d :
  forall t, ends_number t = true ->
    scan_digits (chars_of_uint d ++ t) = (d, t).
Proof.
  induction d; intros t Ht; cbn; try (rewrite IHd by assumption; reflexivity).
  destruct t as [|c t]; [reflexivity|]. cbn in *.
  destruct (digit_of c); [discriminate|reflexivity].
Qed.

Lemma scan_number_uint neg d t :
  match d with
  | Decimal.Nil => False
  | Decimal.D0 Decimal.Nil => True
  | Decimal.D0 _ => False
  | _ => True
  end ->
  ends_number t = true ->
  scan_number neg (chars_of_uint d ++ t)
  = if digits_fit d
    then POk (JInt (Z.of_int (if neg then Decimal.Neg d else Decimal.Pos d)), t)
    else PErr.
Proof.
  intros Hd Ht. unfold scan_number. rewrite scan_digits_uint by assumption.
  assert (Hf : match t with
               | c :: _ => Ascii.eqb c "." || Ascii.eqb c "e" || Ascii.eqb c "E"
               | [] => false
               end = false).
  { destruct t as [|c t]; [reflexivity|]. cbn in Ht.
    destruct (digit_of c); [discriminate|]. apply negb_true_iff. exact Ht. }
  rewrite Hf.
  destruct d as [|[| | | | | | | | | |]| | | | | | | | |]; try contradiction;
    reflexivity.
Qed.

Lemma parse_value_digit fuel c t :
  digit_of c ≠ None ->
  parse_value (S fuel) (c :: t) = scan_number false (c :: t).
Proof.
  destruct c as [[] [] [] [] [] [] [] []]; intros H;
    try reflexivity; exfalso; apply H; reflexivity.
Qed.

Lemma chars_of_uint_head d :
  d ≠ Decimal.Nil ->
  exists c t, chars_of_uint d = c :: t /\ digit_of c ≠ None.
Proof.
  destruct d; intros H; try contradiction; cbn;
    eexists _, _; (split; [reflexivity|discriminate]).
Qed.

Lemma parse_value_int fuel n t :
  ends_number t = true ->
  parse_value (S fuel) (chars_of_int n ++ t)
  = if int_fits n then POk (JInt n, t) else PErr.
Proof.
  intros Ht. unfold chars_of_int, int_fits.
  pose proof (DecimalZ.of_to n) as Hn.
  destruct n as [|p|p]; cbn [Z.to_int] in *.
  - change (parse_value (S fuel) ("0"%char :: t))
      with (scan_number false (chars_of_uint (Decimal.D0 Decimal.Nil) ++ t)).
    apply (scan_number_uint false); [exact Logic.I|assumption].
  - pose proof (to_uint_head p) as Hh.
    destruct (chars_of_uint_head (Pos.to_uint p)) as (c & r & Hc & Hd).
    { intros E. rewrite E in Hh. exact Hh. }
    replace (chars_of_uint (Pos.to_uint p) ++ t) with (c :: r ++ t)
      by (rewrite Hc; reflexivity).
    rewrite parse_value_digit by assumption.
    replace (c :: r ++ t) with (chars_of_uint (Pos.to_uint p) ++ t)
      by (rewrite Hc; reflexivity).
    rewrite (scan_number_uint false); [rewrite Hn; reflexivity| |assumption].
    destruct (Pos.to_uint p) as [|[]| | | | | | | | |]; try exact Logic.I;
      contradiction.
  - pose proof (to_uint_head p) as Hh.
    assert (E : parse_value (S fuel)
                  (("-"%char :: chars_of_uint (Pos.to_uint p)) ++ t)
                = scan_number true (chars_of_uint (Pos.to_uint p) ++ t))
      by reflexivity.
    rewrite E, (scan_number_uint true); [rewrite Hn; reflexivity| |assumption].
    destruct (Pos.to_uint p) as [|[]| | | | | | | | |]; try exact Logic.I;
      contradiction.
Qed.

Lemma nb_digits_ones n :
  Decimal.nb_digits (Nat.iter n Decimal.D1 Decimal.Nil) = n.
Proof.
  induction n as [|n IH]; [reflexivity|].
  rewrite Nat.iter_succ. cbn [Decimal.nb_digits]. rewrite IH. reflexivity.
Qed.

(** An integer written with [n] ones can be converted up to the limit. *)
Lemma int_fits_ones n :
  0 < n -> int_fits (ones n) = (n <=? int_max_str_digits)%nat.
Proof.
  intros Hn. unfold int_fits, ones. rewrite DecimalZ.to_of.
  destruct n as [|n]; [lia|].
  rewrite Nat.iter_succ.
  cbn [Decimal.norm Decimal.unorm Decimal.nzhead].
  rewrite <- Nat.iter_succ. unfold digits_fit.
  rewrite nb_digits_ones. reflexivity.
Qed.

(** ** Values *)

(** Induction on a value, with the property at hand for the items of a
    list and for the values of a dictionary. *)
Lemma json_induction (P : json -> Prop) :
  P JNull ->
  (forall v, P (JBool v)) ->
  (forall n, P (JInt n)) ->
  (forall t, P (JStr t)) ->
  (forall xs, Forall P xs -> P (JList xs)) ->
  (forall kvs, Forall (fun kv => P (snd kv)) kvs -> P (JDict kvs)) ->
  forall x, P x.
Proof.
  intros Hnull Hbool Hint Hstr Hlist Hdict.
  fix IH 1. intros [ |v|n|t|xs|kvs].
  - exact Hnull.
  - apply Hbool.
  - apply Hint.
  - apply Hstr.
  - apply Hlist. induction xs as [|x xs IHxs]; constructor; [apply IH|exact IHxs].
  - apply Hdict.
    induction kvs as [|[k x] kvs IHkvs]; constructor; [apply IH|exact IHkvs].
Qed.

Lemma value_start_not_ws c :
  value_start c = true ->
  is_ws c = false /\ Ascii.eqb c "]" = false /\ Ascii.eqb c "}" = false.
Proof.
  destruct c as [[] [] [] [] [] [] [] []]; intros H;
    try discriminate H; repeat split; reflexivity.
Qed.

Lemma encode_head x : exists c t, encode x = c :: t /\ value_start c = true.
Proof.
  destruct x as [ |[|]|n|t|xs|kvs]; cbn;
    try (eexists _, _; split; reflexivity).
  unfold chars_of_int. destruct n as [|p|p]; cbn.
  - eexists _, _; split; reflexivity.
  - pose proof (to_uint_head p) as Hh.
    destruct (Pos.to_uint p); try contradiction; cbn;
      eexists _, _; split; reflexivity.
  - eexists _, _; split; reflexivity.
Qed.

Lemma skip_ws_encode x t : skip_ws (encode x ++ t) = encode x ++ t.
Proof.
  destruct (encode_head x) as (c & r & -> & Hc).
  apply value_start_not_ws in Hc as (Hws & _). cbn. rewrite Hws. reflexivity.
Qed.

Lemma closes_value_ends t : closes_value t -> ends_number t = true.
Proof.
  intros (c & t' & -> & [ -> | [ -> | [ -> | -> ] ] ]); reflexivity.
Qed.

Lemma dict_set_new k x d :
  k ∉ map fst d -> dict_set k x d = d ++ [(k, x)].
Proof.
  induction d as [|[k' y] d IH]; cbn; intros Hk; [reflexivity|].
  destruct (String.eqb k k') eqn:E.
  - apply String.eqb_eq in E. subst. exfalso. apply Hk. left.
  - rewrite IH; [reflexivity|]. intros H. apply Hk. right. exact H.
Qed.

Lemma dict_of_pairs_from kvs :
  forall acc,
    NoDup (map fst (acc ++ kvs)) ->
    fold_left (fun d kv => dict_set (fst kv) (snd kv) d) kvs acc = acc ++ kvs.
Proof.
  induction kvs as [|[k x] kvs IH]; intros acc Hnd; cbn.
  - rewrite app_nil_r. reflexivity.
  - rewrite dict_set_new.
    + rewrite IH; rewrite <- app_assoc; [reflexivity|exact Hnd].
    + rewrite map_app in Hnd. cbn in Hnd.
      apply NoDup_app in Hnd as (_ & Hd & _).
      intros H. apply (Hd k H). left.
Qed.

Lemma dict_of_pairs_unique kvs :
  NoDup (map fst kvs) -> dict_of_pairs kvs = kvs.
Proof. intros H. apply (dict_of_pairs_from kvs []). exact H. Qed.

Lemma join_comma_cons x y items :
  join_comma (x :: y :: items)
  = x ++ ","%char :: " "%char :: join_comma (y :: items).
Proof. reflexivity. Qed.

(** The items of a list, one after the other. *)
Lemma parse_elements_items xs :
  Forall (fun x => unique_keys x = true -> parses x) xs ->
  forall acc fuel t,
    xs ≠ [] ->
    forallb unique_keys xs = true ->
    list_sum (map (fun y => S (json_size y)) xs) <= fuel ->
    parse_elements fuel (join_comma (map encode xs) ++ "]"%char :: t) acc
    = if forallb fits xs then POk (JList (rev acc ++ xs), t) else PErr.
Proof.
  induction 1 as [|x xs Hx Hxs IH]; intros acc fuel t Hne Hu Hfuel;
    [contradiction|].
  cbn [forallb] in Hu. apply andb_prop in Hu as [Hux Huxs].
  cbn [forallb].
  unfold list_sum in *. cbn [map fold_right] in Hfuel.
  destruct fuel as [|fuel]; [lia|].
  assert (Hsz : json_size x <= fuel) by lia.
  destruct xs as [|y xs].
  - cbn [map join_comma].
    change (parse_elements (S fuel) (encode x ++ "]"%char :: t) acc)
      with (match parse_value fuel (encode x ++ "]"%char :: t) with
            | POk (v, r) =>
                match skip_ws r with
                | c :: r' =>
                    if Ascii.eqb c "]" then POk (JList (rev (v :: acc)), r')
                    else if Ascii.eqb c ","
                    then parse_elements fuel (skip_ws r') (v :: acc)
                    else PErr
                | [] => PErr
                end
            | PErr => PErr
            | PUnsupported => PUnsupported
            end).
    rewrite (Hx Hux fuel ("]"%char :: t) Hsz).
    + destruct (fits x); reflexivity.
    + exists "]"%char, t. split; [reflexivity|]. right. left. reflexivity.
  - cbn [map]. rewrite join_comma_cons, <- app_assoc.
    set (rest := join_comma (encode y :: map encode xs) ++ "]"%char :: t).
    change (parse_elements (S fuel)
              (encode x ++ (","%char :: " "%char :: join_comma (encode y :: map encode xs)) ++ "]"%char :: t) acc)
      with (match parse_value fuel (encode x ++ ","%char :: " "%char :: rest) with
            | POk (v, r) =>
                match skip_ws r with
                | c :: r' =>
                    if Ascii.eqb c "]" then POk (JList (rev (v :: acc)), r')
                    else if Ascii.eqb c ","
                    then parse_elements fuel (skip_ws r') (v :: acc)
                    else PErr
                | [] => PErr
                end
            | PErr => PErr
            | PUnsupported => PUnsupported
            end).
    rewrite (Hx Hux fuel (","%char :: " "%char :: rest) Hsz).
    + destruct (fits x); [|reflexivity]. cbn [andb].
      cbn [skip_ws is_ws Ascii.eqb]. cbn -[parse_elements skip_ws rest forallb].
      assert (Hskip : skip_ws (" "%char :: rest) = rest).
      { unfold rest. cbn [map join_comma].
        destruct xs; cbn -[encode]; [apply skip_ws_encode|].
        rewrite <- app_assoc. apply skip_ws_encode. }
      rewrite Hskip. unfold rest.
      change (encode y :: map encode xs) with (map encode (y :: xs)).
      rewrite (IH (x :: acc) fuel t); [|discriminate|assumption|].
      * cbn [rev]. rewrite <- app_assoc. reflexivity.
      * cbn [map fold_right] in *. lia.
    + exists ","%char, (" "%char :: rest). split; [reflexivity|]. left. reflexivity.
Qed.

Lemma parse_members_step fuel t acc :
  parse_members (S fuel) t acc
  = match scan_string t [] with
    | POk (k, r) =>
        match skip_ws r with
        | c :: r1 =>
            if Ascii.eqb c ":" then
              match parse_value fuel (skip_ws r1) with
              | POk (x, r2) =>
                  match skip_ws r2 with
                  | c2 :: r3 =>
                      if Ascii.eqb c2 "}" then
                        POk (JDict (dict_of_pairs (rev ((k, x) :: acc))), r3)
                      else if Ascii.eqb c2 "," then
                        match skip_ws r3 with
                        | c3 :: r4 =>
                            if Ascii.eqb c3 dquote
                            then parse_members fuel r4 ((k, x) :: acc)
                            else PErr
                        | [] => PErr
                        end
                      else PErr
                  | [] => PErr
                  end
              | PErr => PErr
              | PUnsupported => PUnsupported
              end
            else PErr
        | [] => PErr
        end
    | PErr => PErr
    | PUnsupported => PUnsupported
    end.
Proof. reflexivity. Qed.

Lemma encode_member_text k x t :
  encode_member (k, x) ++ t
  = dquote :: concat (map escape_char (list_ascii_of_string k))
      ++ dquote :: ":"%char :: " "%char :: encode x ++ t.
Proof.
  unfold encode_member, encode_string. cbn [fst snd app].
  rewrite <- !app_assoc. reflexivity.
Qed.

(** The members of a dictionary, one after the other. *)
Lemma parse_members_items kvs :
  Forall (fun kv => unique_keys (snd kv) = true -> parses (snd kv)) kvs ->
  forall acc fuel t,
    kvs ≠ [] ->
    forallb (fun kv => unique_keys (snd kv)) kvs = true ->
    list_sum (map (fun kv => S (json_size (snd kv))) kvs) <= fuel ->
    parse_members fuel
      (tl (join_comma (map encode_member kvs) ++ "}"%char :: t)) acc
    = if forallb (fun kv => fits (snd kv)) kvs
      then POk (JDict (dict_of_pairs (rev acc ++ kvs)), t)
      else PErr.
Proof.
  induction 1 as [|[k x] kvs Hx Hkvs IH]; intros acc fuel t Hne Hu Hfuel;
    [contradiction|].
  cbn [forallb snd] in Hu. apply andb_prop in Hu as [Hux Hukvs].
  cbn [forallb snd].
  unfold list_sum in *. cbn [map fold_right snd] in Hfuel.
  destruct fuel as [|fuel]; [lia|].
  assert (Hsz : json_size x <= fuel) by lia.
  cbn [snd] in Hx.
  destruct kvs as [|[k' y] kvs].
  - cbn [map join_comma]. rewrite encode_member_text. cbn [tl].
    rewrite parse_members_step, scan_encode_string.
    cbn [skip_ws is_ws]. cbn -[parse_value skip_ws encode dict_of_pairs].
    change (skip_ws (" "%char :: encode x ++ "}"%char :: t))
      with (skip_ws (encode x ++ "}"%char :: t)).
    rewrite skip_ws_encode.
    rewrite (Hx Hux fuel ("}"%char :: t) Hsz).
    + destruct (fits x); [|reflexivity]. cbn [rev]. reflexivity.
    + exists "}"%char, t. split; [reflexivity|]. right. right. left. reflexivity.
  - cbn [map]. rewrite join_comma_cons, <- app_assoc, encode_member_text.
    cbn [tl].
    set (rest := join_comma (map encode_member ((k', y) :: kvs)) ++ "}"%char :: t).
    change ((","%char :: " "%char :: join_comma (encode_member (k', y) :: map encode_member kvs)) ++ "}"%char :: t)
      with (","%char :: " "%char :: rest).
    rewrite parse_members_step, scan_encode_string.
    cbn [skip_ws is_ws]. cbn -[parse_value skip_ws encode dict_of_pairs rest parse_members].
    change (skip_ws (" "%char :: encode x ++ ","%char :: " "%char :: rest))
      with (skip_ws (encode x ++ ","%char :: " "%char :: rest)).
    rewrite skip_ws_encode.
    rewrite (Hx Hux fuel (","%char :: " "%char :: rest) Hsz).
    + destruct (fits x); [|reflexivity]. cbn [andb].
      change (skip_ws (","%char :: " "%char :: rest))
        with (","%char :: " "%char :: rest).
      cbn -[parse_value skip_ws encode dict_of_pairs rest parse_members forallb].
      assert (Hrest : skip_ws (" "%char :: rest) = dquote :: tl rest).
      { unfold rest. cbn [map].
        destruct kvs as [|kv kvs]; cbn [join_comma map].
        - rewrite encode_member_text. reflexivity.
        - rewrite <- app_assoc, encode_member_text. reflexivity. }
      rewrite Hrest.
      cbn -[parse_value skip_ws encode dict_of_pairs rest parse_members forallb].
      unfold rest.
      rewrite (IH ((k, x) :: acc) fuel t); [|discriminate|assumption|].
      * cbn [rev]. rewrite <- app_assoc. reflexivity.
      * cbn [map fold_right snd] in *. lia.
    + exists ","%char, (" "%char :: rest). split; [reflexivity|]. left. reflexivity.
Qed.

Lemma join_comma_head xs t :
  xs ≠ [] ->
  exists c r,
    join_comma (map encode xs) ++ t = c :: r /\ value_start c = true.
Proof.
  destruct xs as [|x [|y xs]]; intros H; [contradiction| |].
  - cbn [map join_comma].
    destruct (encode_head x) as (c & r & -> & Hc).
    exists c, (r ++ t). split; [reflexivity|exact Hc].
  - cbn [map]. rewrite join_comma_cons.
    destruct (encode_head x) as (c & r & -> & Hc).
    eexists c, _. split; [reflexivity|exact Hc].
Qed.

(** [json.loads] reads back what [json.dumps] prints. *)
Lemma parse_value_encode x : unique_keys x = true -> parses x.
Proof.
  induction x as [ |v|n|k|xs IH|kvs IH] using json_induction;
    intros Hu fuel t Hfuel Hclose;
    (destruct fuel as [|fuel]; [cbn in Hfuel; lia|]).
  - reflexivity.
  - destruct v; reflexivity.
  - apply parse_value_int, closes_value_ends, Hclose.
  - cbn [encode]. unfold encode_string. cbn [app]. rewrite <- app_assoc.
    change (parse_value (S fuel)
              (dquote :: concat (map escape_char (list_ascii_of_string k))
                 ++ [dquote] ++ t))
      with (match scan_string (concat (map escape_char (list_ascii_of_string k))
                               ++ dquote :: t) [] with
            | POk (s, r) => POk (JStr s, r)
            | PErr => PErr
            | PUnsupported => PUnsupported
            end).
    rewrite scan_encode_string. reflexivity.
  - cbn [unique_keys] in Hu. cbn [json_size] in Hfuel.
    cbn [encode app]. rewrite <- app_assoc. cbn [app].
    destruct xs as [|x xs]; [reflexivity|].
    destruct (join_comma_head (x :: xs) ("]"%char :: t)) as (c & r & Hc & Hstart);
      [discriminate|].
    apply value_start_not_ws in Hstart as (Hws & Hsq & _).
    assert (E : parse_value (S fuel)
                  ("["%char :: join_comma (map encode (x :: xs)) ++ "]"%char :: t)
                = parse_elements fuel
                    (join_comma (map encode (x :: xs)) ++ "]"%char :: t) []).
    { rewrite Hc.
      change (parse_value (S fuel) ("["%char :: c :: r))
        with (match skip_ws (c :: r) with
              | c1 :: r' =>
                  if Ascii.eqb c1 "]" then POk (JList [], r')
                  else parse_elements fuel (c1 :: r') []
              | [] => PErr
              end).
      cbn [skip_ws]. rewrite Hws, Hsq. reflexivity. }
    rewrite E.
    rewrite (parse_elements_items (x :: xs)); [reflexivity| |discriminate|assumption|lia].
    eapply Forall_impl; [exact IH|]. intros y Hy; exact Hy.
  - cbn [unique_keys] in Hu. apply andb_prop in Hu as [Hnd Hu].
    apply bool_decide_eq_true in Hnd.
    cbn [json_size] in Hfuel.
    cbn [encode app]. rewrite <- app_assoc. cbn [app].
    change (map (fun kv : string * json =>
                   encode_string (fst kv) ++ ":"%char :: " "%char :: encode (snd kv)) kvs)
      with (map encode_member kvs).
    destruct kvs as [|[k x] kvs]; [reflexivity|].
    assert (E : parse_value (S fuel)
                  ("{"%char :: join_comma (map encode_member ((k, x) :: kvs))
                     ++ "}"%char :: t)
                = parse_members fuel
                    (tl (join_comma (map encode_member ((k, x) :: kvs))
                         ++ "}"%char :: t)) []).
    { cbn [map]. destruct kvs as [|kv kvs]; cbn [join_comma map].
      - rewrite encode_member_text. reflexivity.
      - rewrite <- app_assoc, encode_member_text. reflexivity. }
    rewrite E.
    rewrite (parse_members_items ((k, x) :: kvs));
      [|exact IH|discriminate|assumption|lia].
    cbn [rev app]. rewrite dict_of_pairs_unique by assumption. reflexivity.
Qed.

Lemma json_size_items xs :
  Forall (fun x => json_size x <= length (encode x)) xs ->
  list_sum (map (fun y => S (json_size y)) xs)
  <= S (length (join_comma (map encode xs))).
Proof.
  unfold list_sum.
  induction 1 as [|x xs Hx Hxs IH]; [cbn; lia|].
  destruct xs as [|y xs].
  - cbn. lia.
  - cbn [map fold_right] in *. rewrite join_comma_cons.
    rewrite length_app. cbn [length]. lia.
Qed.

Lemma json_size_members kvs :
  Forall (fun kv => json_size (snd kv) <= length (encode (snd kv))) kvs ->
  list_sum (map (fun kv => S (json_size (snd kv))) kvs)
  <= S (length (join_comma (map encode_member kvs))).
Proof.
  unfold list_sum.
  induction 1 as [|[k x] kvs Hx Hkvs IH]; [cbn; lia|].
  assert (Hm : length (encode x) <= length (encode_member (k, x))).
  { unfold encode_member. rewrite length_app. cbn [length snd]. lia. }
  cbn [snd] in Hx.
  destruct kvs as [|kv kvs].
  - cbn [map fold_right join_comma snd]. lia.
  - cbn [map fold_right snd] in *. rewrite join_comma_cons.
    rewrite length_app. cbn [length]. lia.
Qed.

(** The text of a value is long enough to pay for its parsing. *)
Lemma json_size_le x : json_size x <= length (encode x).
Proof.
  induction x as [ |v|n|k|xs IH|kvs IH] using json_induction.
  - cbn. lia.
  - destruct v; cbn; lia.
  - destruct (encode_head (JInt n)) as (c & r & -> & _). cbn. lia.
  - cbn. lia.
  - cbn [json_size encode length]. rewrite length_app. cbn [length].
    pose proof (json_size_items xs IH). lia.
  - cbn [json_size encode length]. rewrite length_app. cbn [length].
    change (map (fun kv : string * json =>
                   encode_string (fst kv) ++ ":"%char :: " "%char :: encode (snd kv)) kvs)
      with (map encode_member kvs).
    pose proof (json_size_members kvs IH). lia.
Qed.

(** A line as [request] ends it is decoded to the value that was
    printed. *)
Lemma json_loads_encode x :
  unique_keys x = true ->
  json_loads (encode x ++ [CR; LF]) = if fits x then POk x else PErr.
Proof.
  intros Hu. unfold json_loads. rewrite skip_ws_encode.
  rewrite (parse_value_encode x Hu).
  - destruct (fits x); reflexivity.
  - pose proof (json_size_le x). rewrite length_app. lia.
  - exists CR, [LF]. split; [reflexivity|]. right. right. right. reflexivity.
Qed.

(** ** Bytes *)

Lemma printable_join items :
  Forall (fun item => forallb printable item = true) items ->
  forallb printable (join_comma items) = true.
Proof.
  induction 1 as [|x items Hx Hitems IH]; [reflexivity|].
  destruct items as [|y items]; [exact Hx|].
  rewrite join_comma_cons, forallb_app, Hx. cbn [forallb andb].
  rewrite IH. reflexivity.
Qed.

Lemma printable_encode_string k : forallb printable (encode_string k) = true.
Proof.
  unfold encode_string. cbn [forallb]. rewrite forallb_app.
  assert (H : forallb printable
                (concat (map escape_char (list_ascii_of_string k))) = true).
  { induction (list_ascii_of_string k) as [|c cs IH]; [reflexivity|].
    cbn [map concat]. rewrite forallb_app, printable_escape, IH. reflexivity. }
  rewrite H. reflexivity.
Qed.

Lemma printable_uint d : forallb printable (chars_of_uint d) = true.
Proof. induction d; cbn; auto. Qed.

(** [json.dumps] escapes everything that is not plain ASCII. *)
Lemma printable_encode x : forallb printable (encode x) = true.
Proof.
  induction x as [ |v|n|k|xs IH|kvs IH] using json_induction.
  - reflexivity.
  - destruct v; reflexivity.
  - cbn. unfold chars_of_int. destruct (Z.to_int n); cbn;
      apply printable_uint.
  - apply printable_encode_string.
  - cbn [encode forallb]. rewrite forallb_app, printable_join; [reflexivity|].
    apply Forall_map. exact IH.
  - cbn [encode forallb]. rewrite forallb_app, printable_join; [reflexivity|].
    apply Forall_map. eapply Forall_impl; [exact IH|].
    intros [k x] Hx. cbn [fst snd] in *.
    rewrite forallb_app, printable_encode_string. cbn [forallb andb].
    exact Hx.
Qed.

Lemma to_N_byte_of_ascii c : Byte.to_N (byte_of_ascii c) = N_of_ascii c.
Proof. destruct c as [[] [] [] [] [] [] [] []]; reflexivity. Qed.

Lemma printable_range c :
  printable c = true -> (0 < N_of_ascii c < 127)%N /\ c ≠ LF.
Proof.
  unfold printable. intros H. apply andb_prop in H as [H1 H2].
  apply N.leb_le in H1, H2. split; [lia|].
  intros ->. cbn in H1. lia.
Qed.

Lemma utf8_encode_printable t :
  forallb printable t = true ->
  utf8_encode (string_of_list_ascii t) = ascii_bytes t.
Proof.
  unfold utf8_encode. rewrite list_ascii_of_string_of_list_ascii.
  induction t as [|c t IH]; intros H; [reflexivity|].
  cbn [forallb] in H. apply andb_prop in H as [Hc Ht].
  cbn [map concat ascii_bytes]. rewrite IH by assumption.
  unfold utf8_char. apply printable_range in Hc as [Hc _].
  destruct (N.ltb_spec (N_of_ascii c) 128); [reflexivity|lia].
Qed.

Lemma decode_ascii_bytes t :
  Forall (fun c => (0 < N_of_ascii c < 128)%N) t ->
  decode_ascii (ascii_bytes t) = Some t.
Proof.
  induction 1 as [|c t Hc Ht IH]; [reflexivity|].
  unfold decode_ascii, ascii_bytes in *. cbn [map forallb]. cbn zeta in *.
  rewrite to_N_byte_of_ascii.
  destruct (N.ltb_spec 0 (N_of_ascii c)); [|lia].
  destruct (N.ltb_spec (N_of_ascii c) 128); [|lia].
  cbn [andb].
  destruct (forallb _ (map byte_of_ascii t)); [|discriminate].
  injection IH as IH. rewrite ascii_of_byte_of_ascii, IH. reflexivity.
Qed.

(** The line of a message is decoded to the message, or not at all when
    one of its integers is too long. *)
Lemma json_load_frame_any x :
  unique_keys x = true ->
  json_load (frame_of x) = if fits x then POk x else PErr.
Proof.
  intros Hu. unfold json_load, frame_of.
  change [byte_of_ascii CR; byte_of_ascii LF] with (ascii_bytes [CR; LF]).
  unfold ascii_bytes. rewrite <- map_app.
  fold (ascii_bytes (encode x ++ [CR; LF])).
  rewrite decode_ascii_bytes.
  - apply json_loads_encode. exact Hu.
  - apply Forall_app. split.
    + pose proof (printable_encode x) as Hp.
      apply Forall_forall. intros c Hc.
      rewrite forallb_forall in Hp.
      apply list_elem_of_In in Hc. apply Hp, printable_range in Hc as [Hc _].
      lia.
    + repeat constructor; cbn; lia.
Qed.

Lemma json_load_frame x :
  unique_keys x = true -> fits x = true -> json_load (frame_of x) = POk x.
Proof. intros Hu Hf. rewrite json_load_frame_any, Hf by exact Hu. reflexivity. Qed.

(** ** The line on the wire *)

Lemma take_drop_taken {A} (m : nat) (l : list A) :
  take m l ++ drop (length (take m l)) l = l.
Proof.
  revert m; induction l as [|x l IH]; intros [|m]; cbn; try reflexivity.
  rewrite IH. reflexivity.
Qed.

Lemma sent_log_io data st : sent (log_io (IoWrite data) st) = sent st ++ data.
Proof.
  unfold sent. cbn. rewrite map_app, concat_app. cbn.
  rewrite app_nil_r. reflexivity.
Qed.

(** A [write] that returns has handed over all its bytes, in order. *)
Lemma write_loop_sent view :
  forall ws pointer st st',
    write_loop view pointer ws st = (Ret tt, st') ->
    sent st' = sent st ++ drop pointer view.
Proof.
  assert (Hdone : forall pointer st st',
            (pointer <? length view)%nat = false ->
            (Ret tt, st) = (Ret tt, st') ->
            sent st' = sent st ++ drop pointer view).
  { intros pointer st st' Hlt [= <-].
    apply Nat.ltb_ge in Hlt. rewrite drop_ge by exact Hlt.
    rewrite app_nil_r. reflexivity. }
  induction ws as [|w ws IH]; intros pointer st st' H; cbn -[Nat.ltb] in H;
    destruct (pointer <? length view)%nat eqn:Hlt;
    try (eapply Hdone; eassumption);
    destruct (__s st); try discriminate.
  destruct w as [n| |n]; try discriminate.
  apply IH in H. rewrite H, sent_log_io, <- app_assoc. f_equal.
  set (l := drop pointer view).
  rewrite <- drop_drop. fold l.
  rewrite take_take.
  set (m := Nat.min n 128).
  replace (take (n `min` 128) l) with (take m l) by reflexivity.
  apply take_drop_taken.
Qed.

Lemma sent_set_dicts D st : sent (set_dicts D st) = sent st.
Proof. reflexivity. Qed.

Lemma json_dumps_some x text :
  json_dumps x = Some text ->
  fits x = true /\ text = string_of_list_ascii (encode x).
Proof.
  unfold json_dumps. destruct (fits x); [|discriminate].
  intros [= <-]. split; reflexivity.
Qed.

Lemma json_dumps_fits x :
  fits x = true -> json_dumps x = Some (string_of_list_ascii (encode x)).
Proof. unfold json_dumps. intros ->. reflexivity. Qed.


Lemma request_sent event a d w1 w2 st st' :
  dicts st !! a = Some d ->
  request event (Some a) w1 w2 st = (Ret tt, st') ->
  sent st' = sent st ++ frame_of (JDict (dict_set "event" (JStr event) d)).
Proof.
  intros Hd Hrun. unfold request in Hrun.
  change (default request_default (Some a)) with a in Hrun.
  rewrite Hd in Hrun.
  set (m := JDict (dict_set "event" (JStr event) d)) in *.
  destruct (json_dumps m) as [text|] eqn:Et; [|discriminate].
  apply json_dumps_some in Et as [_ ->].
  destruct (write_str _ w1 _) as [[[]|e|] st2] eqn:E1;
    try discriminate.
  unfold write_str, write in E1, Hrun.
  apply write_loop_sent in E1. apply write_loop_sent in Hrun.
  rewrite Hrun, E1, sent_set_dicts. unfold drop.
  rewrite utf8_encode_printable by apply printable_encode.
  unfold frame_of. rewrite <- app_assoc. reflexivity.
Qed.

Lemma endswith_snoc buffer x y :
  endswith (buffer ++ [x]) [y] = bool_decide (x = y).
Proof.
  unfold endswith. rewrite length_app. cbn [length].
  replace (length buffer + 1 - 1) with (length buffer) by lia.
  rewrite drop_app_length.
  apply bool_decide_ext. split; [intros [= ->]|intros ->]; reflexivity.
Qed.

Lemma polls_on_feed body :
  forall buffer before,
    Forall (fun x => x ≠ byte_of_ascii LF) body ->
    polls_on newline None before buffer (feed body) = true.
Proof.
  induction body as [|x body IH]; intros buffer before Hall; [reflexivity|].
  apply Forall_cons in Hall as [Hx Hall].
  cbn [feed map polls_on]. unfold goes_on. cbn [p_read p_sleep p_now].
  unfold newline. rewrite endswith_snoc, bool_decide_eq_false_2 by exact Hx.
  cbn [timed_out orb negb andb].
  apply IH. exact Hall.
Qed.

Lemma polled_feed body : polled (feed body) = body.
Proof.
  unfold polled, feed. rewrite map_map. cbn [p_read].
  induction body as [|x body IH]; [reflexivity|].
  cbn [map concat]. rewrite IH. reflexivity.
Qed.

(** Fed byte by byte, a line comes out of [read_until] whole, when its
    last byte and no other is the line feed. *)
Lemma read_until_feed_line body before st :
  __s st ≠ None ->
  Forall (fun x => x ≠ byte_of_ascii LF) body ->
  read_until newline None before (feed (body ++ [byte_of_ascii LF])) st
  = (Ret (Some (body ++ [byte_of_ascii LF])), st).
Proof.
  intros Hs Hall. unfold read_until, feed. rewrite map_app. fold (feed body).
  rewrite read_until_loop_on; [|exact Hs|apply polls_on_feed; exact Hall].
  rewrite polled_feed. cbn [app map read_until_loop p_read p_now].
  destruct (__s st); [|contradiction].
  unfold newline. rewrite endswith_snoc, bool_decide_eq_true_2 by reflexivity.
  reflexivity.
Qed.

Lemma frame_of_line x :
  exists body,
    frame_of x = body ++ [byte_of_ascii LF]
    /\ Forall (fun y => y ≠ byte_of_ascii LF) body.
Proof.
  exists (ascii_bytes (encode x) ++ [byte_of_ascii CR]). split.
  - unfold frame_of. rewrite <- app_assoc. reflexivity.
  - apply Forall_app. split; [|repeat constructor; discriminate].
    unfold ascii_bytes. apply Forall_map, Forall_forall. intros c Hc. cbn.
    pose proof (printable_encode x) as Hp. rewrite forallb_forall in Hp.
    apply list_elem_of_In in Hc. apply Hp, printable_range in Hc as [_ Hc].
    intros E. apply Hc.
    rewrite <- (ascii_of_byte_of_ascii c), E. reflexivity.
Qed.

(** *** Dictionaries stay well formed *)










(** A line with an integer of 4300 digits is decoded, one with a digit more
    is not. *)
Example json_load_digit_limit :
  json_load (frame_of (JList [JInt (ones 4300)])) = POk (JList [JInt (ones 4300)])
  /\ json_load (frame_of (JList [JInt (ones 4301)])) = PErr.
Proof.
  split.
  - apply json_load_frame; [reflexivity|].
    change (int_fits (ones 4300) && true = true).
    rewrite int_fits_ones by lia. reflexivity.
  - rewrite json_load_frame_any by reflexivity.
    change (fits (JList [JInt (ones 4301)]))
      with (int_fits (ones 4301) && true).
    rewrite int_fits_ones by lia. reflexivity.
Qed.

(** The bytes of that line. *)
Example request_line_bytes :
  frame_of (JDict [("event", JStr "x"); ("n", JInt (-12))])
  = b (dq "{'event': 'x', 'n': -12}") ++ [byte_of_ascii CR; byte_of_ascii LF].
Proof. vm_compute. reflexivity. Qed.

(** * Further properties *)

(** ** The registry *)

Lemma kept_stable e :
  let I := fun st => is_Some (__l st !! e) in
  let ok := fun _ : reg_op => True in
  (forall a st, I st -> I (set_s a st))
  /\ (forall a st, I st -> I (set_v a st))
  /\ (forall a st, I st -> I (set_lt a st))
  /\ (forall a st, I st -> I (log_io a st))
  /\ (forall y f st, (forall o, obj_ops (f o) = obj_ops o) ->
        I st -> I (update_obj y f st))
  /\ (forall o st, ok o -> I st -> I (run_op o st))
  /\ (forall st y o, I st -> objs st !! y = Some o -> Forall ok (obj_ops o)).
Proof.
  cbn. repeat split; try (intros; assumption).
  - intros y f st _ H. unfold update_obj. destruct (objs st !! y); exact H.
  - intros o st _ H. destruct o as [ev x|ev x]; cbn.
    + unfold add_listener. cbn.
      destruct (decide (ev = e)) as [->|Hne].
      * rewrite lookup_insert_eq. eauto.
      * rewrite lookup_insert_ne by assumption.
        destruct (__l st !! ev); [exact H|].
        rewrite lookup_insert_ne by assumption. exact H.
    + unfold remove_listener. destruct (__l st !! ev) eqn:E; [|exact H]. cbn.
      destruct (decide (ev = e)) as [->|Hne].
      * rewrite lookup_insert_eq. eauto.
      * rewrite lookup_insert_ne by assumption. exact H.
  - intros. apply Forall_forall. intros; exact Logic.I.
Qed.

Lemma all_ops ops : Forall (fun _ : reg_op => True) ops.
Proof. apply Forall_forall. intros; exact Logic.I. Qed.

Lemma kept_remove_listener e ev x st :
  is_Some (__l st !! e) -> is_Some (__l (remove_listener ev x st) !! e).
Proof.
  destruct (kept_stable e) as (_ & _ & _ & _ & _ & Hop & _).
  apply (Hop (OpRemove ev x) st Logic.I).
Qed.

Lemma kept_request e event data w1 w2 st :
  is_Some (__l st !! e) ->
  is_Some (__l (snd (request event data w1 w2 st)) !! e).
Proof.
  intros H. unfold request.
  destruct (dicts st !! default request_default data) as [d|]; [|exact H].
  destruct (kept_stable e) as (_ & _ & _ & Hio & _).
  set (st1 := set_dicts _ st).
  assert (H1 : is_Some (__l st1 !! e)) by exact H.
  destruct (json_dumps _) as [text|]; [|exact H1].
  pose proof (stable_write_str _ Hio text w1 st1 H1) as H2.
  destruct (write_str _ w1 st1) as [[u|x|] st2]; cbn [snd] in *;
    try exact H2.
  apply (stable_write_str _ Hio). exact H2.
Qed.

Lemma kept_request_with_result e event data timeout w1 w2 script st :
  is_Some (__l st !! e) \/ e = String.append event "_return" ->
  is_Some (__l (snd (request_with_result event data timeout w1 w2 script st))
             !! e).
Proof.
  intros H.
  destruct (kept_stable e) as (Hs & Hv & Hlt & Hio & Hup & Hop & Hm).
  assert (H0 : is_Some (__l (with_listener event st) !! e)).
  { unfold with_listener, add_listener. cbn.
    destruct (decide (String.append event "_return" = e)) as [Heq|Hne].
    - rewrite Heq, lookup_insert_eq. eauto.
    - destruct H as [H|H]; [|congruence].
      rewrite lookup_insert_ne by assumption.
      destruct (__l st !! String.append event "_return"); [exact H|].
      rewrite lookup_insert_ne by assumption. exact H. }
  unfold request_with_result, send_and_wait.
  pose proof (kept_request e event
                (Some (default request_with_result_default data)) w1 w2
                _ H0) as H1.
  destruct (request event _ w1 w2 (with_listener event st)) as [[u|x|] st1];
    cbn [snd] in *.
  - pose proof (stable_wait _ _ Hs Hv Hlt Hio Hup Hop Hm
                  (length (objs st)) timeout script st1 (all_ops _) H1) as H2.
    destruct (wait _ timeout script st1) as [[u'|x|] st2]; cbn [snd] in *;
      try exact H2; apply kept_remove_listener; exact H2.
  - apply kept_remove_listener. exact H1.
  - exact H1.
Qed.

(** X1. No step of the protocol drops an entry of the registry: an event
    that has an entry keeps it through [request_with_result], through the
    clean-up and through [close], whatever the listeners and the other
    tasks do, and [request_with_result] leaves an entry for the name of
    its reply. *)
Theorem registry_entries_are_kept
    e event data timeout w1 w2 script c st :
  is_Some (__l st !! e) ->
  is_Some (__l (snd (request_with_result event data timeout w1 w2 script st))
             !! e)
  /\ is_Some (__l (snd (_clean_up c st)) !! e)
  /\ is_Some (__l (snd (close c st)) !! e)
  /\ is_Some (__l (snd (request_with_result event data timeout w1 w2 script st))
                !! String.append event "_return").
Proof.
  intros H.
  destruct (kept_stable e) as (Hs & Hv & Hlt & Hio & Hup & Hop & Hm).
  assert (Hc : is_Some (__l (snd (_clean_up c st)) !! e)).
  { apply (stable_clean_up _ _ Hs Hv Hlt Hio Hup Hop Hm);
      [apply all_ops|exact H]. }
  split; [apply kept_request_with_result; left; exact H|].
  split; [exact Hc|]. split; [|apply kept_request_with_result; right; reflexivity].
  unfold close.
  destruct (__lt st) as [[|p|[x|]]|] eqn:Et; cbn [snd]; try exact H.
  - unfold task_done. rewrite Et. exact H.
  - destruct (inside_try p).
    + assert (Hf : is_Some (__l (snd (finish (_clean_up c st))) !! e)).
      { apply (stable_finish _ Hlt). exact Hc. }
      destruct (finish (_clean_up c st)) as [[u|x|] st1]; cbn [snd] in *;
        try exact Hf.
      destruct x; exact Hf.
    + unfold task_done. rewrite Et. exact H.
  - destruct x; exact H.
Qed.

Lemma registry_entries_are_kept_witness :
  let st := add_listener "x" 0 st_busy in
  is_Some (__l (snd (request_with_result "y" None None [Wrote 14] [Wrote 2]
                       [Cancel] st)) !! "x")
  /\ is_Some (__l (snd (_clean_up no_gather st)) !! "x").
Proof.
  intros st.
  assert (H : is_Some (__l st !! "x")) by (vm_compute; eauto).
  destruct (registry_entries_are_kept "x" "y" None None [Wrote 14] [Wrote 2]
              [Cancel] no_gather st H) as (H1 & H2 & _).
  split; assumption.
Defined.

(** X2. Removing a listener that was just added leaves the listeners of
    every event as they were, and the entry of the event stays; removing a
    listener from an event that has no entry changes nothing at all. *)
Theorem remove_listener_undoes_add event x st :
  x ∉ listeners_of event st ->
  (forall e, listeners_of e (remove_listener event x (add_listener event x st))
             = listeners_of e st)
  /\ is_Some (__l (remove_listener event x (add_listener event x st)) !! event)
  /\ (forall e, listeners_of e (remove_listener event x st) = listeners_of e st)
  /\ (__l st !! event = None -> remove_listener event x st = st).
Proof.
  intros Hx. split; [|split; [|split]].
  - intros e. rewrite listeners_of_remove, listeners_of_add.
    destruct (decide (event = e)) as [<-|Hne]; [|reflexivity]. set_solver.
  - apply kept_remove_listener. unfold add_listener. cbn.
    rewrite lookup_insert_eq. eauto.
  - intros e. rewrite listeners_of_remove.
    destruct (decide (event = e)) as [<-|Hne]; [|reflexivity]. set_solver.
  - intros H. unfold remove_listener. rewrite H. reflexivity.
Qed.

Lemma remove_listener_undoes_add_witness :
  listeners_of "x" (remove_listener "x" 1 (add_listener "x" 1 st_busy))
  = listeners_of "x" st_busy.
Proof.
  assert (H : 1 ∉ listeners_of "x" st_busy).
  { rewrite <- elem_of_elements. vm_compute. intros H. inversion H. }
  exact (proj1 (remove_listener_undoes_add "x" 1 st_busy H) "x").
Defined.

(** ** Writing *)

Lemma take_chunk {A} n (l : list A) :
  exists m, take n (take 128 l) = take m l /\ length (take m l) <= 128.
Proof.
  exists (n `min` 128). rewrite take_take. split; [reflexivity|].
  rewrite length_take. lia.
Qed.

Lemma write_loop_chunks view :
  forall ws pointer st,
    exists chunks,
      wire (snd (write_loop view pointer ws st)) = wire st ++ map IoWrite chunks
      /\ Forall (fun chunk => length chunk <= 128) chunks
      /\ concat chunks `prefix_of` drop pointer view
      /\ (fst (write_loop view pointer ws st) = Ret tt ->
          concat chunks = drop pointer view).
Proof.
  induction ws as [|w ws IH]; intros pointer st.
  - exists []. cbn [write_loop].
    destruct (pointer <? length view)%nat eqn:E.
    + destruct (__s st); cbn; rewrite app_nil_r;
        (split; [reflexivity|]); (split; [constructor|]);
        (split; [apply prefix_nil|discriminate]).
    + apply Nat.ltb_ge in E. cbn. rewrite app_nil_r, drop_ge by lia.
      repeat split; constructor || reflexivity.
  - cbn [write_loop].
    destruct (pointer <? length view)%nat eqn:E.
    + destruct (__s st) as [ser|] eqn:Es.
      * set (rest := drop pointer view).
        destruct w as [n| |n].
        -- destruct (take_chunk n rest) as (m & Hm & Hlen).
           rewrite Hm.
           destruct (IH (pointer + length (take m rest))
                        (log_io (IoWrite (take m rest)) st))
             as (chunks & Hw & Hall & Hpre & Hret).
           exists (take m rest :: chunks). rewrite Hw. cbn.
           rewrite <- app_assoc. split; [reflexivity|].
           split; [constructor; assumption|].
           assert (Hsplit : drop (pointer + length (take m rest)) view
                            = drop (length (take m rest)) rest).
           { unfold rest. rewrite drop_drop. reflexivity. }
           rewrite Hsplit in Hpre, Hret. split.
           ++ rewrite <- (take_drop_taken m rest) at 2.
              apply prefix_app. exact Hpre.
           ++ intros Hr. rewrite (Hret Hr). apply take_drop_taken.
        -- exists []. cbn. rewrite app_nil_r.
           repeat split; try constructor; try discriminate. apply prefix_nil.
        -- destruct (take_chunk n rest) as (m & Hm & Hlen).
           rewrite Hm. exists [take m rest]. cbn. rewrite app_nil_r.
           split; [reflexivity|]. split; [constructor; [assumption|constructor]|].
           split; [apply prefix_take|discriminate].
      * exists []. cbn. rewrite app_nil_r.
        repeat split; try constructor; try discriminate. apply prefix_nil.
    + apply Nat.ltb_ge in E. exists []. cbn.
      rewrite app_nil_r, drop_ge by lia.
      repeat split; constructor || reflexivity.
Qed.

(** X3. Whatever the driver does, [write] hands the bytes of [data] to the
    transport in order, in calls of at most 128 bytes: what was handed
    over is a prefix of [data], and all of [data] when the call returns. *)
Theorem write_hands_over_a_prefix data ws st :
  exists chunks,
    wire (snd (write data ws st)) = wire st ++ map IoWrite chunks
    /\ Forall (fun chunk => length chunk <= 128) chunks
    /\ concat chunks `prefix_of` data
    /\ (fst (write data ws st) = Ret tt -> concat chunks = data).
Proof. exact (write_loop_chunks data ws 0 st). Qed.

Lemma write_loop_progress view :
  forall ws pointer st,
    __s st ≠ None ->
    accepts ws ->
    length view - pointer <= length ws ->
    exists st', write_loop view pointer ws st = (Ret tt, st')
                /\ __s st' = __s st.
Proof.
  induction ws as [|w ws IH]; intros pointer st Hs Hall Hlen;
    cbn [write_loop].
  - cbn in Hlen. assert (E : (pointer <? length view)%nat = false)
      by (apply Nat.ltb_ge; lia).
    rewrite E. eauto.
  - destruct (pointer <? length view)%nat eqn:E; [|eauto].
    apply Nat.ltb_lt in E.
    destruct (__s st) as [ser|] eqn:Es; [|contradiction].
    apply Forall_cons in Hall as [(n & ->) Hall].
    set (taken := take (S n) (take 128 (drop pointer view))).
    assert (Ht : 1 <= length taken).
    { unfold taken. rewrite !length_take, length_drop. lia. }
    destruct (IH (pointer + length taken) (log_io (IoWrite taken) st))
      as (st' & Hrun & Hs'); [cbn; congruence|assumption|cbn in *; lia|].
    exists st'. split; [exact Hrun|]. rewrite Hs'. cbn. exact Es.
Qed.

(** X4. [write] returns once all of [data] is with the transport: when the
    transport is there and every call of the driver takes at least one
    byte, no more calls than [data] has bytes are needed, and the bytes
    handed over are those of [data]. *)
Theorem write_returns_when_driver_accepts data ws st :
  __s st ≠ None ->
  accepts ws ->
  length data <= length ws ->
  exists st',
    write data ws st = (Ret tt, st')
    /\ sent st' = sent st ++ data
    /\ __s st' = __s st.
Proof.
  intros Hs Hall Hlen.
  destruct (write_loop_progress data ws 0 st Hs Hall) as (st' & Hrun & Hs');
    [lia|].
  exists st'. split; [exact Hrun|]. split; [|exact Hs'].
  apply write_loop_sent in Hrun. exact Hrun.
Qed.

Lemma write_returns_when_driver_accepts_witness :
  exists st',
    write (b "hello") [Wrote 2; Wrote 1; Wrote 128; Wrote 1; Wrote 1] st_open
    = (Ret tt, st')
    /\ sent st' = sent st_open ++ b "hello"
    /\ __s st' = __s st_open.
Proof.
  apply write_returns_when_driver_accepts.
  - discriminate.
  - repeat constructor; eexists; reflexivity.
  - cbn. lia.
Defined.

(** ** Reading a line *)

Lemma endswith_no_newline buffer :
  Forall (fun x => x ≠ byte_of_ascii LF) buffer ->
  endswith buffer newline = false.
Proof.
  intros H. destruct buffer as [|x buffer] using rev_ind.
  - reflexivity.
  - unfold newline. rewrite endswith_snoc. apply bool_decide_eq_false.
    apply Forall_app in H as [_ H]. inversion H. assumption.
Qed.

Lemma read_until_loop_line before :
  forall polls buffer st data,
    Forall (fun x => x ≠ byte_of_ascii LF) buffer ->
    single_reads polls ->
    fst (read_until_loop newline None before buffer polls st)
    = Ret (Some data) ->
    exists body,
      data = body ++ newline /\ Forall (fun x => x ≠ byte_of_ascii LF) body.
Proof.
  induction polls as [|p polls IH]; intros buffer st data Hb Hp Hrun;
    cbn [read_until_loop] in Hrun.
  - destruct (__s st); discriminate.
  - destruct (__s st) as [ser|]; [|discriminate].
    apply Forall_cons in Hp as [Hp Hps].
    destruct (p_read p) as [d|]; [|discriminate].
    cbn [timed_out] in Hrun. rewrite orb_false_r in Hrun.
    assert (Hnext : forall st', 
              Forall (fun x => x ≠ byte_of_ascii LF) (buffer ++ d) ->
              fst (match p_sleep p with
                   | Resumed =>
                       read_until_loop newline None before (buffer ++ d) polls st'
                   | ResumedHandleCleared =>
                       read_until_loop newline None before (buffer ++ d) polls
                         (set_s None st')
                   | SleepCancelled => (Raise CancelledError, st')
                   end) = Ret (Some data) ->
              exists body,
                data = body ++ newline
                /\ Forall (fun x => x ≠ byte_of_ascii LF) body).
    { intros st' Hb' H. destruct (p_sleep p); [eapply IH; eassumption..|].
      discriminate. }
    destruct d as [|x [|y d]]; [| |cbn in Hp; lia].
    + rewrite app_nil_r in *. rewrite endswith_no_newline in Hrun by assumption.
      eapply Hnext; eassumption.
    + unfold newline in Hrun. rewrite endswith_snoc in Hrun.
      destruct (decide (x = byte_of_ascii LF)) as [->|Hne].
      * rewrite bool_decide_eq_true_2 in Hrun by reflexivity.
        cbn in Hrun. injection Hrun as <-. exists buffer. split; [reflexivity|assumption].
      * rewrite bool_decide_eq_false_2 in Hrun by assumption.
        eapply Hnext; [|eassumption]. apply Forall_app. split; [assumption|].
        constructor; [assumption|constructor].
Qed.

(** X5. A line that [read_until] returns for the default delimiter, with no
    timeout, holds one line feed and ends with it, the reads bringing a
    byte at a time: no byte of the next line is taken, and the protocol
    object is as it was. *)
Theorem read_until_line_has_one_newline before polls st data :
  single_reads polls ->
  fst (read_until newline None before polls st) = Ret (Some data) ->
  (exists body,
     data = body ++ newline /\ Forall (fun x => x ≠ byte_of_ascii LF) body)
  /\ snd (read_until newline None before polls st) = st.
Proof.
  intros Hp Hrun. split.
  - eapply (read_until_loop_line before polls []); [constructor|eassumption..].
  - unfold read_until in *.
    destruct (read_until_loop newline None before [] polls st) as [r st'] eqn:E.
    cbn in Hrun. subst r. apply read_until_loop_bytes in E. cbn. exact E.
Qed.

Lemma read_until_line_has_one_newline_witness :
  (exists body,
     b "ok" ++ newline = body ++ newline
     /\ Forall (fun x => x ≠ byte_of_ascii LF) body)
  /\ snd (read_until newline None 0 (feed (b "ok" ++ newline ++ b "next")) st_open)
     = st_open.
Proof.
  apply (read_until_line_has_one_newline 0
           (feed (b "ok" ++ newline ++ b "next")) st_open).
  - repeat constructor.
  - vm_compute. reflexivity.
Defined.

(** X6. With an empty delimiter [read_until] returns after its first read,
    with what that read brought. *)
Theorem read_until_empty_delimiter timeout before p polls data st :
  __s st ≠ None ->
  p_read p = ReadBytes data ->
  read_until [] timeout before (p :: polls) st = (Ret (Some data), st).
Proof.
  intros Hs Hr. unfold read_until. cbn [read_until_loop].
  destruct (__s st); [|contradiction]. rewrite Hr. cbn [app].
  assert (E : endswith data [] = true).
  { unfold endswith. apply bool_decide_eq_true. cbn [length].
    rewrite Nat.sub_0_r. apply drop_all. }
  rewrite E. reflexivity.
Qed.

Lemma read_until_empty_delimiter_witness :
  read_until [] None 0 [idle 0 Resumed] st_open = (Ret (Some []), st_open).
Proof.
  apply read_until_empty_delimiter; [discriminate|reflexivity].
Defined.

(** ** Frames that nobody waits for *)

Lemma trigger_listener_nobody event data g st :
  listeners_of event st = ∅ -> trigger_listener event data g st = (Ret tt, st).
Proof.
  intros H. unfold trigger_listener.
  destruct (__l st !! event) as [set_|] eqn:E; [|reflexivity].
  assert (Hs : set_ = ∅) by (unfold listeners_of in H; rewrite E in H; exact H).
  subst set_. rewrite size_empty, elements_empty. cbn [for_listeners].
  rewrite H, size_empty. rewrite decide_True by reflexivity. reflexivity.
Qed.

Lemma dispatch_frame_nobody x g st :
  (forall event, frame_event x = Some event -> listeners_of event st = ∅) ->
  dispatch_frame x g st = (Continue, st).
Proof.
  intros H. unfold dispatch_frame. unfold frame_event in H.
  destruct x as [| | | |xs|d]; try reflexivity.
  destruct (dict_get "event" d) as [[| | |event| |]|]; try reflexivity.
  rewrite trigger_listener_nobody by (apply H; reflexivity). reflexivity.
Qed.

(** X7. A received line that is good JSON but names no event (it is no
    dictionary, it has no "event", or its "event" is no string), or names
    an event that has no listener, changes nothing: no listener is called
    and the read loop goes on. *)
Theorem listen_skips_frame_without_listener x it c st :
  __s st ≠ None ->
  unique_keys x = true ->
  (forall event, frame_event x = Some event -> listeners_of event st = ∅) ->
  it_polls it = feed (frame_of x) ->
  it_sleep it = Resumed ->
  listen_turn it c st = (Again, st).
Proof.
  intros Hs Hu Hnobody Hpolls Hsl.
  unfold listen_turn, listen_body.
  destruct (__s st) as [ser|] eqn:Es; [|contradiction].
  rewrite Hpolls.
  destruct (frame_of_line x) as (body & Hframe & Hbody).
  pose proof (read_until_feed_line body (it_before it) st) as Hread.
  unfold read_until in Hread. rewrite <- Hframe in Hread.
  rewrite Hread by (congruence || assumption).
  rewrite json_load_frame_any by exact Hu.
  destruct (fits x); [rewrite dispatch_frame_nobody by exact Hnobody|];
    rewrite Hsl; reflexivity.
Qed.

Lemma listen_skips_frame_without_listener_witness :
  listen_turn (turn_of (frame_of (JList [JInt 1; JStr "event"]))) no_gather
    st_live
  = (Again, st_live).
Proof.
  apply (listen_skips_frame_without_listener (JList [JInt 1; JStr "event"])).
  - discriminate.
  - reflexivity.
  - intros event H. discriminate H.
  - reflexivity.
  - reflexivity.
Defined.

(** ** The line of a request *)

Lemma request_line_printable x :
  Forall (fun y => (32 <= Byte.to_N y <= 126)%N) (ascii_bytes (encode x)).
Proof.
  unfold ascii_bytes. apply Forall_map, Forall_forall. intros c Hc.
  pose proof (printable_encode x) as H.
  rewrite forallb_forall in H. apply list_elem_of_In, H in Hc.
  cbn. rewrite to_N_byte_of_ascii. unfold printable in Hc.
  apply andb_prop in Hc as [H1 H2]. apply N.leb_le in H1, H2. lia.
Qed.

(** X8. The line that [request] writes is one line, whatever the payload
    holds: every byte before the final carriage return and line feed is a
    printable ASCII character, the line breaks, control characters and
    characters above 126 of the strings being escaped. *)
Theorem request_writes_one_line event a d w1 w2 st st' :
  dicts st !! a = Some d ->
  request event (Some a) w1 w2 st = (Ret tt, st') ->
  exists body,
    sent st' = sent st ++ body ++ [byte_of_ascii CR; byte_of_ascii LF]
    /\ Forall (fun y => (32 <= Byte.to_N y <= 126)%N) body.
Proof.
  intros Hd Hrun.
  exists (ascii_bytes (encode (JDict (dict_set "event" (JStr event) d)))).
  split; [|apply request_line_printable].
  eapply request_sent; eassumption.
Qed.

Lemma request_writes_one_line_witness :
  exists body,
    sent (snd (request "x" (Some 2) [Wrote 128; Wrote 128] [Wrote 2] st_dialog))
    = sent st_dialog ++ body ++ [byte_of_ascii CR; byte_of_ascii LF]
    /\ Forall (fun y => (32 <= Byte.to_N y <= 126)%N) body.
Proof.
  apply (request_writes_one_line "x" 2 msg_dialog
           [Wrote 128; Wrote 128] [Wrote 2] st_dialog).
  - reflexivity.
  - vm_compute. reflexivity.
Defined.

(** ** A request and its reply *)

Lemma write_loop_same view ws pointer st :
  same_but_wire st (snd (write_loop view pointer ws st)).
Proof.
  apply (stable_write_loop (same_but_wire st)).
  - intros e st' H. exact H.
  - repeat split.
Qed.

Lemma write_goes_through data ws st :
  __s st ≠ None -> accepts ws -> length data <= length ws ->
  exists st',
    write data ws st = (Ret tt, st')
    /\ sent st' = sent st ++ data
    /\ same_but_wire st st'.
Proof.
  intros Hs Hall Hlen.
  destruct (write_loop_progress data ws 0 st Hs Hall) as (st' & Hrun & _);
    [lia|].
  exists st'. split; [exact Hrun|]. split.
  - apply write_loop_sent in Hrun. exact Hrun.
  - pose proof (write_loop_same data ws 0 st) as H.
    unfold write in Hrun. rewrite Hrun in H. exact H.
Qed.

Lemma request_goes_through event a d w1 w2 st :
  __s st ≠ None ->
  dicts st !! a = Some d ->
  accepts w1 -> accepts w2 ->
  length (encode (JDict (dict_set "event" (JStr event) d))) <= length w1 ->
  2 <= length w2 ->
  fits (JDict (dict_set "event" (JStr event) d)) = true ->
  exists st',
    request event (Some a) w1 w2 st = (Ret tt, st')
    /\ sent st' = sent st ++ frame_of (JDict (dict_set "event" (JStr event) d))
    /\ objs st' = objs st /\ __l st' = __l st /\ __s st' = __s st
    /\ __lt st' = __lt st /\ __v st' = __v st
    /\ dicts st' = <[a := dict_set "event" (JStr event) d]> (dicts st).
Proof.
  intros Hs Hd Hw1 Hw2 Hl1 Hl2 Hfits.
  set (msg := JDict (dict_set "event" (JStr event) d)) in *.
  set (st1 := set_dicts (<[a := dict_set "event" (JStr event) d]> (dicts st)) st).
  assert (Hbytes : utf8_encode (string_of_list_ascii (encode msg))
                   = ascii_bytes (encode msg)).
  { apply utf8_encode_printable, printable_encode. }
  destruct (write_goes_through (ascii_bytes (encode msg)) w1 st1)
    as (st2 & Hrun1 & Hsent1 & Ho1 & Hl1' & Hs1 & Hlt1 & Hv1 & Hd1);
    [exact Hs|exact Hw1|unfold ascii_bytes; rewrite length_map; exact Hl1|].
  destruct (write_goes_through [byte_of_ascii CR; byte_of_ascii LF] w2 st2)
    as (st3 & Hrun2 & Hsent2 & Ho2 & Hl2' & Hs2 & Hlt2 & Hv2 & Hd2);
    [rewrite Hs1; exact Hs|exact Hw2|exact Hl2|].
  exists st3. split.
  - unfold request. change (default request_default (Some a)) with a.
    rewrite Hd. fold msg st1. rewrite (json_dumps_fits msg Hfits).
    unfold write_str. rewrite Hbytes, Hrun1.
    exact Hrun2.
  - split.
    + rewrite Hsent2, Hsent1. unfold frame_of. rewrite <- app_assoc. reflexivity.
    + unfold st1 in *. cbn in *. repeat split; congruence.
Qed.

Lemma all_calm_same st st' :
  objs st' = objs st -> __l st' = __l st -> all_calm st -> all_calm st'.
Proof.
  intros Ho Hl [H1 H2]. split.
  - intros x o. rewrite Ho. apply H1.
  - intros e x. unfold listeners_of. rewrite Hl, Ho. apply H2.
Qed.

Lemma all_calm_update_obj x f st :
  (forall o, calm o -> calm (f o)) -> all_calm st -> all_calm (update_obj x f st).
Proof.
  intros Hf [H1 H2]. split.
  - intros y o. rewrite lookup_update_obj.
    destruct (decide (y = x)) as [->|_]; [|apply H1].
    destruct (objs st !! x) as [o'|] eqn:E; cbn; [|discriminate].
    intros [= <-]. apply Hf. eapply H1. exact E.
  - intros e y Hy. rewrite listeners_of_update_obj in Hy.
    apply H2 in Hy. rewrite lookup_update_obj.
    destruct (decide (y = x)) as [->|_]; [|exact Hy].
    destruct Hy as [o Ho]. rewrite Ho. cbn. eauto.
Qed.

Lemma all_calm_fresh st : all_calm st -> forall e, length (objs st) ∉ listeners_of e st.
Proof.
  intros [_ H] e Hx. apply H in Hx as [o Ho].
  apply lookup_lt_Some in Ho. lia.
Qed.

Lemma all_calm_add event o st :
  calm o -> all_calm st ->
  all_calm (add_listener event (length (objs st)) (set_objs (objs st ++ [o]) st)).
Proof.
  intros Ho [H1 H2]. split.
  - intros y o'. cbn. intros Hy. apply lookup_app_Some in Hy as [Hy|[_ Hy]].
    + eapply H1. exact Hy.
    + destruct (y - length (objs st)); cbn in Hy; [|discriminate].
      injection Hy as <-. exact Ho.
  - intros e y. rewrite listeners_of_add.
    change (objs (add_listener _ _ _)) with (objs st ++ [o]).
    change (listeners_of e (set_objs _ st)) with (listeners_of e st).
    intros Hy.
    assert (Hc : y = length (objs st) \/ y ∈ listeners_of e st)
      by (destruct (decide (event = e)); set_solver).
    destruct Hc as [->|Hc].
    + rewrite lookup_app_r by lia. rewrite Nat.sub_diag. cbn. eauto.
    + apply H2 in Hc as [o' Ho']. rewrite lookup_app_l by (eapply lookup_lt_Some; eassumption).
      eauto.
Qed.

Lemma wait_loop_done x timeout script ret st :
  expired timeout = false ->
  objs st !! x = Some (ResultEventListener true ret TaskPending) ->
  wait_loop x timeout script st
  = (Ret ret, update_obj x end_wait (loop_goes_on st)).
Proof.
  intros Ht H. destruct script; cbn [wait_loop]; rewrite H, Ht; reflexivity.
Qed.

Lemma listen_reads_reply it c reply ret st :
  all_calm st -> __s st ≠ None ->
  unique_keys reply = true -> fits reply = true ->
  frame_event reply = Some ret ->
  it_polls it = feed (frame_of reply) ->
  it_dispatch it = Gathered [] ->
  let st' := listen_reads [] it c st in
  (forall y, objs st' !! y
     = if decide (y ∈ listeners_of ret st)
       then deliver reply <$> objs st !! y else objs st !! y)
  /\ __l st' = __l st /\ __s st' = __s st /\ __v st' = __v st
  /\ wire st' = wire st /\ dicts st' = dicts st
  /\ __lt st' = Some (TaskSuspended AtLoopSleep).
Proof.
  intros Hcalm Hs Hu Hfit Hev Hpolls Hdisp. cbn zeta.
  unfold listen_reads, listen_body. rewrite Hpolls.
  destruct (frame_of_line reply) as (body & Hframe & Hbody).
  pose proof (read_until_feed_line body (it_before it) st) as Hread.
  unfold read_until in Hread. rewrite <- Hframe in Hread.
  rewrite Hread by assumption.
  rewrite json_load_frame by assumption.
  unfold dispatch_frame. unfold frame_event in Hev.
  destruct reply as [| | | | |d]; try discriminate.
  destruct (dict_get "event" d) as [[| | |event| |]|]; try discriminate.
  injection Hev as ->. rewrite Hdisp.
  destruct (trigger_listener_calm ret (JDict d) st Hcalm)
    as (st1 & Hrun & Hobj & Hl & Hs1 & Hv1 & Hlt1 & Hw1 & Hd1).
  rewrite Hrun. cbn. repeat split; assumption.
Qed.

Lemma wait_loop_turn_reply x timeout it c rest reply ret r0 st :
  all_calm st -> __s st ≠ None ->
  expired timeout = false ->
  objs st !! x = Some (ResultEventListener false r0 TaskPending) ->
  x ∈ listeners_of ret st ->
  unique_keys reply = true -> fits reply = true ->
  frame_event reply = Some ret ->
  it_polls it = feed (frame_of reply) ->
  it_dispatch it = Gathered [] ->
  __lt st = Some (TaskSuspended AtLoopSleep)
  \/ __lt st = Some (TaskSuspended (InReadUntil [])) ->
  exists st',
    wait_loop x timeout (ListenTurn it c :: rest) st = (Ret (Some reply), st')
    /\ __l st' = __l st /\ __s st' = __s st /\ __v st' = __v st
    /\ wire st' = wire st /\ dicts st' = dicts st
    /\ __lt st' = Some (TaskSuspended (InReadUntil [])).
Proof.
  intros Hcalm Hs Ht Hobj Hx Hu Hfit Hev Hpolls Hdisp Hlt.
  destruct (listen_reads_reply it c reply ret st Hcalm Hs Hu Hfit Hev Hpolls Hdisp)
    as (Hobj' & Hl & Hs' & Hv & Hw & Hd & Hlt').
  set (st1 := listen_reads [] it c st) in *.
  assert (Hruns : listen_runs it c st = st1).
  { unfold listen_runs. destruct Hlt as [-> | ->]; [|reflexivity].
    destruct (__s st); [reflexivity|contradiction]. }
  assert (Hgo : loop_goes_on st1
                = set_lt (Some (TaskSuspended (InReadUntil []))) st1).
  { unfold loop_goes_on. rewrite Hlt', Hs'.
    destruct (__s st); [reflexivity|contradiction]. }
  exists (update_obj x end_wait (loop_goes_on st1)). split.
  - cbn [wait_loop]. rewrite Hobj. cbn [andb]. rewrite Hruns.
    apply wait_loop_done; [exact Ht|]. rewrite Hobj', decide_True by exact Hx.
    rewrite Hobj. reflexivity.
  - rewrite Hgo. unfold update_obj.
    destruct (objs (set_lt _ st1) !! x); cbn; repeat split; assumption.
Qed.

Lemma wait_loop_reply x timeout script reply ret r0 st :
  all_calm st -> __s st ≠ None ->
  expired timeout = false ->
  objs st !! x = Some (ResultEventListener false r0 TaskPending) ->
  x ∈ listeners_of ret st ->
  unique_keys reply = true -> fits reply = true ->
  frame_event reply = Some ret ->
  reply_arrives reply script st ->
  exists st',
    wait_loop x timeout script st = (Ret (Some reply), st')
    /\ __l st' = __l st /\ __s st' = __s st /\ __v st' = __v st
    /\ wire st' = wire st /\ dicts st' = dicts st
    /\ __lt st' = Some (TaskSuspended (InReadUntil [])).
Proof.
  intros Hcalm Hs Ht Hobj Hx Hu Hfit Hev (it & c & rest & Hpolls & Hdisp & Hcase).
  destruct Hcase as [[-> Hlt]|[-> Hlt]].
  - eapply wait_loop_turn_reply; eassumption.
  - set (st1 := set_lt (Some (TaskSuspended (InReadUntil []))) st).
    assert (Hstart : listen_starts (Some 0) [] st = st1).
    { unfold listen_starts, flush_input. rewrite Hlt.
      destruct (__s st); [reflexivity|contradiction]. }
    assert (Hcalm1 : all_calm st1)
      by (apply (all_calm_same st); [reflexivity..|exact Hcalm]).
    destruct (wait_loop_turn_reply x timeout it c rest reply ret r0 st1
                Hcalm1 Hs Ht Hobj Hx Hu Hfit Hev Hpolls Hdisp (or_intror eq_refl))
      as (st' & Hrun & Hfacts).
    exists st'. split; [|exact Hfacts].
    cbn [wait_loop]. rewrite Hobj. cbn [andb]. rewrite Hstart. exact Hrun.
Qed.

Lemma reply_arrives_same reply script st st' :
  __lt st' = __lt st -> reply_arrives reply script st ->
  reply_arrives reply script st'.
Proof.
  intros Hlt (it & c & rest & H1 & H2 & H3).
  exists it, c, rest. rewrite Hlt. auto.
Qed.

Lemma request_with_result_gets_reply
    event data timeout w1 w2 script st d reply :
  all_calm st -> __s st ≠ None ->
  dicts st !! default request_with_result_default data = Some d ->
  accepts w1 -> accepts w2 ->
  length (encode (JDict (dict_set "event" (JStr event) d))) <= length w1 ->
  2 <= length w2 ->
  fits (JDict (dict_set "event" (JStr event) d)) = true ->
  expired timeout = false ->
  unique_keys reply = true -> fits reply = true ->
  frame_event reply = Some (String.append event "_return") ->
  reply_arrives reply script st ->
  exists st',
    request_with_result event data timeout w1 w2 script st
    = (Ret (Some reply), st')
    /\ (forall e, listeners_of e st' = listeners_of e st)
    /\ __s st' = __s st /\ __v st' = __v st
    /\ sent st' = sent st ++ frame_of (JDict (dict_set "event" (JStr event) d))
    /\ dicts st'
       = <[default request_with_result_default data
             := dict_set "event" (JStr event) d]> (dicts st)
    /\ __lt st' = Some (TaskSuspended (InReadUntil [])).
Proof.
  intros Hcalm Hs Hd Hw1 Hw2 Hl1 Hl2 Hfd Ht Hu Hfit Hev Harr.
  set (a := default request_with_result_default data) in *.
  set (x := length (objs st)).
  set (ret := String.append event "_return") in *.
  set (st0 := with_listener event st).
  assert (Hcalm0 : all_calm st0).
  { apply all_calm_add; [exact Logic.I|exact Hcalm]. }
  assert (Hx0 : x ∈ listeners_of ret st0).
  { unfold st0, with_listener. rewrite listeners_of_add.
    rewrite decide_True by reflexivity. set_solver. }
  assert (Hobj0 : objs st0 !! x = Some (ResultEventListener false None NoTask)).
  { unfold st0, with_listener. cbn. rewrite lookup_app_r by (unfold x; lia).
    unfold x. rewrite Nat.sub_diag. reflexivity. }
  destruct (request_goes_through event a d w1 w2 st0)
    as (st1 & Hreq & Hsent1 & Ho1 & HL1 & Hs1 & Hlt1 & Hv1 & Hd1);
    try assumption.
  set (st2 := update_obj x (set_bgt TaskPending) st1).
  assert (Hobj2 : objs st2 !! x = Some (ResultEventListener false None TaskPending)).
  { unfold st2. rewrite lookup_update_obj, decide_True by reflexivity.
    rewrite Ho1, Hobj0. reflexivity. }
  assert (Hcalm2 : all_calm st2).
  { apply all_calm_update_obj.
    - intros o Ho. destruct o; exact Ho.
    - eapply all_calm_same; [exact Ho1|exact HL1|exact Hcalm0]. }
  assert (Hfr2 : __l st2 = __l st0 /\ __s st2 = __s st /\ __v st2 = __v st
                 /\ wire st2 = wire st1 /\ dicts st2 = dicts st1
                 /\ __lt st2 = __lt st).
  { unfold st2, update_obj. destruct (objs st1 !! x); cbn;
      repeat split; assumption. }
  destruct Hfr2 as (HL2 & Hs2 & Hv2 & Hwire2 & Hd2 & Hlt2).
  destruct (wait_loop_reply x timeout script reply ret None st2)
    as (st3 & Hwait & HL3 & Hs3 & Hv3 & Hwire3 & Hd3 & Hlt3); try assumption.
  - rewrite Hs2. exact Hs.
  - unfold listeners_of. rewrite HL2. exact Hx0.
  - eapply reply_arrives_same; [exact Hlt2|exact Harr].
  - exists (remove_listener ret x st3). split.
    + assert (Hsw : send_and_wait event a x timeout w1 w2 script st0
                    = (Ret (Some reply), st3)).
      { unfold send_and_wait. rewrite Hreq. exact Hwait. }
      clear -Hsw. subst a x ret st0. unfold request_with_result.
      rewrite Hsw. reflexivity.
    + split.
      * intros e. rewrite listeners_of_remove.
        assert (He : listeners_of e st3 = listeners_of e st0)
          by (unfold listeners_of; rewrite HL3, HL2; reflexivity).
        rewrite He. unfold st0, with_listener. rewrite listeners_of_add.
        change (listeners_of e (set_objs _ st)) with (listeners_of e st).
        pose proof (all_calm_fresh st Hcalm e) as Hfresh. fold x in Hfresh.
        destruct (decide (ret = e)) as [<-|Hne].
        -- rewrite decide_True by reflexivity. set_solver.
        -- rewrite decide_False by exact Hne. reflexivity.
      * assert (Hrm : forall st', __s (remove_listener ret x st') = __s st'
                      /\ __v (remove_listener ret x st') = __v st'
                      /\ wire (remove_listener ret x st') = wire st'
                      /\ dicts (remove_listener ret x st') = dicts st'
                      /\ __lt (remove_listener ret x st') = __lt st').
        { intros st'. unfold remove_listener.
          destruct (__l st' !! ret); repeat split. }
        destruct (Hrm st3) as (E1 & E2 & E3 & E4 & E5).
        split; [congruence|]. split; [congruence|]. split; [|split].
        -- unfold sent. rewrite E3, Hwire3, Hwire2. exact Hsent1.
        -- rewrite E4, Hd3, Hd2, Hd1. reflexivity.
        -- rewrite E5. exact Hlt3.
Qed.

(** X9. [request_with_result] returns the reply. The transport is there,
    the payload can be printed and the driver takes at least a byte per
    call, no timeout is given or a positive one, and the line of a message
    for the event [event + "_return"], with integers that can be read, is
    the next thing that the read loop receives, before the deadline: the
    call returns that message, the line of the request is what was sent,
    and the listeners of every event are afterwards those of before the
    call. *)
Theorem request_with_result_returns_reply
    event data timeout w1 w2 script st d reply :
  all_calm st -> __s st ≠ None ->
  dicts st !! default request_with_result_default data = Some d ->
  fits (JDict (dict_set "event" (JStr event) d)) = true ->
  accepts w1 -> accepts w2 ->
  length (encode (JDict (dict_set "event" (JStr event) d))) <= length w1 ->
  2 <= length w2 ->
  expired timeout = false ->
  unique_keys reply = true -> fits reply = true ->
  frame_event reply = Some (String.append event "_return") ->
  reply_arrives reply script st ->
  let run := request_with_result event data timeout w1 w2 script st in
  fst run = Ret (Some reply)
  /\ (forall e, listeners_of e (snd run) = listeners_of e st)
  /\ sent (snd run)
     = sent st ++ frame_of (JDict (dict_set "event" (JStr event) d)).
Proof.
  intros Hcalm Hs Hd Hfd Hw1 Hw2 Hl1 Hl2 Ht Hu Hfit Hev Harr.
  destruct (request_with_result_gets_reply event data timeout w1 w2 script st
              d reply Hcalm Hs Hd Hw1 Hw2 Hl1 Hl2 Hfd Ht Hu Hfit Hev Harr)
    as (st' & Hrun & Hreg & _ & _ & Hsent & _).
  cbn zeta. rewrite Hrun. auto.
Qed.

Lemma accepts_repeat n k : accepts (repeat (Wrote (S n)) k).
Proof. induction k; constructor; eauto. Qed.

Lemma request_with_result_returns_reply_witness :
  let reply := JDict [("event", JStr "x_return"); ("value", JInt 1)] in
  let run := request_with_result "x" None (Some 1000%Z)
               (repeat (Wrote 1) 14) (repeat (Wrote 1) 2)
               [ListenTurn (turn_of (frame_of reply)) no_gather] st_live in
  fst run = Ret (Some reply)
  /\ (forall e, listeners_of e (snd run) = listeners_of e st_live)
  /\ sent (snd run)
     = sent st_live ++ frame_of (JDict (dict_set "event" (JStr "x") [])).
Proof.
  intros reply.
  apply (request_with_result_returns_reply "x" None (Some 1000%Z)
           (repeat (Wrote 1) 14) (repeat (Wrote 1) 2)
           [ListenTurn (turn_of (frame_of reply)) no_gather] st_live [] reply).
  - exact all_calm_st_live.
  - discriminate.
  - reflexivity.
  - reflexivity.
  - apply accepts_repeat.
  - apply accepts_repeat.
  - vm_compute. lia.
  - vm_compute. lia.
  - reflexivity.
  - reflexivity.
  - reflexivity.
  - reflexivity.
  - exists (turn_of (frame_of reply)), no_gather, [].
    split; [reflexivity|]. split; [reflexivity|].
    left. split; [reflexivity|]. right. reflexivity.
Defined.

(** With a timeout that is not positive the reply is not looked at. *)
Example request_with_result_expired :
  let reply := JDict [("event", JStr "x_return"); ("value", JInt 1)] in
  fst (request_with_result "x" None (Some 0%Z)
         (repeat (Wrote 1) 14) (repeat (Wrote 1) 2)
         [ListenTurn (turn_of (frame_of reply)) no_gather; TimerFires] st_live)
  = Raise TimeoutError.
Proof. vm_compute. reflexivity. Qed.

(** ** The handshake *)

(** X10. [_init] stores what the device reports. The port opens, the driver
    takes at least a byte per call, and the first line that the new read
    loop receives is a "protocol_version_return" message with a "version",
    its integers not too long to be read: [_init] returns [True], [version] is that value, of whatever type, the
    transport stays in place and the listeners of every event are those
    of before. *)
Theorem init_stores_reported_version
    port baudrate w ser it c rest d v st :
  all_calm st ->
  i_open w = Opened ser ->
  accepts (i_hello w) -> 2 <= length (i_hello w) ->
  accepts (i_w1 w) -> 29 <= length (i_w1 w) ->
  accepts (i_w2 w) -> 2 <= length (i_w2 w) ->
  i_wait w = ListenStarts (Some 0) [] :: ListenTurn it c :: rest ->
  it_polls it = feed (frame_of (JDict d)) ->
  it_dispatch it = Gathered [] ->
  unique_keys (JDict d) = true -> fits (JDict d) = true ->
  dict_get "event" d = Some (JStr "protocol_version_return") ->
  dict_get "version" d = Some v ->
  let run := _init port baudrate w st in
  fst run = Ret true
  /\ version (snd run) = v
  /\ __s (snd run) = Some ser
  /\ (forall e, listeners_of e (snd run) = listeners_of e st).
Proof.
  intros Hcalm Hopen Hh Hhl Hw1 Hl1 Hw2 Hl2 Hwait Hpolls Hdisp Hu Hfit Hev Hver.
  cbn zeta. unfold _init. rewrite Hopen.
  set (st1 := log_io (IoOpen port baudrate) (set_s (Some ser) st)).
  destruct (write_goes_through [byte_of_ascii CR; byte_of_ascii LF]
              (i_hello w) st1)
    as (st2 & Hrun2 & _ & Ho2 & HL2 & Hs2 & _ & _ & Hd2);
    [discriminate|exact Hh|exact Hhl|].
  unfold write_str.
  change (utf8_encode (String CR (String LF "")))
    with [byte_of_ascii CR; byte_of_ascii LF].
  rewrite Hrun2.
  set (st4 := set_dicts _ (set_lt (Some TaskCreated) st2)).
  assert (Hcalm4 : all_calm st4).
  { apply (all_calm_same st); [exact Ho2|exact HL2|exact Hcalm]. }
  assert (Hs4 : __s st4 = Some ser) by exact Hs2.
  destruct (request_with_result_gets_reply "protocol_version"
              (Some (length (dicts st2))) (Some handshake_timeout)
              (i_w1 w) (i_w2 w) (i_wait w) st4 [] (JDict d))
    as (st5 & Hrun5 & Hreg5 & Hs5 & _); try assumption.
  - rewrite Hs4. discriminate.
  - cbn. rewrite lookup_app_r by lia. rewrite Nat.sub_diag. reflexivity.
  - reflexivity.
  - reflexivity.
  - unfold frame_event. rewrite Hev. reflexivity.
  - exists it, c, rest. split; [exact Hpolls|]. split; [exact Hdisp|].
    right. split; [exact Hwait|reflexivity].
  - change (length (dicts (set_lt (Some TaskCreated) st2)))
      with (length (dicts st2)).
    fold st4. rewrite Hrun5, Hver. cbn.
    split; [reflexivity|]. split; [reflexivity|].
    split; [congruence|].
    intros e. change (listeners_of e (set_v v st5)) with (listeners_of e st5).
    rewrite Hreg5. unfold listeners_of. cbn. rewrite HL2. reflexivity.
Qed.

Lemma init_stores_reported_version_witness :
  let d := [("event", JStr "protocol_version_return");
            ("version", JStr "2.1")] in
  let w := {| i_open := Opened port0;
              i_hello := repeat (Wrote 1) 2;
              i_w1 := repeat (Wrote 1) 29;
              i_w2 := repeat (Wrote 1) 2;
              i_wait := [ListenStarts (Some 0) [];
                         ListenTurn (turn_of (frame_of (JDict d))) no_gather];
              i_cleanup := no_gather |} in
  let run := _init "/dev/ttyACM0" 115200 w st_live in
  fst run = Ret true
  /\ version (snd run) = JStr "2.1"
  /\ __s (snd run) = Some port0
  /\ (forall e, listeners_of e (snd run) = listeners_of e st_live).
Proof.
  intros d w.
  apply (init_stores_reported_version "/dev/ttyACM0" 115200 w port0
           (turn_of (frame_of (JDict d))) no_gather [] d (JStr "2.1") st_live).
  - exact all_calm_st_live.
  - reflexivity.
  - apply accepts_repeat.
  - cbn. lia.
  - apply accepts_repeat.
  - cbn. lia.
  - apply accepts_repeat.
  - cbn. lia.
  - reflexivity.
  - reflexivity.
  - reflexivity.
  - reflexivity.
  - reflexivity.
  - reflexivity.
  - reflexivity.
Defined.

(** ** Closing *)

(** X11. [close()] called while the read loop waits for input runs the
    clean-up to its end: the transport is closed and forgotten unless it
    was absent or closed already, the task handle is cleared and the
    version is back to 0. A second [close()] then does nothing. *)
Theorem close_cleans_up_once buffer c st :
  all_calm st ->
  __lt st = Some (TaskSuspended (InReadUntil buffer)) ->
  exists st1,
    close no_gather st = (Ret tt, st1)
    /\ (__s st1, wire st1) = closed_transport st
    /\ __lt st1 = None
    /\ __v st1 = JInt 0
    /\ close c st1 = (Ret tt, st1).
Proof.
  intros Hcalm Hlt.
  destruct (clean_up_calm st Hcalm) as (st1 & Hrun & _ & _ & Htr & Hlt1 & Hv).
  exists st1. unfold close. rewrite Hlt, Hlt1. cbn [inside_try].
  rewrite Hrun. cbn. auto.
Qed.

Lemma close_cleans_up_once_witness :
  exists st1,
    close no_gather st_live = (Ret tt, st1)
    /\ (__s st1, wire st1) = closed_transport st_live
    /\ __lt st1 = None
    /\ __v st1 = JInt 0
    /\ close no_gather st1 = (Ret tt, st1).
Proof.
  apply (close_cleans_up_once [] no_gather st_live).
  - exact all_calm_st_live.
  - reflexivity.
Defined.

(** ** The search for a port *)

(** X12. [init] with no port name tries the listed ports in turn: the ports
    that cannot be opened leave no trace, the first port on which [_init]
    succeeds ends the search with the outcome of that [_init], and a list
    on which no port opens gives [False] with the object untouched. *)
Theorem init_takes_first_port_that_answers
    baudrate pre device w post w0 st :
  Forall (fun pw => i_open (snd pw) = OpenFails) pre ->
  fst (_init device baudrate w st) = Ret true ->
  init "" baudrate (pre ++ (device, w) :: post) w0 st
  = _init device baudrate w st
  /\ init "" baudrate pre w0 st = (Ret false, st).
Proof.
  intros Hpre Hrun. unfold init. cbn [String.eqb].
  induction Hpre as [|[dev wd] pre Hd _ IH]; cbn [app try_ports].
  - destruct (_init device baudrate w st) as [r st'].
    cbn in Hrun. subst r. split; reflexivity.
  - cbn in Hd. unfold _init at 1 3. rewrite Hd. exact IH.
Qed.

Lemma init_takes_first_port_that_answers_witness :
  init "" 115200
    ([("/dev/ttyUSB0", no_port)] ++ ("/dev/ttyACM0", handshake_ok)
       :: [("/dev/ttyACM1", handshake_ok)]) no_port init_state
  = _init "/dev/ttyACM0" 115200 handshake_ok init_state
  /\ init "" 115200 [("/dev/ttyUSB0", no_port)] no_port init_state
     = (Ret false, init_state).
Proof.
  apply init_takes_first_port_that_answers.
  - repeat constructor.
  - vm_compute. reflexivity.
Defined.

(** ** [SerialDevice] *)

Lemma dict_set_event_new event req :
  dict_get "event" req = None ->
  dict_set "event" (JStr event) req = req ++ [("event", JStr event)].
Proof.
  induction req as [|[k x] req IH]; cbn [dict_get dict_set app]; [reflexivity|].
  destruct (String.eqb "event" k); [discriminate|].
  intros H. rewrite (IH H). reflexivity.
Qed.

Lemma ask_answered event req value a st :
  all_calm st -> __s st ≠ None ->
  answered event req value a st ->
  exists st',
    ask event req a st = (Returns value, st')
    /\ sent st' = sent st ++ frame_of (JDict (dict_set "event" (JStr event) req))
    /\ (forall e, listeners_of e st' = listeners_of e st)
    /\ __s st' = __s st.
Proof.
  intros Hcalm Hs
    (Hfd & Hw1 & Hw2 & Hl1 & Hl2 & reply & Hu & Hfit & Hev & Hval & Harr).
  set (st1 := set_dicts (dicts st ++ [req]) st).
  assert (Hd1 : dicts st1 !! default request_with_result_default
                               (Some (length (dicts st))) = Some req).
  { cbn. rewrite lookup_app_r by lia. rewrite Nat.sub_diag. reflexivity. }
  assert (Hfe : frame_event (JDict reply) = Some (String.append event "_return")).
  { unfold frame_event. rewrite Hev. reflexivity. }
  destruct (request_with_result_gets_reply event (Some (length (dicts st)))
              None (a_w1 a) (a_w2 a) (a_wait a) st1 req (JDict reply)
              Hcalm Hs Hd1 Hw1 Hw2 Hl1 Hl2 Hfd eq_refl Hu Hfit Hfe Harr)
    as (st2 & Hrun & Hreg & Hs2 & _ & Hsent & _).
  exists st2. unfold ask. fold st1. rewrite Hrun, Hval.
  split; [reflexivity|]. split; [exact Hsent|]. split; [exact Hreg|exact Hs2].
Qed.

(** X13. Each method of [SerialDevice] sends one line, its arguments under
    their names followed by the name of the event, and returns the "value"
    of the reply, the request being printed, written and answered (no
    integer of the options or of the reply is too long to be converted);
    the two menus ask for one option at least, and without any they raise
    [AssertionError] and nothing is sent. *)
Theorem device_methods_return_value a st value :
  all_calm st -> __s st ≠ None ->
  (forall text title text_yes text_no,
     let req := [("text", JStr text); ("title", JStr title);
                 ("text_yes", JStr text_yes); ("text_no", JStr text_no)] in
     answered "dialog" req value a st ->
     let run := dialog text title text_yes text_no a st in
     fst run = Returns value
     /\ sent (snd run)
        = sent st ++ frame_of (JDict (req ++ [("event", JStr "dialog")])))
  /\ (forall text title options text_yes text_no,
        let req := [("text", JStr text); ("title", JStr title);
                    ("options", JList options);
                    ("text_yes", JStr text_yes); ("text_no", JStr text_no)] in
        options ≠ [] ->
        answered "select_menu" req value a st ->
        let run := select_menu text title options text_yes text_no a st in
        fst run = Returns value
        /\ sent (snd run)
           = sent st ++ frame_of (JDict (req ++ [("event", JStr "select_menu")])))
  /\ (forall title options text_yes text_no,
        let req := [("title", JStr title); ("options", JList options);
                    ("text_yes", JStr text_yes); ("text_no", JStr text_no)] in
        options ≠ [] ->
        answered "select_list" req value a st ->
        let run := select_list title options text_yes text_no a st in
        fst run = Returns value
        /\ sent (snd run)
           = sent st ++ frame_of (JDict (req ++ [("event", JStr "select_list")])))
  /\ (forall text title,
        let req := [("text", JStr text); ("title", JStr title)] in
        answered "input_text" req value a st ->
        let run := input_text text title a st in
        fst run = Returns value
        /\ sent (snd run)
           = sent st ++ frame_of (JDict (req ++ [("event", JStr "input_text")])))
  /\ (forall text title text_yes text_no,
        select_menu text title [] text_yes text_no a st
        = (Raises AssertionError, st))
  /\ (forall title text_yes text_no,
        select_list title [] text_yes text_no a st
        = (Raises AssertionError, st)).
Proof.
  intros Hcalm Hs.
  assert (Hask : forall event req,
            dict_get "event" req = None ->
            answered event req value a st ->
            fst (ask event req a st) = Returns value
            /\ sent (snd (ask event req a st))
               = sent st ++ frame_of (JDict (req ++ [("event", JStr event)]))).
  { intros event req Hnew Hans.
    destruct (ask_answered event req value a st Hcalm Hs Hans)
      as (st' & Hrun & Hsent & _).
    rewrite Hrun. cbn. rewrite Hsent, dict_set_event_new by exact Hnew. auto. }
  split; [|split; [|split; [|split; [|split; reflexivity]]]].
  - intros text title text_yes text_no req Hans. cbn zeta.
    unfold dialog. apply Hask; [reflexivity|exact Hans].
  - intros text title options text_yes text_no req Hne Hans. cbn zeta.
    unfold select_menu. destruct options; [contradiction|].
    cbn [length Nat.ltb Nat.leb]. apply Hask; [reflexivity|exact Hans].
  - intros title options text_yes text_no req Hne Hans. cbn zeta.
    unfold select_list. destruct options; [contradiction|].
    cbn [length Nat.ltb Nat.leb]. apply Hask; [reflexivity|exact Hans].
  - intros text title req Hans. cbn zeta.
    unfold input_text. apply Hask; [reflexivity|exact Hans].
Qed.

Lemma device_methods_return_value_witness :
  let reply := [("event", JStr "dialog_return"); ("value", JInt 0)] in
  let a := {| a_w1 := repeat (Wrote 1) 100;
              a_w2 := repeat (Wrote 1) 2;
              a_wait := [ListenTurn (turn_of (frame_of (JDict reply)))
                           no_gather] |} in
  fst (dialog "No wifi found." "" "OK" "OK" a st_live) = Returns (JInt 0).
Proof.
  intros reply a.
  assert (Hs : __s st_live ≠ None) by discriminate.
  destruct (device_methods_return_value a st_live (JInt 0)
              all_calm_st_live Hs) as (Hd & _).
  assert (Hans : answered "dialog"
                   [("text", JStr "No wifi found."); ("title", JStr "");
                    ("text_yes", JStr "OK"); ("text_no", JStr "OK")]
                   (JInt 0) a st_live).
  { split; [reflexivity|].
    split; [apply accepts_repeat|]. split; [apply accepts_repeat|].
    split; [vm_compute; lia|]. split; [vm_compute; lia|].
    exists reply. split; [reflexivity|]. split; [reflexivity|].
    split; [reflexivity|]. split; [reflexivity|].
    exists (turn_of (frame_of (JDict reply))), no_gather, [].
    split; [reflexivity|]. split; [reflexivity|].
    left. split; [reflexivity|]. right. reflexivity. }
  exact (proj1 (Hd "No wifi found." "" "OK" "OK" Hans)).
Defined.

(** ** The paged menu *)

Lemma select_loop_in_range title options :
  forall asks offset st r st',
    select_loop title options offset asks st = (Returns r, st') ->
    exists n, r = JInt n /\ (n < 0 \/ 0 <= n < Z.of_nat (length options))%Z.
Proof.
  induction asks as [|a asks IH]; intros offset st r st' Hrun;
    cbn [select_loop] in Hrun; [discriminate|].
  set (offset' := if (length options <=? offset)%nat then 0 else offset) in *.
  set (opt := take PAGESIZE (drop offset' options) ++ [more]) in *.
  destruct (select_list title opt "OK" "CANCEL" a st) as [[sel|e|] st1];
    try discriminate.
  destruct (as_int sel) as [n|]; [|discriminate].
  destruct (n <? 0)%Z eqn:Hneg.
  - apply Z.ltb_lt in Hneg. injection Hrun as <- _.
    eexists. split; [reflexivity|]. left.
    destruct (- Z.of_nat PAGESIZE <? n)%Z; lia.
  - apply Z.ltb_ge in Hneg.
    destruct (Z.of_nat (length opt) - 1 <=? n)%Z eqn:Hmore.
    + eapply IH. exact Hrun.
    + apply Z.leb_gt in Hmore. injection Hrun as <- _.
      eexists. split; [reflexivity|]. right.
      assert (Hlen : length opt <= length options - offset' + 1).
      { unfold opt. rewrite length_app, length_take, length_drop.
        cbn [length]. lia. }
      assert (Hoff : offset' < length options \/ length opt = 1).
      { unfold offset'. destruct (length options <=? offset)%nat eqn:E.
        - destruct options; [right; reflexivity|left; cbn; lia].
        - apply Nat.leb_gt in E. left. exact E. }
      lia.
Qed.

(** X14. [select] over more options than fit on a page hands back no
    index that is out of range, as long as the device does not answer with
    a float: whatever else it answers, and however many pages are turned,
    a result is an integer that is negative or the index of an option. A
    float is no value of the model ([as_int]); [select] would hand it back
    as it is. *)
Theorem select_returns_a_valid_index title options asks st r :
  PAGESIZE + 1 < length options ->
  fst (select title options asks st) = Returns r ->
  exists n, r = JInt n /\ (n < 0 \/ 0 <= n < Z.of_nat (length options))%Z.
Proof.
  intros Hlen Hrun. unfold select in Hrun.
  assert (E : (length options <=? PAGESIZE + 1)%nat = false)
    by (apply Nat.leb_gt; exact Hlen).
  rewrite E in Hrun.
  destruct (select_loop title options 0 asks st) as [r' st'] eqn:Hloop.
  cbn in Hrun. subst r'. eapply select_loop_in_range. exact Hloop.
Qed.

Lemma select_returns_a_valid_index_witness :
  exists n, JInt 6 = JInt n /\ (n < 0 \/ 0 <= n < Z.of_nat (length networks))%Z.
Proof.
  apply (select_returns_a_valid_index "WIFI" networks
           [answer "select_list" (JInt 5); answer "select_list" (JInt 1)]
           st_live (JInt 6)).
  - cbn. lia.
  - vm_compute. reflexivity.
Defined.

(** The pages of seven options: "More" on the second page shows the first
    page again; a negative answer on the second page is moved by the
    offset of the page. *)
Example select_turns_pages :
  fst (select "WIFI" networks
         [answer "select_list" (JInt 5); answer "select_list" (JInt 2);
          answer "select_list" (JInt 4)] st_live)
  = Returns (JInt 4)
  /\ fst (select "WIFI" networks
            [answer "select_list" (JInt 5); answer "select_list" (JInt (-2))]
            st_live)
     = Returns (JInt (-7)).
Proof. vm_compute. split; reflexivity. Qed.

(** ** The queueing listener *)

Lemma all_calm_trigger event data st :
  all_calm st ->
  exists st1,
    trigger_listener event data (Gathered []) st = (Ret tt, st1)
    /\ all_calm st1
    /\ (forall y, objs st1 !! y
          = if decide (y ∈ listeners_of event st)
            then deliver data <$> objs st !! y else objs st !! y)
    /\ __l st1 = __l st
    /\ link_is st st1.
Proof.
  intros Hcalm.
  destruct (trigger_listener_calm event data st Hcalm)
    as (st1 & Hrun & Hobj & HL & Hlink).
  exists st1. split; [exact Hrun|]. split; [|auto].
  destruct Hcalm as [H1 H2]. split.
  - intros y o. rewrite Hobj.
    destruct (decide _); [|apply H1].
    destruct (objs st !! y) as [o'|] eqn:E; cbn; [|discriminate].
    intros [= <-]. apply calm_deliver. eapply H1. exact E.
  - intros e y. unfold listeners_of. rewrite HL. intros Hy.
    apply H2 in Hy. rewrite Hobj.
    destruct (decide _); [|exact Hy].
    destruct Hy as [o Ho]. rewrite Ho. cbn. eauto.
Qed.

Lemma dispatch_all_queue event x ms :
  forall ev q bgt c st,
    all_calm st -> x ∈ listeners_of event st ->
    objs st !! x = Some (ResultQueueListener ev q bgt c) ->
    exists ev',
      objs (dispatch_all event ms st) !! x
      = Some (ResultQueueListener ev' (q ++ ms) bgt c)
      /\ (ms ≠ [] -> ev' = true).
Proof.
  induction ms as [|m ms IH]; intros ev q bgt c st Hcalm Hx Hobj.
  - exists ev. cbn. rewrite app_nil_r. split; [exact Hobj|congruence].
  - cbn [dispatch_all fold_left].
    destruct (all_calm_trigger event m st Hcalm)
      as (st1 & Hrun & Hcalm1 & Hobj1 & HL1 & _).
    rewrite Hrun. cbn [snd].
    destruct (IH true (q ++ [m]) bgt c st1) as (ev' & Hq & Hev).
    + exact Hcalm1.
    + unfold listeners_of. rewrite HL1. exact Hx.
    + rewrite Hobj1, decide_True by exact Hx. rewrite Hobj. reflexivity.
    + exists ev'. rewrite <- app_assoc in Hq. split; [exact Hq|].
      intros _. destruct ms; [|apply Hev; discriminate].
      cbn in Hq. rewrite Hobj1, decide_True in Hq by exact Hx.
      rewrite Hobj in Hq. cbn in Hq. congruence.
Qed.

Lemma anext_many_drains x q :
  forall ev bgt scripts st,
    objs st !! x = Some (ResultQueueListener ev q bgt false) ->
    length scripts = length q ->
    fst (anext_many x scripts st) = map Returns q
    /\ objs (snd (anext_many x scripts st)) !! x
       = Some (ResultQueueListener ev [] bgt false).
Proof.
  induction q as [|m q IH]; intros ev bgt scripts st Hobj Hlen.
  - destruct scripts; [|discriminate]. cbn. auto.
  - destruct scripts as [|script scripts]; [discriminate|].
    cbn [anext_many]. unfold anext, popleft. rewrite Hobj.
    destruct (IH ev bgt scripts (update_obj x pop st)) as [Hr Ho].
    + rewrite lookup_update_obj, decide_True by reflexivity.
      rewrite Hobj. reflexivity.
    + cbn in Hlen. lia.
    + destruct (anext_many x scripts (update_obj x pop st)) as [rs st2].
      cbn in *. rewrite Hr. auto.
Qed.

(** X15. A queueing listener hands out the messages in the order of their
    dispatch: what was queued before and the messages dispatched to its
    event while the consumer was busy come out oldest first, one for each
    call of [__anext__], without the consumer being suspended. *)
Theorem queued_messages_come_in_order event x ev q bgt ms scripts st :
  all_calm st ->
  x ∈ listeners_of event st ->
  objs st !! x = Some (ResultQueueListener ev q bgt false) ->
  length scripts = length (q ++ ms) ->
  fst (anext_many x scripts (dispatch_all event ms st)) = map Returns (q ++ ms).
Proof.
  intros Hcalm Hx Hobj Hlen.
  destruct (dispatch_all_queue event x ms ev q bgt false st Hcalm Hx Hobj)
    as (ev' & Hq & _).
  apply (anext_many_drains x (q ++ ms) ev' bgt scripts _ Hq Hlen).
Qed.

Lemma queued_messages_come_in_order_witness :
  fst (anext_many 2 [[]; [Cancel]]
         (dispatch_all "x" [JInt 1; JInt 2] st_live))
  = [Returns (JInt 1); Returns (JInt 2)].
Proof.
  apply (queued_messages_come_in_order "x" 2 false [] NoTask
           [JInt 1; JInt 2] [[]; [Cancel]] st_live).
  - exact all_calm_st_live.
  - apply elem_of_elements. vm_compute. repeat constructor.
  - reflexivity.
  - reflexivity.
Defined.

(** X16. A message that arrives while no consumer waits leaves the event of
    the listener set. The consumer gets the message at its next call; at
    the call after that, the queue being empty, it is resumed at once and
    [popleft] raises [IndexError], unless another message has arrived
    before it is resumed. *)
Theorem anext_raises_after_unawaited_message event x m script st :
  all_calm st ->
  x ∈ listeners_of event st ->
  objs st !! x = Some (ResultQueueListener false [] NoTask false) ->
  let st1 := dispatch_all event [m] st in
  fst (anext x script st1) = Returns m
  /\ fst (anext x [] (snd (anext x script st1))) = Raises IndexError.
Proof.
  intros Hcalm Hx Hobj st1.
  destruct (dispatch_all_queue event x [m] false [] NoTask false st
              Hcalm Hx Hobj) as (ev' & Hq & Hev).
  rewrite (Hev ltac:(discriminate)) in Hq. fold st1 in Hq. cbn [app] in Hq.
  unfold anext at 1 3. unfold popleft. rewrite Hq. cbn [fst snd].
  split; [reflexivity|].
  set (st2 := update_obj x pop st1).
  assert (H2 : objs st2 !! x = Some (ResultQueueListener true [] NoTask false)).
  { unfold st2. rewrite lookup_update_obj, decide_True by reflexivity.
    rewrite Hq. reflexivity. }
  unfold anext. rewrite H2.
  set (st3 := update_obj x (set_bgt TaskPending) st2).
  assert (H3 : objs st3 !! x = Some (ResultQueueListener true [] TaskPending false)).
  { unfold st3. rewrite lookup_update_obj, decide_True by reflexivity.
    rewrite H2. reflexivity. }
  cbn [anext_wait]. rewrite H3.
  unfold popleft. rewrite lookup_update_obj, decide_True by reflexivity.
  rewrite H3. reflexivity.
Qed.

Lemma anext_raises_after_unawaited_message_witness :
  let st1 := dispatch_all "x" [JInt 1] st_live in
  fst (anext 2 [] st1) = Returns (JInt 1)
  /\ fst (anext 2 [] (snd (anext 2 [] st1))) = Raises IndexError.
Proof.
  apply (anext_raises_after_unawaited_message "x" 2 (JInt 1) [] st_live).
  - exact all_calm_st_live.
  - apply elem_of_elements. vm_compute. repeat constructor.
  - reflexivity.
Defined.

(** X17. A consumer that waits in [__anext__] is resumed with the message
    that the read loop receives and dispatches to the event of its
    listener; it stays suspended while nothing arrives, or when the line
    of the message is dropped for an integer that is too long to be read,
    and waits again at its next call. *)
Theorem anext_returns_awaited_message event x m it c st :
  all_calm st -> __s st ≠ None ->
  __lt st = Some (TaskSuspended AtLoopSleep)
  \/ __lt st = Some (TaskSuspended (InReadUntil [])) ->
  x ∈ listeners_of event st ->
  objs st !! x = Some (ResultQueueListener false [] NoTask false) ->
  unique_keys m = true ->
  frame_event m = Some event ->
  it_polls it = feed (frame_of m) ->
  it_dispatch it = Gathered [] ->
  fst (anext x [] st) = Suspends
  /\ fst (anext x [ListenTurn it c] st)
     = (if fits m then Returns m else Suspends)
  /\ fst (anext x [] (snd (anext x [ListenTurn it c] st))) = Suspends.
Proof.
  intros Hcalm Hs Hlt Hx Hobj Hu Hev Hpolls Hdisp.
  set (st1 := update_obj x (set_bgt TaskPending) st).
  assert (H1 : objs st1 !! x
               = Some (ResultQueueListener false [] TaskPending false)).
  { unfold st1. rewrite lookup_update_obj, decide_True by reflexivity.
    rewrite Hobj. reflexivity. }
  assert (Hsame : __l st1 = __l st /\ __s st1 = __s st /\ __lt st1 = __lt st).
  { unfold st1, update_obj. rewrite Hobj. repeat split. }
  destruct Hsame as (HL1 & Hs1 & Hlt1).
  assert (Hcalm1 : all_calm st1).
  { apply all_calm_update_obj; [|exact Hcalm]. intros o Ho. destruct o; exact Ho. }
  assert (Hs1' : __s st1 ≠ None) by (rewrite Hs1; exact Hs).
  assert (Hruns : listen_runs it c st1 = listen_reads [] it c st1).
  { unfold listen_runs. rewrite Hlt1. destruct Hlt as [-> | ->]; [|reflexivity].
    destruct (__s st1); [reflexivity|contradiction]. }
  destruct (fits m) eqn:Hfit; cycle 1.
  { assert (Hdrop : listen_reads [] it c st1
                    = set_lt (Some (TaskSuspended AtLoopSleep)) st1).
    { unfold listen_reads, listen_body. rewrite Hpolls.
      destruct (frame_of_line m) as (body & Hframe & Hbody).
      pose proof (read_until_feed_line body (it_before it) st1) as Hread.
      unfold read_until in Hread. rewrite <- Hframe in Hread.
      rewrite Hread by assumption.
      rewrite json_load_frame_any, Hfit by exact Hu. reflexivity. }
    assert (Hrun : anext x [ListenTurn it c] st
                   = (Suspends, set_lt (Some (TaskSuspended AtLoopSleep)) st1)).
    { unfold anext. rewrite Hobj. fold st1. cbn [anext_wait].
      rewrite H1, Hruns, Hdrop. change (objs (set_lt _ st1)) with (objs st1).
      rewrite H1. reflexivity. }
    split; [|rewrite Hrun; split; [reflexivity|]].
    - unfold anext. rewrite Hobj. fold st1. cbn [anext_wait]. rewrite H1.
      reflexivity.
    - cbn [fst snd]. unfold anext.
      change (objs (set_lt _ st1)) with (objs st1). rewrite H1.
      cbn [anext_wait].
      rewrite lookup_update_obj, decide_True by reflexivity.
      change (objs (set_lt _ st1)) with (objs st1). rewrite H1. reflexivity. }
  destruct (listen_reads_reply it c m event st1 Hcalm1 Hs1' Hu Hfit Hev Hpolls Hdisp)
    as (Hobj2 & HL2 & _).
  set (st2 := listen_reads [] it c st1) in *.
  assert (H2 : objs st2 !! x
               = Some (ResultQueueListener true [m] TaskPending false)).
  { rewrite Hobj2, decide_True by (unfold listeners_of; rewrite HL1; exact Hx).
    rewrite H1. reflexivity. }
  split.
  - unfold anext. rewrite Hobj. fold st1. cbn [anext_wait]. rewrite H1.
    reflexivity.
  - assert (Hrun : anext x [ListenTurn it c] st
                   = (Returns m, update_obj x pop (update_obj x end_wait_queue st2))).
    { unfold anext. rewrite Hobj. fold st1. cbn [anext_wait].
      rewrite H1, Hruns, H2.
      unfold popleft. rewrite lookup_update_obj, decide_True by reflexivity.
      rewrite H2. reflexivity. }
    rewrite Hrun. cbn [fst snd]. split; [reflexivity|].
    set (st4 := update_obj x pop (update_obj x end_wait_queue st2)).
    assert (H4 : objs st4 !! x = Some (ResultQueueListener false [] NoTask false)).
    { unfold st4. rewrite !lookup_update_obj, !decide_True by reflexivity.
      rewrite H2. reflexivity. }
    unfold anext. rewrite H4. cbn [anext_wait].
    rewrite lookup_update_obj, decide_True by reflexivity. rewrite H4.
    reflexivity.
Qed.

Lemma anext_returns_awaited_message_witness :
  let it := turn_of (frame_of msg_x) in
  fst (anext 2 [] st_live) = Suspends
  /\ fst (anext 2 [ListenTurn it no_gather] st_live) = Returns msg_x
  /\ fst (anext 2 [] (snd (anext 2 [ListenTurn it no_gather] st_live)))
     = Suspends.
Proof.
  intros it.
  apply (anext_returns_awaited_message "x" 2 msg_x it no_gather st_live).
  - exact all_calm_st_live.
  - discriminate.
  - right. reflexivity.
  - apply elem_of_elements. vm_compute. repeat constructor.
  - reflexivity.
  - reflexivity.
  - reflexivity.
  - reflexivity.
  - reflexivity.
Defined.

Lemma iter_cancel_queue n ev q bgt c :
  exists bgt',
    Nat.iter (S n) cancel_body (ResultQueueListener ev q bgt c)
    = ResultQueueListener ev q bgt' true
    /\ (bgt = NoTask -> bgt' = NoTask)
    /\ (bgt = TaskPending -> bgt' = NoTask).
Proof.
  induction n as [|n (bgt' & IH & H1 & H2)].
  - exists (cancel_task bgt). cbn. split; [reflexivity|].
    split; intros ->; reflexivity.
  - exists (cancel_task bgt'). rewrite Nat.iter_succ, IH. cbn.
    split; [reflexivity|].
    split; intros E; [rewrite (H1 E)|rewrite (H2 E)]; reflexivity.
Qed.

(** X18. Once the clean-up has run, a registered queueing listener hands out
    nothing more: the next call of [__anext__] ends the iteration, and the
    messages that are still queued, the "closed" message among them, are
    never seen by the consumer. *)
Theorem anext_stops_after_clean_up e x ev q script st :
  all_calm st ->
  x ∈ listeners_of e st ->
  objs st !! x = Some (ResultQueueListener ev q NoTask false) ->
  let st' := snd (_clean_up no_gather st) in
  fst (_clean_up no_gather st) = Ret tt
  /\ anext x script st' = (Raises StopAsyncIteration, st')
  /\ exists ev' q', objs st' !! x = Some (ResultQueueListener ev' q' NoTask true)
                    /\ q `prefix_of` q'
                    /\ (x ∈ listeners_of "closed" st -> q' = q ++ [closed_message]).
Proof.
  intros Hcalm Hx Hobj.
  destruct (clean_up_calm st Hcalm) as (st' & Hrun & Hobj' & _).
  rewrite Hrun. cbn [fst snd].
  pose proof (registered_once e x st Hx) as Hreg.
  specialize (Hobj' x). rewrite Hobj in Hobj'.
  cbn [fmap option_fmap option_map] in Hobj'.
  destruct (registrations x st) as [|n]; [lia|].
  assert (Hx' : exists ev' q',
            objs st' !! x = Some (ResultQueueListener ev' q' NoTask true)
            /\ q `prefix_of` q'
            /\ (x ∈ listeners_of "closed" st -> q' = q ++ [closed_message])).
  { destruct (decide (x ∈ listeners_of "closed" st)) as [Hc|Hc].
    - cbn [deliver] in Hobj'.
      destruct (iter_cancel_queue n true (q ++ [closed_message]) NoTask false)
        as (bgt' & E & Hb & _).
      rewrite E, (Hb eq_refl) in Hobj'.
      exists true, (q ++ [closed_message]). split; [exact Hobj'|].
      split; [apply prefix_app_r; reflexivity|auto].
    - destruct (iter_cancel_queue n ev q NoTask false) as (bgt' & E & Hb & _).
      rewrite E, (Hb eq_refl) in Hobj'.
      exists ev, q. split; [exact Hobj'|]. split; [reflexivity|].
      intros; contradiction. }
  split; [reflexivity|]. split; [|exact Hx'].
  destruct Hx' as (ev' & q' & Ho & _). unfold anext. rewrite Ho. reflexivity.
Qed.

Lemma anext_stops_after_clean_up_witness :
  let st' := snd (_clean_up no_gather st_live) in
  fst (_clean_up no_gather st_live) = Ret tt
  /\ anext 3 [] st' = (Raises StopAsyncIteration, st')
  /\ exists ev' q', objs st' !! 3 = Some (ResultQueueListener ev' q' NoTask true)
                    /\ [] `prefix_of` q'
                    /\ (3 ∈ listeners_of "closed" st_live
                        -> q' = [] ++ [closed_message]).
Proof.
  apply (anext_stops_after_clean_up "closed" 3 false [] [] st_live).
  - exact all_calm_st_live.
  - apply elem_of_elements. vm_compute. repeat constructor.
  - reflexivity.
Defined.

(** ** [event_iter] *)

Section StableQueue.

Variable I : SerialProtocol -> Prop.
Variable ok : reg_op -> Prop.

Hypothesis I_set_s : forall x st, I st -> I (set_s x st).
Hypothesis I_set_v : forall x st, I st -> I (set_v x st).
Hypothesis I_set_lt : forall x st, I st -> I (set_lt x st).
Hypothesis I_log_io : forall e st, I st -> I (log_io e st).
Hypothesis I_update_obj : forall x f st,
  (forall o, obj_ops (f o) = obj_ops o) -> I st -> I (update_obj x f st).
Hypothesis I_run_op : forall o st, ok o -> I st -> I (run_op o st).
Hypothesis I_methods : forall st x o,
  I st -> objs st !! x = Some o -> Forall ok (obj_ops o).

Lemma obj_ops_pop o : obj_ops (pop o) = obj_ops o.
Proof. destruct o as [| ? [|] |]; reflexivity. Qed.

Lemma obj_ops_end_wait_queue o : obj_ops (end_wait_queue o) = obj_ops o.
Proof. destruct o; reflexivity. Qed.

Lemma stable_popleft x st : I st -> I (snd (popleft x st)).
Proof.
  intros HI. unfold popleft.
  destruct (objs st !! x) as [[| ? [|] |]|]; cbn; auto.
  apply I_update_obj; [apply obj_ops_pop|assumption].
Qed.

Lemma stable_anext_wait x :
  forall script st,
    Forall ok (script_ops script) -> I st ->
    I (snd (anext_wait x script st)).
Proof.
  assert (Hstop : forall st, I st -> I (update_obj x (set_bgt NoTask) st)).
  { intros st HI. apply I_update_obj; [apply obj_ops_set_bgt|assumption]. }
  assert (Hend : forall st, I st -> I (update_obj x end_wait_queue st)).
  { intros st HI. apply I_update_obj; [apply obj_ops_end_wait_queue|assumption]. }
  induction script as [|e script IH]; intros st Hs HI.
  - cbn. destruct (objs st !! x) as [[|ev q [|] c|]|]; cbn; auto;
      destruct ev; cbn; auto; apply stable_popleft; auto.
  - unfold script_ops in Hs. cbn [map concat] in Hs.
    apply Forall_app in Hs as [He Hs].
    cbn. destruct (objs st !! x) as [[|ev q bgt c|]|]; cbn; auto.
    assert (Hgo : I (snd
      match e with
      | ListenStarts first flush =>
          anext_wait x script (listen_starts first flush st)
      | ListenTurn it c => anext_wait x script (listen_runs it c st)
      | Others ops => anext_wait x script (run_ops ops st)
      | TimerFires => anext_wait x script st
      | Cancel =>
          (Raises StopAsyncIteration, update_obj x (set_bgt NoTask) st)
      end)).
    { destruct e as [first flush|it c'|ops| |]; cbn in He.
      - apply IH; [assumption|].
        apply (stable_listen_starts I); assumption.
      - apply Forall_app in He as [Hg Hc].
        apply IH; [assumption|].
        apply (stable_listen_runs I ok); assumption.
      - apply IH; [assumption|]. apply (stable_run_ops I ok); assumption.
      - apply IH; assumption.
      - cbn; auto. }
    destruct bgt; cbn; auto.
Qed.

Lemma stable_anext x script st :
  Forall ok (script_ops script) -> I st -> I (snd (anext x script st)).
Proof.
  intros Hs HI. unfold anext.
  destruct (objs st !! x) as [[|ev q bgt c|]|]; cbn; auto.
  destruct c; cbn; auto.
  destruct q.
  - apply stable_anext_wait; [assumption|].
    apply I_update_obj; [apply obj_ops_set_bgt|assumption].
  - apply stable_popleft. assumption.
Qed.

End StableQueue.

Lemma apart_anext x ret y script st :
  Forall (fun op => op_lid op ≠ x) (script_ops script) ->
  apart x ret st -> apart x ret (snd (anext y script st)).
Proof.
  destruct (apart_stable x ret) as (Hs1 & Hs2 & Hs3 & Hs4 & Hu & Ho & Hm).
  apply (stable_anext (apart x ret) (fun op => op_lid op ≠ x)); assumption.
Qed.

Lemma apart_new event o script st :
  obj_ops o = [] ->
  unknown (length (objs st)) script st ->
  apart (length (objs st)) event
    (add_listener event (length (objs st)) (set_objs (objs st ++ [o]) st)).
Proof.
  intros Ho (Hnew & Hobjs & _). split.
  - intros e He. rewrite listeners_of_add.
    destruct (decide _) as [Heq|_]; [|apply Hnew].
    exfalso. apply He. symmetry. exact Heq.
  - intros y o'. cbn. intros Hy.
    apply lookup_app_Some in Hy as [Hy|[_ Hy]].
    + eapply Hobjs; eassumption.
    + destruct (y - length (objs st)) as [|n]; cbn in Hy; [|discriminate].
      injection Hy as <-. rewrite Ho. constructor.
Qed.

Lemma apart_removed x event st :
  apart x event st -> forall e, x ∉ listeners_of e (remove_listener event x st).
Proof.
  intros [H _] e. rewrite listeners_of_remove.
  destruct (decide (event = e)) as [<-|Hne]; [set_solver|].
  apply H. congruence.
Qed.

Lemma iterate_deregisters event x script st :
  apart x event st ->
  Forall (fun op => op_lid op ≠ x) (script_ops script) ->
  let run := iterate event x script st in
  let g' := snd (fst run) in
  (g' = GenClosed \/ g' = GenSuspended event x)
  /\ (g' = GenClosed <-> (exists e, fst (fst run) = Raises e))
  /\ (g' = GenClosed -> forall e, x ∉ listeners_of e (snd run))
  /\ (g' = GenSuspended event x -> apart x event (snd run))
  /\ (forall e, x ∉ listeners_of e (snd (event_iter_aclose g' (snd run)))).
Proof.
  intros Hap Hs. cbn zeta. unfold iterate.
  pose proof (apart_anext x event x script st Hs Hap) as H.
  destruct (anext x script st) as [[data|e|] st']; cbn in *.
  - split; [right; reflexivity|]. split.
    { split; [discriminate|]. intros [e He]. discriminate. }
    split; [discriminate|]. split; [intros _; exact H|].
    apply apart_removed. exact H.
  - split; [left; reflexivity|]. split; [split; eauto|].
    split; [intros _; apply apart_removed; exact H|].
    split; [discriminate|]. apply apart_removed. exact H.
  - split; [right; reflexivity|]. split.
    { split; [discriminate|]. intros [e He]. discriminate. }
    split; [discriminate|]. split; [intros _; exact H|].
    apply apart_removed. exact H.
Qed.

(** X19. [event_iter] registers its queueing listener when the first item is
    asked for and removes it when the generator is over. Nothing but the
    generator naming the listener, after each step the generator is
    suspended with the listener set apart as before, or it is over,
    which is the case exactly when the step raises (the end of the
    iteration included), and then no event holds the listener; neither
    does any after [aclose()]. *)
Theorem event_iter_deregisters g event x script st :
  (g = event_iter event /\ x = length (objs st) /\ unknown x script st)
  \/ (g = GenSuspended event x /\ apart x event st
      /\ Forall (fun op => op_lid op ≠ x) (script_ops script)) ->
  let run := event_iter_next g script st in
  let g' := snd (fst run) in
  (g' = GenClosed \/ g' = GenSuspended event x)
  /\ (g' = GenClosed <-> (exists e, fst (fst run) = Raises e))
  /\ (g' = GenClosed -> forall e, x ∉ listeners_of e (snd run))
  /\ (g' = GenSuspended event x -> apart x event (snd run))
  /\ (forall e, x ∉ listeners_of e (snd (event_iter_aclose g' (snd run)))).
Proof.
  intros [(-> & -> & Hu)|(-> & Hap & Hs)].
  - apply iterate_deregisters.
    + apply (apart_new event _ script st); [reflexivity|exact Hu].
    + destruct Hu as (_ & _ & Hs). exact Hs.
  - apply iterate_deregisters; assumption.
Qed.

Lemma event_iter_deregisters_witness :
  let run := event_iter_next (event_iter "y") [Cancel] st_busy in
  snd (fst run) = GenClosed
  /\ (1 ∉ listeners_of "y" (snd run))
  /\ (1 ∉ listeners_of "x_return" (snd run)).
Proof.
  intros run.
  assert (Hu : unknown 1 [Cancel] st_busy).
  { apply unknown_st_busy. constructor. }
  destruct (event_iter_deregisters (event_iter "y") "y" 1 [Cancel] st_busy)
    as (_ & _ & Hclosed & _).
  - left. split; [reflexivity|]. split; [reflexivity|exact Hu].
  - assert (Hg : snd (fst run) = GenClosed) by (vm_compute; reflexivity).
    split; [exact Hg|]. split; apply Hclosed; exact Hg.
Defined.

(** X20. When the link breaks while a consumer waits in [event_iter], the
    read loop cleans up and the iteration ends: the step of the generator
    raises [StopAsyncIteration], the generator is over, its listener is
    out of the set of the event, and the transport is closed. *)
Theorem event_iter_ends_when_link_breaks
    event x it p polls rest buffer st :
  all_calm st -> __s st ≠ None ->
  __lt st = Some (TaskSuspended (InReadUntil buffer)) ->
  x ∈ listeners_of event st ->
  x ∉ listeners_of "closed" st ->
  objs st !! x = Some (ResultQueueListener false [] NoTask false) ->
  it_polls it = p :: polls ->
  p_read p = ReadFails ->
  let run := event_iter_next (GenSuspended event x)
               (ListenTurn it no_gather :: rest) st in
  fst run = (Raises StopAsyncIteration, GenClosed)
  /\ (x ∉ listeners_of event (snd run))
  /\ (__s (snd run), wire (snd run)) = closed_transport st
  /\ __lt (snd run) = None.
Proof.
  intros Hcalm Hs Hlt Hx Hnc Hobj Hpolls Hread. cbn zeta.
  set (st1 := update_obj x (set_bgt TaskPending) st).
  assert (H1 : objs st1 !! x
               = Some (ResultQueueListener false [] TaskPending false)).
  { unfold st1. rewrite lookup_update_obj, decide_True by reflexivity.
    rewrite Hobj. reflexivity. }
  assert (Hsame : __l st1 = __l st /\ __s st1 = __s st /\ __lt st1 = __lt st
                  /\ wire st1 = wire st).
  { unfold st1, update_obj. rewrite Hobj. repeat split. }
  destruct Hsame as (HL1 & Hs1 & Hlt1 & Hw1).
  assert (Hcalm1 : all_calm st1).
  { apply all_calm_update_obj; [|exact Hcalm]. intros o Ho. destruct o; exact Ho. }
  destruct (clean_up_calm st1 Hcalm1)
    as (st2 & Hrun & Hobj2 & HL2 & Htr & Hlt2 & _).
  assert (Hruns : listen_runs it no_gather st1 = st2).
  { unfold listen_runs. rewrite Hlt1, Hlt.
    unfold listen_reads, listen_body. rewrite Hpolls. cbn [read_until_loop].
    destruct (__s st1) eqn:E; [|congruence].
    rewrite Hread, Hrun. reflexivity. }
  assert (Hx1 : x ∈ listeners_of event st1)
    by (unfold listeners_of; rewrite HL1; exact Hx).
  assert (Hnc1 : x ∉ listeners_of "closed" st1)
    by (unfold listeners_of; rewrite HL1; exact Hnc).
  pose proof (registered_once event x st1 Hx1) as Hreg.
  specialize (Hobj2 x). rewrite H1 in Hobj2.
  cbn [fmap option_fmap option_map] in Hobj2.
  rewrite decide_False in Hobj2 by exact Hnc1.
  destruct (registrations x st1) as [|n]; [lia|].
  destruct (iter_cancel_queue n false [] TaskPending false)
    as (bgt' & E & _ & Hb).
  rewrite E, (Hb eq_refl) in Hobj2.
  assert (Hwait : anext_wait x (ListenTurn it no_gather :: rest) st1
                  = (Raises StopAsyncIteration, st2)).
  { cbn [anext_wait]. rewrite H1, Hruns.
    destruct rest; cbn [anext_wait]; rewrite Hobj2; reflexivity. }
  unfold event_iter_next, iterate, anext. rewrite Hobj. fold st1.
  rewrite Hwait. cbn [fst snd].
  split; [reflexivity|]. split.
  - rewrite listeners_of_remove, decide_True by reflexivity. set_solver.
  - assert (Hrm : forall st', __s (remove_listener event x st') = __s st'
                    /\ wire (remove_listener event x st') = wire st'
                    /\ __lt (remove_listener event x st') = __lt st').
    { intros st'. unfold remove_listener.
      destruct (__l st' !! event); repeat split. }
    destruct (Hrm st2) as (-> & -> & ->).
    split; [|exact Hlt2].
    rewrite Htr. unfold closed_transport. rewrite Hs1, Hw1. reflexivity.
Qed.

Lemma event_iter_ends_when_link_breaks_witness :
  let run := event_iter_next (GenSuspended "x" 2)
               [ListenTurn turn_broken no_gather] st_live in
  fst run = (Raises StopAsyncIteration, GenClosed)
  /\ (2 ∉ listeners_of "x" (snd run))
  /\ (__s (snd run), wire (snd run)) = closed_transport st_live
  /\ __lt (snd run) = None.
Proof.
  apply (event_iter_ends_when_link_breaks "x" 2 turn_broken
           {| p_read := ReadFails; p_now := 0; p_sleep := Resumed |}
           [] [] [] st_live).
  - exact all_calm_st_live.
  - discriminate.
  - reflexivity.
  - apply elem_of_elements. vm_compute. repeat constructor.
  - rewrite <- elem_of_elements. vm_compute. intros H.
    inversion H as [|? ? ? H']; inversion H'.
  - reflexivity.
  - reflexivity.
  - reflexivity.
Defined.

(** ** The end of the read loop *)

Lemma clean_up_resets c st st' :
  _clean_up c st = (Ret tt, st') ->
  __lt st' = None /\ __v st' = JInt 0
  /\ match __s st' with
     | Some ser => ser_closed ser = true
     | None => True
     end.
Proof.
  unfold _clean_up. intros H.
  destruct (trigger_listener "closed" closed_message (c_trigger c) st)
    as [[u|e|] st1]; try discriminate.
  destruct (cancel_all_listener (c_cancel c) st1) as [[u'|e|] st2];
    try discriminate.
  injection H as <-. cbn.
  split; [reflexivity|]. split; [reflexivity|].
  destruct (__s st2) as [ser|] eqn:E; cbn; [|rewrite E; exact Logic.I].
  destruct (ser_closed ser) eqn:Ec; cbn; [rewrite E; exact Ec|exact Logic.I].
Qed.

Lemma finish_returns r st st' :
  finish (r, st) = (Ret tt, st') -> (r, st) = (Ret tt, st').
Proof. destruct r; cbn; intros H; try discriminate; exact H. Qed.

Lemma listen_loop_returns c :
  forall its st st',
    listen_loop its c st = (Ret tt, st') ->
    exists st0, _clean_up c st0 = (Ret tt, st').
Proof.
  induction its as [|it its IH]; intros st st' H; cbn [listen_loop] in H.
  - destruct (__s st); [discriminate|].
    destruct (_clean_up c st) as [r st1] eqn:E.
    apply finish_returns in H. exists st. congruence.
  - destruct (__s st) eqn:Es.
    + unfold listen_turn in H. rewrite Es in H.
      destruct (listen_body [] it st) as [[| | |] st1].
      * destruct (it_sleep it); try discriminate; eapply IH; exact H.
      * destruct (_clean_up c st1) as [r st2] eqn:E.
        destruct (finish (r, st2)) as [r' st3] eqn:Ef.
        injection H as -> ->. apply finish_returns in Ef.
        exists st1. congruence.
      * discriminate.
      * discriminate.
    + destruct (_clean_up c st) as [r st1] eqn:E.
      apply finish_returns in H. exists st. congruence.
Qed.

(** X21. The read loop returns only through the clean-up: whenever
    [_listen] ends without an exception, whatever it met, the task handle
    is cleared, the version is 0, and no open transport is left
    referenced. *)
Theorem listen_returns_only_after_clean_up w st st' :
  _listen w st = (Ret tt, st') ->
  __lt st' = None
  /\ __v st' = JInt 0
  /\ match __s st' with
     | Some ser => ser_closed ser = true
     | None => True
     end.
Proof.
  unfold _listen. intros H.
  destruct (flush_input (le_first w) (le_flush w) st) as [[u|e|] st1];
    try discriminate.
  apply listen_loop_returns in H as [st0 H].
  eapply clean_up_resets. exact H.
Qed.

Lemma listen_returns_only_after_clean_up_witness :
  let w := {| le_first := Some 0; le_flush := [];
              le_turns := [turn_of frame_x; turn_broken];
              le_cleanup := no_gather |} in
  let st' := snd (_listen w st_live) in
  __lt st' = None
  /\ __v st' = JInt 0
  /\ match __s st' with
     | Some ser => ser_closed ser = true
     | None => True
     end.
Proof.
  intros w.
  apply (listen_returns_only_after_clean_up w st_live).
  vm_compute. reflexivity.
Defined.

(** ** The deadline of a request *)

Lemma polls_on_silent before polls :
  Forall (fun p => p_read p = ReadBytes [] /\ p_sleep p = Resumed) polls ->
  polls_on newline None before [] polls = true /\ polled polls = [].
Proof.
  induction 1 as [|p polls [Hr Hsl] _ [IH1 IH2]]; [split; reflexivity|].
  assert (Hp : polled [p] = []) by (apply polled_one; exact Hr).
  split.
  - cbn [polls_on]. unfold goes_on. rewrite Hr, Hsl, Hp. exact IH1.
  - change (p :: polls) with ([p] ++ polls). rewrite polled_app, Hp. exact IH2.
Qed.

Lemma set_lt_same st t : __lt st = t -> set_lt t st = st.
Proof. intros <-. destruct st. reflexivity. Qed.

Lemma listen_runs_silent it c st :
  silent (ListenTurn it c) ->
  __s st ≠ None ->
  __lt st = Some (TaskSuspended (InReadUntil [])) ->
  listen_runs it c st = st.
Proof.
  intros Hsil Hs Hlt. cbn in Hsil.
  destruct (polls_on_silent (it_before it) (it_polls it) Hsil) as [Hon Hnone].
  unfold listen_runs. rewrite Hlt. unfold listen_reads, listen_body.
  rewrite read_until_loop_pending by assumption.
  rewrite Hnone. apply set_lt_same. exact Hlt.
Qed.

Lemma wait_loop_silent x t r0 rest :
  forall pre st,
    Forall silent pre ->
    __s st ≠ None ->
    __lt st = Some (TaskSuspended (InReadUntil [])) ->
    objs st !! x = Some (ResultEventListener false r0 TaskPending) ->
    wait_loop x (Some t) (pre ++ TimerFires :: rest) st
    = (Raise TimeoutError, update_obj x (set_bgt NoTask) st).
Proof.
  induction pre as [|e pre IH]; intros st Hpre Hs Hlt Hobj.
  - cbn [app wait_loop]. rewrite Hobj. reflexivity.
  - apply Forall_cons in Hpre as [He Hpre].
    destruct e as [| it c | | |]; try contradiction.
    cbn [app wait_loop]. rewrite Hobj.
    rewrite listen_runs_silent by assumption. apply IH; assumption.
Qed.



Lemma all_calm_remove event x st :
  all_calm st -> all_calm (remove_listener event x st).
Proof.
  intros [H1 H2]. split.
  - intros y o Hy. apply (H1 y).
    unfold remove_listener in Hy. destruct (__l st !! event); exact Hy.
  - intros e y Hy. rewrite listeners_of_remove in Hy.
    assert (Hin : y ∈ listeners_of e st)
      by (destruct (decide (event = e)); set_solver).
    apply H2 in Hin.
    unfold remove_listener. destruct (__l st !! event); exact Hin.
Qed.

Lemma wait_silent x t r0 script st :
  deadline_passes script st ->
  __s st ≠ None ->
  objs st !! x = Some (ResultEventListener false r0 TaskPending) ->
  wait_loop x (Some t) script st
  = (Raise TimeoutError,
     update_obj x (set_bgt NoTask)
       (set_lt (Some (TaskSuspended (InReadUntil []))) st)).
Proof.
  intros (pre & rest & Hpre & [[-> Hlt]|[-> Hlt]]) Hs Hobj.
  - rewrite (set_lt_same st _ Hlt).
    apply (wait_loop_silent x t r0 rest pre st); assumption.
  - cbn [wait_loop]. rewrite Hobj.
    assert (Hstart : listen_starts (Some 0) [] st
                     = set_lt (Some (TaskSuspended (InReadUntil []))) st).
    { unfold listen_starts, flush_input. rewrite Hlt.
      destruct (__s st); [reflexivity|contradiction]. }
    rewrite Hstart.
    apply (wait_loop_silent x t r0 rest pre); [assumption..|reflexivity|exact Hobj].
Qed.

Lemma deadline_passes_same script st st' :
  __lt st' = __lt st -> deadline_passes script st -> deadline_passes script st'.
Proof.
  intros Hlt (pre & rest & H1 & H2). exists pre, rest. rewrite Hlt. auto.
Qed.

(** A payload that cannot be printed: [json.dumps] raises, nothing is
    written, and the listener is taken out again. *)
Lemma request_with_result_not_printed event data timeout w1 w2 script st d :
  all_calm st ->
  dicts st !! default request_with_result_default data = Some d ->
  fits (JDict (dict_set "event" (JStr event) d)) = false ->
  exists st',
    request_with_result event data timeout w1 w2 script st
    = (Raise ValueError, st')
    /\ (forall e, listeners_of e st' = listeners_of e st)
    /\ wire st' = wire st /\ __lt st' = __lt st /\ __s st' = __s st
    /\ dicts st'
       = <[default request_with_result_default data
             := dict_set "event" (JStr event) d]> (dicts st).
Proof.
  intros Hcalm Hd Hfits.
  set (a := default request_with_result_default data) in *.
  set (x := length (objs st)).
  set (ret := String.append event "_return").
  set (st0 := with_listener event st).
  set (st1 := set_dicts (<[a := dict_set "event" (JStr event) d]> (dicts st)) st0).
  assert (Hreq : request event (Some a) w1 w2 st0 = (Raise ValueError, st1)).
  { unfold request. change (default request_default (Some a)) with a.
    change (dicts st0) with (dicts st). rewrite Hd.
    unfold json_dumps. rewrite Hfits. reflexivity. }
  exists (remove_listener ret x st1). split.
  { assert (Hsw : send_and_wait event a x timeout w1 w2 script st0
                  = (Raise ValueError, st1)).
    { unfold send_and_wait. rewrite Hreq. reflexivity. }
    clear -Hsw. subst a x ret st0. unfold request_with_result.
    rewrite Hsw. reflexivity. }
  assert (Hrm : wire (remove_listener ret x st1) = wire st1
                /\ dicts (remove_listener ret x st1) = dicts st1
                /\ __lt (remove_listener ret x st1) = __lt st1
                /\ __s (remove_listener ret x st1) = __s st1).
  { unfold remove_listener. destruct (__l st1 !! ret); repeat split. }
  destruct Hrm as (-> & -> & -> & ->).
  split; [|repeat split].
  intros e. rewrite listeners_of_remove.
  change (listeners_of e st1) with (listeners_of e st0).
  unfold st0, with_listener. rewrite listeners_of_add.
  change (listeners_of e (set_objs _ st)) with (listeners_of e st).
  pose proof (all_calm_fresh st Hcalm e) as Hfresh. fold x in Hfresh.
  destruct (decide (ret = e)) as [<-|Hne].
  - rewrite decide_True by reflexivity. set_solver.
  - rewrite decide_False by exact Hne. reflexivity.
Qed.

Lemma request_with_result_silent event data t w1 w2 script st d :
  all_calm st -> __s st ≠ None ->
  dicts st !! default request_with_result_default data = Some d ->
  accepts w1 -> accepts w2 ->
  length (encode (JDict (dict_set "event" (JStr event) d))) <= length w1 ->
  2 <= length w2 ->
  fits (JDict (dict_set "event" (JStr event) d)) = true ->
  deadline_passes script st ->
  exists st',
    request_with_result event data (Some t) w1 w2 script st
    = (Raise TimeoutError, st')
    /\ (forall e, listeners_of e st' = listeners_of e st)
    /\ all_calm st'
    /\ __s st' = __s st /\ __v st' = __v st
    /\ __lt st' = Some (TaskSuspended (InReadUntil []))
    /\ sent st' = sent st ++ frame_of (JDict (dict_set "event" (JStr event) d)).
Proof.
  intros Hcalm Hs Hd Hw1 Hw2 Hl1 Hl2 Hfd Hdead.
  set (a := default request_with_result_default data) in *.
  set (x := length (objs st)).
  set (ret := String.append event "_return").
  set (st0 := with_listener event st).
  assert (Hcalm0 : all_calm st0).
  { apply all_calm_add; [exact Logic.I|exact Hcalm]. }
  assert (Hobj0 : objs st0 !! x = Some (ResultEventListener false None NoTask)).
  { unfold st0, with_listener. cbn. rewrite lookup_app_r by (unfold x; lia).
    unfold x. rewrite Nat.sub_diag. reflexivity. }
  destruct (request_goes_through event a d w1 w2 st0)
    as (st1 & Hreq & Hsent1 & Ho1 & HL1 & Hs1 & Hlt1 & Hv1 & _);
    try assumption.
  set (st2 := update_obj x (set_bgt TaskPending) st1).
  assert (Hobj2 : objs st2 !! x = Some (ResultEventListener false None TaskPending)).
  { unfold st2. rewrite lookup_update_obj, decide_True by reflexivity.
    rewrite Ho1, Hobj0. reflexivity. }
  assert (Hcalm2 : all_calm st2).
  { apply all_calm_update_obj.
    - intros o Ho. destruct o; exact Ho.
    - eapply all_calm_same; [exact Ho1|exact HL1|exact Hcalm0]. }
  assert (Hfr2 : __l st2 = __l st0 /\ __s st2 = __s st /\ __v st2 = __v st
                 /\ wire st2 = wire st1 /\ __lt st2 = __lt st).
  { unfold st2, update_obj. destruct (objs st1 !! x); cbn;
      repeat split; assumption. }
  destruct Hfr2 as (HL2 & Hs2 & Hv2 & Hwire2 & Hlt2).
  set (st3 := set_lt (Some (TaskSuspended (InReadUntil []))) st2).
  set (st4 := update_obj x (set_bgt NoTask) st3).
  assert (Hwait : wait_loop x (Some t) script st2 = (Raise TimeoutError, st4)).
  { apply (wait_silent x t None script st2).
    - eapply deadline_passes_same; [exact Hlt2|exact Hdead].
    - rewrite Hs2. exact Hs.
    - exact Hobj2. }
  assert (Hcalm4 : all_calm st4).
  { apply all_calm_update_obj.
    - intros o Ho. destruct o; exact Ho.
    - apply (all_calm_same st2); [reflexivity..|exact Hcalm2]. }
  assert (Hfr4 : __l st4 = __l st0 /\ __s st4 = __s st /\ __v st4 = __v st
                 /\ wire st4 = wire st1
                 /\ __lt st4 = Some (TaskSuspended (InReadUntil []))).
  { unfold st4, update_obj. destruct (objs st3 !! x); cbn;
      repeat split; assumption. }
  destruct Hfr4 as (HL4 & Hs4 & Hv4 & Hwire4 & Hlt4).
  exists (remove_listener ret x st4).
  assert (Hrm : forall st', __s (remove_listener ret x st') = __s st'
                  /\ __v (remove_listener ret x st') = __v st'
                  /\ wire (remove_listener ret x st') = wire st'
                  /\ __lt (remove_listener ret x st') = __lt st').
  { intros st'. unfold remove_listener.
    destruct (__l st' !! ret); repeat split. }
  destruct (Hrm st4) as (E1 & E2 & E3 & E4).
  split; [|split; [|split; [|split; [|split; [|split]]]]].
  - assert (Hsw : send_and_wait event a x (Some t) w1 w2 script st0
                  = (Raise TimeoutError, st4)).
    { unfold send_and_wait. rewrite Hreq. exact Hwait. }
    clear -Hsw. subst a x ret st0. unfold request_with_result.
    rewrite Hsw. reflexivity.
  - intros e. rewrite listeners_of_remove.
    assert (He : listeners_of e st4 = listeners_of e st0)
      by (unfold listeners_of; rewrite HL4; reflexivity).
    rewrite He. unfold st0, with_listener. rewrite listeners_of_add.
    change (listeners_of e (set_objs _ st)) with (listeners_of e st).
    pose proof (all_calm_fresh st Hcalm e) as Hfresh. fold x in Hfresh.
    destruct (decide (ret = e)) as [<-|Hne].
    + rewrite decide_True by reflexivity. set_solver.
    + rewrite decide_False by exact Hne. reflexivity.
  - apply all_calm_remove. exact Hcalm4.
  - congruence.
  - congruence.
  - congruence.
  - unfold sent. rewrite E3, Hwire4. exact Hsent1.
Qed.

(** X22. With a timeout, a request that gets no answer raises
    [TimeoutError]: the device sending nothing until the deadline passes,
    the line of the request has been sent all the same, the read loop
    still waits for a line, and the listeners of every event are those of
    before the call. (A payload with an integer that is too long to print
    is not sent at all: the call raises [ValueError] at once, the
    listeners being those of before as well.) *)
Theorem request_with_result_times_out event data t w1 w2 script st d :
  all_calm st -> __s st ≠ None ->
  dicts st !! default request_with_result_default data = Some d ->
  accepts w1 -> accepts w2 ->
  length (encode (JDict (dict_set "event" (JStr event) d))) <= length w1 ->
  2 <= length w2 ->
  deadline_passes script st ->
  let message := JDict (dict_set "event" (JStr event) d) in
  let run := request_with_result event data (Some t) w1 w2 script st in
  fst run = Raise (if fits message then TimeoutError else ValueError)
  /\ (forall e, listeners_of e (snd run) = listeners_of e st)
  /\ (fits message = true ->
      __lt (snd run) = Some (TaskSuspended (InReadUntil [])))
  /\ sent (snd run)
     = sent st ++ (if fits message then frame_of message else []).
Proof.
  intros Hcalm Hs Hd Hw1 Hw2 Hl1 Hl2 Hdead. cbn zeta.
  destruct (fits (JDict (dict_set "event" (JStr event) d))) eqn:Hfd.
  - destruct (request_with_result_silent event data t w1 w2 script st d
                Hcalm Hs Hd Hw1 Hw2 Hl1 Hl2 Hfd Hdead)
      as (st' & Hrun & Hreg & _ & _ & _ & Hlt & Hsent).
    rewrite Hrun. auto.
  - destruct (request_with_result_not_printed event data (Some t) w1 w2 script
                st d Hcalm Hd Hfd)
      as (st' & Hrun & Hreg & Hwire & _).
    rewrite Hrun. cbn [fst snd]. split; [reflexivity|]. split; [exact Hreg|].
    split; [discriminate|]. unfold sent. rewrite Hwire, app_nil_r. reflexivity.
Qed.

Lemma request_with_result_times_out_witness :
  let run := request_with_result "x" None (Some 250%Z)
               (repeat (Wrote 1) 14) (repeat (Wrote 1) 2)
               [ListenTurn {| it_before := 0;
                              it_polls := [idle 100 Resumed; idle 200 Resumed];
                              it_load := LoadReturns;
                              it_dispatch := Gathered [];
                              it_sleep := Resumed |} no_gather;
                TimerFires] st_live in
  fst run = Raise TimeoutError
  /\ (forall e, listeners_of e (snd run) = listeners_of e st_live)
  /\ __lt (snd run) = Some (TaskSuspended (InReadUntil []))
  /\ sent (snd run)
     = sent st_live ++ frame_of (JDict (dict_set "event" (JStr "x") [])).
Proof.
  destruct (request_with_result_times_out "x" None 250%Z
              (repeat (Wrote 1) 14) (repeat (Wrote 1) 2)
              [ListenTurn {| it_before := 0;
                             it_polls := [idle 100 Resumed; idle 200 Resumed];
                             it_load := LoadReturns;
                             it_dispatch := Gathered [];
                             it_sleep := Resumed |} no_gather;
               TimerFires] st_live [])
    as (H1 & H2 & H3 & H4).
  - exact all_calm_st_live.
  - discriminate.
  - reflexivity.
  - apply accepts_repeat.
  - apply accepts_repeat.
  - vm_compute. lia.
  - vm_compute. lia.
  - exists [ListenTurn {| it_before := 0;
                          it_polls := [idle 100 Resumed; idle 200 Resumed];
                          it_load := LoadReturns;
                          it_dispatch := Gathered [];
                          it_sleep := Resumed |} no_gather], [].
    split.
    + constructor; [|constructor]. cbn. repeat constructor.
    + left. split; reflexivity.
  - split; [exact H1|]. split; [exact H2|].
    split; [exact (H3 eq_refl)|exact H4].
Defined.

(** ** A port that does not answer *)

(** X23. A port that opens and then sends nothing is closed again: the
    deadline of the handshake passing while the read loop waits for a
    line, [_init] returns [False] after the clean-up has closed and
    forgotten the transport, cleared the task handle and left the version
    at 0; the listeners of every event are those of before. *)
Theorem init_closes_silent_port port baudrate w ser pre rest st :
  all_calm st ->
  i_open w = Opened ser -> ser_closed ser = false ->
  accepts (i_hello w) -> 2 <= length (i_hello w) ->
  accepts (i_w1 w) -> 29 <= length (i_w1 w) ->
  accepts (i_w2 w) -> 2 <= length (i_w2 w) ->
  Forall silent pre ->
  i_wait w = ListenStarts (Some 0) [] :: pre ++ TimerFires :: rest ->
  i_cleanup w = no_gather ->
  let run := _init port baudrate w st in
  fst run = Ret false
  /\ __s (snd run) = None
  /\ transport_closed (snd run) = true
  /\ __lt (snd run) = None
  /\ version (snd run) = JInt 0
  /\ (forall e, listeners_of e (snd run) = listeners_of e st).
Proof.
  intros Hcalm Hopen Hclosed Hh Hhl Hw1 Hl1 Hw2 Hl2 Hpre Hwait Hclean.
  cbn zeta. unfold _init. rewrite Hopen.
  set (st1 := log_io (IoOpen port baudrate) (set_s (Some ser) st)).
  destruct (write_goes_through [byte_of_ascii CR; byte_of_ascii LF]
              (i_hello w) st1)
    as (st2 & Hrun2 & _ & Ho2 & HL2 & Hs2 & _ & _ & Hd2);
    [discriminate|exact Hh|exact Hhl|].
  unfold write_str.
  change (utf8_encode (String CR (String LF "")))
    with [byte_of_ascii CR; byte_of_ascii LF].
  rewrite Hrun2.
  set (st4 := set_dicts _ (set_lt (Some TaskCreated) st2)).
  assert (Hcalm4 : all_calm st4).
  { apply (all_calm_same st); [exact Ho2|exact HL2|exact Hcalm]. }
  assert (Hs4 : __s st4 = Some ser) by exact Hs2.
  assert (Hs4' : __s st4 ≠ None) by (rewrite Hs4; discriminate).
  assert (Hd4 : dicts st4 !! default request_with_result_default
                               (Some (length (dicts st2))) = Some []).
  { cbn. apply list_lookup_middle. reflexivity. }
  assert (Hdead : deadline_passes (i_wait w) st4).
  { exists pre, rest. split; [exact Hpre|]. right. split; [exact Hwait|reflexivity]. }
  destruct (request_with_result_silent "protocol_version"
              (Some (length (dicts st2))) handshake_timeout
              (i_w1 w) (i_w2 w) (i_wait w) st4 []
              Hcalm4 Hs4' Hd4 Hw1 Hw2 Hl1 Hl2 eq_refl Hdead)
    as (st5 & Hrun5 & Hreg5 & Hcalm5 & Hs5 & _ & Hlt5 & _).
  change (length (dicts (set_lt (Some TaskCreated) st2)))
    with (length (dicts st2)).
  fold st4. rewrite Hrun5.
  destruct (clean_up_calm st5 Hcalm5)
    as (st6 & Hrun6 & _ & HL6 & Htr & Hlt6 & Hv6).
  unfold close. rewrite Hlt5, Hclean. cbn [inside_try]. rewrite Hrun6.
  cbn [finish fst snd].
  unfold closed_transport in Htr. rewrite Hs5, Hs4, Hclosed in Htr.
  injection Htr as Hs6 Hw6.
  split; [reflexivity|]. split; [exact Hs6|].
  split; [|split; [exact Hlt6|split; [exact Hv6|]]].
  - unfold transport_closed. rewrite Hw6, existsb_app. cbn.
    apply orb_true_r.
  - intros e. unfold listeners_of at 1. rewrite HL6.
    change (default ∅ (__l st5 !! e)) with (listeners_of e st5).
    rewrite Hreg5. unfold listeners_of. cbn. rewrite HL2. reflexivity.
Qed.

Lemma all_calm_init_state : all_calm init_state.
Proof.
  split.
  - intros x o H. cbn in H. discriminate.
  - intros e x H. unfold listeners_of in H. cbn in H.
    rewrite lookup_empty in H. cbn in H. set_solver.
Defined.

Lemma init_closes_silent_port_witness :
  let w := {| i_open := Opened port0;
              i_hello := repeat (Wrote 1) 2;
              i_w1 := repeat (Wrote 1) 29;
              i_w2 := repeat (Wrote 1) 2;
              i_wait := [ListenStarts (Some 0) []; TimerFires];
              i_cleanup := no_gather |} in
  let run := _init "/dev/ttyACM0" 115200 w init_state in
  fst run = Ret false
  /\ __s (snd run) = None
  /\ transport_closed (snd run) = true
  /\ __lt (snd run) = None
  /\ version (snd run) = JInt 0
  /\ (forall e, listeners_of e (snd run) = listeners_of e init_state).
Proof.
  intros w.
  apply (init_closes_silent_port "/dev/ttyACM0" 115200 w port0 [] [] init_state).
  - exact all_calm_init_state.
  - reflexivity.
  - reflexivity.
  - apply accepts_repeat.
  - cbn. lia.
  - apply accepts_repeat.
  - cbn. lia.
  - apply accepts_repeat.
  - cbn. lia.
  - constructor.
  - reflexivity.
  - reflexivity.
Defined.

(** ** A request without transport *)

Lemma write_loop_without_transport view ws st :
  __s st = None -> 0 < length view ->
  write_loop view 0 ws st = (Raise AttributeError, st).
Proof.
  intros Hs Hlen.
  assert (E : (0 <? length view)%nat = true) by (apply Nat.ltb_lt; exact Hlen).
  destruct ws; cbn [write_loop]; rewrite E, Hs; reflexivity.
Qed.

(** X24. On a protocol object that has no transport, because it was never
    initialised or was cleaned up, [request_with_result] raises
    [AttributeError] at its first write, or [ValueError] before it when
    the payload holds an integer that is too long to print: nothing is
    sent and the listeners of every event are those of before, but the
    payload dictionary has got its "event" entry. *)
Theorem request_with_result_without_transport
    event data timeout w1 w2 script st d :
  all_calm st -> __s st = None ->
  dicts st !! default request_with_result_default data = Some d ->
  let run := request_with_result event data timeout w1 w2 script st in
  fst run
  = Raise (if fits (JDict (dict_set "event" (JStr event) d))
           then AttributeError else ValueError)
  /\ wire (snd run) = wire st
  /\ (forall e, listeners_of e (snd run) = listeners_of e st)
  /\ dicts (snd run)
     = <[default request_with_result_default data
           := dict_set "event" (JStr event) d]> (dicts st).
Proof.
  intros Hcalm Hs Hd. cbn zeta.
  destruct (fits (JDict (dict_set "event" (JStr event) d))) eqn:Hfd; cycle 1.
  { destruct (request_with_result_not_printed event data timeout w1 w2 script
                st d Hcalm Hd Hfd)
      as (st' & Hrun & Hreg & Hwire & _ & _ & Hdicts).
    rewrite Hrun. cbn [fst snd]. auto. }
  set (a := default request_with_result_default data) in *.
  set (x := length (objs st)).
  set (ret := String.append event "_return").
  set (st0 := with_listener event st).
  set (msg := JDict (dict_set "event" (JStr event) d)) in *.
  set (st1 := set_dicts (<[a := dict_set "event" (JStr event) d]> (dicts st)) st0).
  assert (Hbytes : utf8_encode (string_of_list_ascii (encode msg))
                   = ascii_bytes (encode msg)).
  { apply utf8_encode_printable, printable_encode. }
  assert (Hreq : request event (Some a) w1 w2 st0 = (Raise AttributeError, st1)).
  { unfold request. change (default request_default (Some a)) with a.
    change (dicts st0) with (dicts st). rewrite Hd. fold msg. fold st1.
    rewrite (json_dumps_fits msg Hfd).
    unfold write_str, write. rewrite Hbytes.
    rewrite write_loop_without_transport; [reflexivity|exact Hs|].
    cbn. lia. }
  assert (Hrun : request_with_result event data timeout w1 w2 script st
                 = (Raise AttributeError, remove_listener ret x st1)).
  { assert (Hsw : send_and_wait event a x timeout w1 w2 script st0
                  = (Raise AttributeError, st1)).
    { unfold send_and_wait. rewrite Hreq. reflexivity. }
    clear -Hsw. subst a x ret st0. unfold request_with_result.
    rewrite Hsw. reflexivity. }
  rewrite Hrun. cbn [fst snd].
  assert (Hrm : wire (remove_listener ret x st1) = wire st1
                /\ dicts (remove_listener ret x st1) = dicts st1).
  { unfold remove_listener. destruct (__l st1 !! ret); split; reflexivity. }
  destruct Hrm as [-> ->].
  split; [reflexivity|]. split; [reflexivity|]. split; [|reflexivity].
  intros e. rewrite listeners_of_remove.
  change (listeners_of e st1) with (listeners_of e st0).
  unfold st0, with_listener. rewrite listeners_of_add.
  change (listeners_of e (set_objs _ st)) with (listeners_of e st).
  pose proof (all_calm_fresh st Hcalm e) as Hfresh. fold x in Hfresh.
  destruct (decide (ret = e)) as [<-|Hne].
  - rewrite decide_True by reflexivity. set_solver.
  - rewrite decide_False by exact Hne. reflexivity.
Qed.

Lemma request_with_result_without_transport_witness :
  let run := request_with_result "dialog" None (Some 250%Z) [Wrote 128]
               [Wrote 2] [TimerFires] init_state in
  fst run = Raise AttributeError
  /\ wire (snd run) = wire init_state
  /\ (forall e, listeners_of e (snd run) = listeners_of e init_state)
  /\ dicts (snd run)
     = <[default request_with_result_default None
           := dict_set "event" (JStr "dialog") []]> (dicts init_state).
Proof.
  apply (request_with_result_without_transport "dialog" None (Some 250%Z)
           [Wrote 128] [Wrote 2] [TimerFires] init_state []).
  - exact all_calm_init_state.
  - reflexivity.
  - reflexivity.
Defined.
